(** * Gomoku496: the padded one-dimensional board of simple_board.py

    A shallow embedding of [SimpleGoBoard] (src/assignment1/simple_board.py)
    and the properties of its specification.

    - Python values: integers are [Z]; a numpy array or a Python list is a
      [list], indexed the way Python indexes it (a negative index counts from
      the end, an index out of range raises [IndexError]).
    - Effects: a method body is a function from the board it runs on to a
      result in the monad [res], which either returns a value (and the
      updated board), raises an exception, or runs out of the fuel that
      bounds its loops.
    - Aliasing: the attribute [store] of a board object is a reference to a
      list object.  The object level at the end of the definitions keeps the
      list objects in a heap, so that two boards holding the same reference
      see each other's updates. *)

From Stdlib Require Import ZArith Lia.
From stdpp Require Import sorting numbers list.
Local Open Scope Z_scope.

(** ** Python run-time model *)

Inductive exn := AssertionError | IndexError | ValueError.

Inductive res (A : Type) :=
  | Ret (a : A)
  | Exc (e : exn)
  | Diverge.
Arguments Ret {A} a.
Arguments Exc {A} e.
Arguments Diverge {A}.

Global Instance res_ret : MRet res := @Ret.
Global Instance res_bind : MBind res := fun A B f m =>
  match m with
  | Ret a => f a
  | Exc e => Exc e
  | Diverge => Diverge
  end.

Definition exn_eqb (e1 e2 : exn) : bool :=
  match e1, e2 with
  | AssertionError, AssertionError | IndexError, IndexError
  | ValueError, ValueError => true
  | _, _ => false
  end.

(** [try: body except e: handler] *)
Definition try_except {A} (body : res A) (e : exn) (handler : res A) : res A :=
  match body with
  | Exc e' => if exn_eqb e' e then handler else Exc e'
  | r => r
  end.

(** [assert cond] *)
Definition py_assert (cond : bool) : res unit :=
  if cond then Ret tt else Exc AssertionError.

(** The position that the subscript [i] denotes in a sequence of length
    [length l]: [l[i]] for [0 <= i < len], [l[len + i]] for
    [-len <= i < 0], [IndexError] otherwise. *)
Definition py_index {A} (l : list A) (i : Z) : res nat :=
  let n := Z.of_nat (length l) in
  if (0 <=? i) && (i <? n) then Ret (Z.to_nat i)
  else if (- n <=? i) && (i <? 0) then Ret (Z.to_nat (i + n))
  else Exc IndexError.

(** [l[i]] *)
Definition py_getitem {A} (l : list A) (i : Z) : res A :=
  k ← py_index l i;
  match l !! k with
  | Some x => Ret x
  | None => Exc IndexError
  end.

(** [l[i] = x] *)
Definition py_setitem {A} (l : list A) (i : Z) (x : A) : res (list A) :=
  k ← py_index l i;
  Ret (<[k:=x]> l).

(** [a[indices] = x] for a list of integer subscripts (numpy). *)
Fixpoint py_setitems {A} (l : list A) (indices : list Z) (x : A)
  : res (list A) :=
  match indices with
  | [] => Ret l
  | i :: rest => l' ← py_setitem l i x; py_setitems l' rest x
  end.

(** Bound of a slice [a[start:stop]], clipped to the sequence. *)
Definition py_slice_bound (n i : Z) : Z :=
  if i <? 0 then Z.max 0 (i + n) else Z.min i n.

(** [a[start:stop] = x] on a numpy array: every cell of the slice is set. *)
Definition py_fill_slice {A} (l : list A) (start stop : Z) (x : A) : list A :=
  let n := Z.of_nat (length l) in
  let lo := py_slice_bound n start in
  let hi := py_slice_bound n stop in
  if lo <? hi
  then take (Z.to_nat lo) l ++ replicate (Z.to_nat (hi - lo)) x
         ++ drop (Z.to_nat hi) l
  else l.

(** [l.remove(x)]: drops the first occurrence, [ValueError] if there is
    none. *)
Fixpoint py_remove (x : Z) (l : list Z) : res (list Z) :=
  match l with
  | [] => Exc ValueError
  | y :: r => if x =? y then Ret r else r' ← py_remove x r; Ret (y :: r')
  end.

(** [l.sort()] on integers. *)
Definition py_sort (l : list Z) : list Z := merge_sort Z.le l.

(** ** board_util *)

(** Modelled from the spec: the colour constants of board_util (not under
    src/), four distinct values.  [reset] keeps the black stones in
    [store[1]] and the white stones in [store[2]] and indexes [store] by
    colour, which fixes BLACK and WHITE. *)
Definition EMPTY : Z := 0.
Definition BLACK : Z := 1.
Definition WHITE : Z := 2.
Definition BORDER : Z := 3.

(** Modelled from the spec: MAXSIZE of board_util, the fixed ceiling of the
    board size. *)
Definition MAXSIZE : Z := 25.

(** Modelled from the spec: is_black_white of board_util, which holds of
    the two stone colours. *)
Definition is_black_white (color : Z) : bool :=
  (color =? BLACK) || (color =? WHITE).

(** Modelled from the spec: GoBoardUtil.opponent of board_util, the other
    stone colour. *)
Definition opponent (color : Z) : Z := WHITE + BLACK - color.

(** Modelled from the spec: where1d of board_util, the indices at which a
    boolean mask holds, in ascending order. *)
Fixpoint where1d_from (i : Z) (mask : list bool) : list Z :=
  match mask with
  | [] => []
  | m :: rest =>
      if m then i :: where1d_from (i + 1) rest else where1d_from (i + 1) rest
  end.
Definition where1d (mask : list bool) : list Z := where1d_from 0 mask.

(** Modelled from the spec: PASS of board_util, the value [checkState]
    returns for a full board; [None] stands for it. *)
Definition PASS : option Z := None.

(** ** The board *)

(** The attributes of a [SimpleGoBoard].  [S] is what the attribute [store]
    holds: the three lists themselves in a method body, a reference to them
    in an object. *)
Record SimpleGoBoard (S : Type) := MkBoard {
  size : Z;
  NS : Z;
  WE : Z;
  ko_recapture : option Z;
  current_player : Z;
  maxpoint : Z;
  board : list Z;
  store : S
}.
Arguments MkBoard {S}.
Arguments size {S}.
Arguments NS {S}.
Arguments WE {S}.
Arguments ko_recapture {S}.
Arguments current_player {S}.
Arguments maxpoint {S}.
Arguments board {S}.
Arguments store {S}.

Definition set_board {S} (b : SimpleGoBoard S) (cells : list Z)
  : SimpleGoBoard S :=
  MkBoard (size b) (NS b) (WE b) (ko_recapture b) (current_player b)
          (maxpoint b) cells (store b).

Definition set_store {S T} (b : SimpleGoBoard S) (st : T) : SimpleGoBoard T :=
  MkBoard (size b) (NS b) (WE b) (ko_recapture b) (current_player b)
          (maxpoint b) (board b) st.

(** The board a method body runs on: [store] is [[scratch, blacks, whites]]. *)
Abbreviation Board := (SimpleGoBoard (list (list Z))).

Definition get_color (self : Board) (point : Z) : res Z :=
  py_getitem (board self) point.

Definition getSize (self : Board) : Z := size self.

Definition get_empty_points (self : Board) : list Z :=
  where1d (map (fun c => c =? EMPTY) (board self)).

Definition row_start (self : Board) (row : Z) : res Z :=
  _ ← py_assert (1 <=? row);
  _ ← py_assert (row <=? size self);
  Ret (row * NS self + 1).

(** [for row in range(1, self.size + 1)]: the rows still to fill. *)
Fixpoint _initialize_empty_points_for (self : Board) (rows : list Z)
    (cells : list Z) : res (list Z) :=
  match rows with
  | [] => Ret cells
  | row :: rest =>
      start ← row_start self row;
      _initialize_empty_points_for self rest
        (py_fill_slice cells start (start + size self) EMPTY)
  end.

Definition _initialize_empty_points (self : Board) (cells : list Z)
  : res (list Z) :=
  _initialize_empty_points_for self (seqZ 1 (size self)) cells.

Definition reset (size : Z) : res Board :=
  let maxpoint := size * size + 3 * (size + 1) in
  let self :=
    MkBoard size (size + 1) 1 None BLACK maxpoint
            (replicate (Z.to_nat maxpoint) BORDER) [] in
  cells ← _initialize_empty_points self (board self);
  Ret (set_store (set_board self cells) [[]; []; []]).

Definition __init__ (size : Z) : res Board :=
  _ ← py_assert ((2 <=? size) && (size <=? MAXSIZE));
  reset size.

Definition _neighbors (self : Board) (point : Z) : list Z :=
  [point - 1; point + 1; point - NS self; point + NS self].

Definition _diag_neighbors (self : Board) (point : Z) : list Z :=
  [point - NS self - 1; point - NS self + 1;
   point + NS self - 1; point + NS self + 1].

Fixpoint neighbors_of_color_for (self : Board) (color : Z) (nbs nbc : list Z)
  : res (list Z) :=
  match nbs with
  | [] => Ret nbc
  | nb :: rest =>
      c ← get_color self nb;
      if c =? color
      then neighbors_of_color_for self color rest (nbc ++ [nb])
      else neighbors_of_color_for self color rest nbc
  end.

Definition neighbors_of_color (self : Board) (point color : Z)
  : res (list Z) :=
  neighbors_of_color_for self color (_neighbors self point) [].

(** *** Eyes *)

Fixpoint _is_surrounded_for (self : Board) (color : Z) (nbs : list Z)
  : res bool :=
  match nbs with
  | [] => Ret true
  | nb :: rest =>
      nb_color ← py_getitem (board self) nb;
      if negb (nb_color =? BORDER) && negb (nb_color =? color)
      then Ret false
      else _is_surrounded_for self color rest
  end.

Definition _is_surrounded (self : Board) (point color : Z) : res bool :=
  _is_surrounded_for self color (_neighbors self point).

(** The loop of [is_eye] over the diagonal neighbours, on the pair
    [(false_count, at_edge)]. *)
Fixpoint is_eye_for (self : Board) (opp_color : Z) (ds : list Z)
    (false_count at_edge : Z) : res (Z * Z) :=
  match ds with
  | [] => Ret (false_count, at_edge)
  | d :: rest =>
      c ← py_getitem (board self) d;
      if c =? BORDER then is_eye_for self opp_color rest false_count 1
      else if c =? opp_color
           then is_eye_for self opp_color rest (false_count + 1) at_edge
           else is_eye_for self opp_color rest false_count at_edge
  end.

Definition is_eye (self : Board) (point color : Z) : res bool :=
  surrounded ← _is_surrounded self point color;
  if negb surrounded then Ret false
  else
    let opp_color := opponent color in
    '(false_count, at_edge) ←
      is_eye_for self opp_color (_diag_neighbors self point) 0 0;
    Ret (false_count <=? 1 - at_edge).

(** *** Blocks, liberties and capture *)

Fixpoint _has_liberty_for (self : Board) (stones : list Z) : res bool :=
  match stones with
  | [] => Ret false
  | stone :: rest =>
      empty_nbs ← neighbors_of_color self stone EMPTY;
      match empty_nbs with
      | _ :: _ => Ret true
      | [] => _has_liberty_for self rest
      end
  end.

Definition _has_liberty (self : Board) (block : list bool) : res bool :=
  _has_liberty_for self (where1d block).

(** The inner loop of [_block_of].  [pointstack] is kept with its top (the
    end of the Python list, where [append] and [pop] work) at the head. *)
Fixpoint _block_of_for (marker : list bool) (pointstack neighbors : list Z)
  : res (list bool * list Z) :=
  match neighbors with
  | [] => Ret (marker, pointstack)
  | nb :: rest =>
      m ← py_getitem marker nb;
      if negb m
      then marker' ← py_setitem marker nb true;
           _block_of_for marker' (nb :: pointstack) rest
      else _block_of_for marker pointstack rest
  end.

(** The [while pointstack] loop.  [popped] records, in order, the points
    taken off the stack; the source does not keep it, and nothing below
    reads it but the statement that no point is taken twice. *)
Fixpoint _block_of_while (fuel : nat) (self : Board) (color : Z)
    (marker : list bool) (pointstack popped : list Z)
  : res (list bool * list Z) :=
  match pointstack with
  | [] => Ret (marker, popped)
  | p :: pointstack' =>
      match fuel with
      | O => Diverge
      | S fuel' =>
          neighbors ← neighbors_of_color self p color;
          '(marker', pointstack'') ←
            _block_of_for marker pointstack' neighbors;
          _block_of_while fuel' self color marker' pointstack''
                          (popped ++ [p])
      end
  end.

(** [_block_of] with the record of the points popped.  Every pop follows
    the marking of a new point, so [maxpoint] rounds are enough. *)
Definition _block_of_trace (self : Board) (stone : Z)
  : res (list bool * list Z) :=
  let marker := replicate (Z.to_nat (maxpoint self)) false in
  color ← get_color self stone;
  _ ← py_assert (is_black_white color);
  marker ← py_setitem marker stone true;
  _block_of_while (Z.to_nat (maxpoint self)) self color marker [stone] [].

Definition _block_of (self : Board) (stone : Z) : res (list bool) :=
  r ← _block_of_trace self stone; Ret (fst r).

Definition _detect_and_process_capture (self : Board) (nb_point : Z)
  : res (option Z * Board) :=
  opp_block ← _block_of self nb_point;
  liberty ← _has_liberty self opp_block;
  if negb liberty then
    let captures := where1d opp_block in
    cells ← py_setitems (board self) captures EMPTY;
    Ret (if Z.of_nat (length captures) =? 1 then Some nb_point else None,
         set_board self cells)
  else Ret (None, self).

(** *** Win detection *)

(** The loop [for i in self.store[0]: self.store[colour].append(i)] of
    [checkout].  A Python [for] over a list walks it by position [k] and ends
    when [k] is past the end of the list as it is at that moment; when
    [store[colour]] is the scratch list itself the loop feeds the list it
    walks. *)
Fixpoint checkout_for (fuel : nat) (st : list (list Z)) (colour : Z)
    (k : nat) : res (list (list Z)) :=
  match fuel with
  | O => Diverge
  | S fuel' =>
      scratch ← py_getitem st 0;
      match scratch !! k with
      | None => Ret st
      | Some i =>
          l ← py_getitem st colour;
          st' ← py_setitem st colour (l ++ [i]);
          checkout_for fuel' st' colour (S k)
      end
  end.

Definition checkout (self : Board) (colour : Z) : res Board :=
  scratch ← py_getitem (store self) 0;
  st ← checkout_for (S (length scratch)) (store self) colour 0%nat;
  l ← py_getitem st colour;
  st ← py_setitem st colour (py_sort l);
  st ← py_setitem st 0 [];
  Ret (set_store self st).

(** [checkH], [checkV], [checkDR] and [checkDL] are one text up to the
    offset [delta] of the next point: [1], [NS], [NS + 1] and [NS - 1].
    [chain] counts down from 5 by one. *)
Fixpoint check_chain (delta : Z) (self : Board) (point colour : Z)
    (chain : nat) : res (bool * Board) :=
  match chain with
  | S (S _ as chain') =>
      c ← py_getitem (board self) (point + delta);
      if c =? colour then
        scratch ← py_getitem (store self) 0;
        st ← py_setitem (store self) 0 (scratch ++ [point + delta]);
        l ← py_getitem st colour;
        l ← py_remove (point + delta) l;
        st ← py_setitem st colour l;
        check_chain delta (set_store self st) (point + delta) colour chain'
      else Ret (false, self)
  | _ => Ret (true, self)
  end.

Definition checkH (self : Board) (point colour : Z) (chain : nat) :=
  check_chain 1 self point colour chain.
Definition checkV (self : Board) (point colour : Z) (chain : nat) :=
  check_chain (NS self) self point colour chain.
Definition checkDR (self : Board) (point colour : Z) (chain : nat) :=
  check_chain (NS self + 1) self point colour chain.
Definition checkDL (self : Board) (point colour : Z) (chain : nat) :=
  check_chain (NS self - 1) self point colour chain.

(** One of the four loops of [checkWin],
    [for i in self.store[colour]: win = check(i, colour, 5); if win:
     self.checkout(colour); break], from position [k] of the list.  The
    check takes points out of the very list the loop walks. *)
Fixpoint checkWin_for (fuel : nat)
    (check : Board → Z → Z → nat → res (bool * Board))
    (self : Board) (colour : Z) (k : nat) : res (bool * Board) :=
  match fuel with
  | O => Diverge
  | S fuel' =>
      l ← py_getitem (store self) colour;
      match l !! k with
      | None => Ret (false, self)
      | Some i =>
          '(win, self) ← check self i colour 5%nat;
          if win : bool then
            self ← checkout self colour;
            Ret (true, self)
          else checkWin_for fuel' check self colour (S k)
      end
  end.

(** The list only shrinks while the loop runs, so one round per stone and
    one more to find the end are enough. *)
Definition checkWin_scan (check : Board → Z → Z → nat → res (bool * Board))
    (self : Board) (colour : Z) : res (bool * Board) :=
  l ← py_getitem (store self) colour;
  checkWin_for (S (length l)) check self colour 0%nat.

Definition checkWin (self : Board) (colour : Z) : res (bool * Board) :=
  '(win, self) ← checkWin_scan checkH self colour;
  if negb win then
    self ← checkout self colour;
    '(win, self) ← checkWin_scan checkV self colour;
    if negb win then
      self ← checkout self colour;
      '(win, self) ← checkWin_scan checkDR self colour;
      if negb win then
        self ← checkout self colour;
        '(win, self) ← checkWin_scan checkDL self colour;
        if negb win then
          self ← checkout self colour;
          Ret (false, self)
        else Ret (true, self)
      else Ret (true, self)
    else Ret (true, self)
  else Ret (true, self).

(** [checkState] returns WHITE, BLACK, PASS or -1. *)
Definition checkState (self : Board) : res (option Z * Board) :=
  '(w, self) ← checkWin self WHITE;
  if w : bool then Ret (Some WHITE, self)
  else
    '(b, self) ← checkWin self BLACK;
    if b : bool then Ret (Some BLACK, self)
    else if Z.of_nat (length (get_empty_points self)) =? 0
         then Ret (PASS, self)
         else Ret (Some (-1), self).

(** *** Playing a move *)

(** The condition [self.checkWin(WHITE) or self.checkWin(BLACK) or
    self.get_empty_points().size == 0], evaluated left to right. *)
Definition play_move_over (self : Board) : res (bool * Board) :=
  '(w, self) ← checkWin self WHITE;
  if w : bool then Ret (true, self)
  else
    '(b, self) ← checkWin self BLACK;
    if b : bool then Ret (true, self)
    else Ret (Z.of_nat (length (get_empty_points self)) =? 0, self).

(** Nothing in the body of the [try] raises [ValueError], so the board the
    handler would return is never observed. *)
Definition play_move (self : Board) (point color : Z) : res (bool * Board) :=
  '(over, self) ← play_move_over self;
  if over : bool then Ret (false, self)
  else
    try_except
      (c ← py_getitem (board self) point;
       if negb (c =? EMPTY) then Ret (false, self)
       else
         cells ← py_setitem (board self) point color;
         l ← py_getitem (store self) color;
         st ← py_setitem (store self) color (l ++ [point]);
         l ← py_getitem st color;
         st ← py_setitem st color (py_sort l);
         Ret (true, set_store (set_board self cells) st))
      ValueError
      (Ret (false, self)).

(** ** Board objects *)

(** A board object holds a reference to its [store]; the list objects
    live in the heap, at the position their reference names. *)
Abbreviation BoardObj := (SimpleGoBoard nat).
Definition heap := list (list (list Z)).

(** Runs a method body on the object [self]: the body works on the list
    object that [self.store] refers to, and its updates are updates of that
    object. *)
Definition call {A} (body : Board → res (A * Board)) (self : BoardObj)
    (h : heap) : res (A * BoardObj * heap) :=
  match h !! store self with
  | None => Exc IndexError
  | Some st =>
      '(a, self') ← body (set_store self st);
      Ret (a, set_store self' (store self), <[store self := store self']> h)
  end.

(** [SimpleGoBoard(size)]: a new board whose [store] is a new list
    object. *)
Definition new_SimpleGoBoard (size : Z) (h : heap) : res (BoardObj * heap) :=
  b ← __init__ size;
  Ret (set_store b (length h), h ++ [store b]).

Definition setStore (self : BoardObj) (st : nat) : BoardObj :=
  set_store self st.

Definition copy (self : BoardObj) (h : heap) : res (BoardObj * heap) :=
  '(b, h) ← new_SimpleGoBoard (size self) h;
  _ ← py_assert (NS b =? NS self);
  _ ← py_assert (WE b =? WE self);
  let b := MkBoard (size b) (NS b) (WE b) (ko_recapture self)
                   (current_player self) (maxpoint b) (board b) (store b) in
  _ ← py_assert (maxpoint b =? maxpoint self);
  let b := set_board b (board self) in
  let b := setStore b (store self) in
  Ret (b, h).

Definition is_legal (self : BoardObj) (point color : Z) (h : heap)
  : res (bool * heap) :=
  '(board_copy, h) ← copy self h;
  '(legal, _, h) ← call (fun b => play_move b point color) board_copy h;
  Ret (legal, h).

(** ** Vocabulary of the specification *)

(** The content of the cell at the linear position [p], when there is
    one. *)
Definition color_at (b : Board) (p : Z) : option Z :=
  if 0 <=? p then board b !! Z.to_nat p else None.

Definition cell (b : Board) (p c : Z) : Prop := color_at b p = Some c.

Global Instance cell_dec (b : Board) (p c : Z) : Decision (cell b p c) :=
  decide (color_at b p = Some c).

(** [p] is [row * NS + col] for a row and a column between 1 and [size]:
    the points [_initialize_empty_points] fills. *)
Definition on_board (b : Board) (p : Z) : bool :=
  (1 <=? p / NS b) && (p / NS b <=? size b)
  && (1 <=? p mod NS b) && (p mod NS b <=? size b).

Definition cell_ok (b : Board) (p c : Z) : bool :=
  if on_board b p
  then (c =? EMPTY) || (c =? BLACK) || (c =? WHITE)
  else c =? BORDER.

Fixpoint cells_ok_from (b : Board) (p : Z) (cells : list Z) : bool :=
  match cells with
  | [] => true
  | c :: rest => cell_ok b p c && cells_ok_from b (p + 1) rest
  end.

(** The positions of the cells of a colour, recomputed from the cells. *)
Definition stones (b : Board) (colour : Z) : list Z :=
  where1d (map (fun c => c =? colour) (board b)).

(** The invariants of the data model: the dimensions, the frame of BORDER
    cells around the playable points, an empty scratch list, and colour
    lists that hold exactly the stones of their colour, ascending. *)
Definition wf_board (b : Board) : bool :=
  (2 <=? size b) && (NS b =? size b + 1)
  && (maxpoint b =? size b * size b + 3 * (size b + 1))
  && (Z.of_nat (length (board b)) =? maxpoint b)
  && cells_ok_from b 0 (board b)
  && bool_decide (store b = [[]; stones b BLACK; stones b WHITE]).

(** [n] cells of colour [c] in a row from [p] in steps of [delta]. *)
Definition run (b : Board) (c delta p n : Z) : Prop :=
  ∀ k, 0 ≤ k < n → cell b (p + k * delta) c.

(** A run that cannot be extended at either end. *)
Definition maximal_run (b : Board) (c delta p n : Z) : Prop :=
  run b c delta p n ∧ ¬ cell b (p - delta) c ∧ ¬ cell b (p + n * delta) c.

(** The four scan directions: right, down, down-right, down-left. *)
Definition directions (b : Board) : list Z :=
  [1; NS b; NS b + 1; NS b - 1].

Definition five_in_a_row (b : Board) (c : Z) : Prop :=
  ∃ delta p, delta ∈ directions b ∧ run b c delta p 5.

(** [p] carries a mark in a marker array. *)
Definition marked (marker : list bool) (p : Z) : Prop :=
  0 ≤ p ∧ marker !! Z.to_nat p = Some true.

Global Instance marked_dec (marker : list bool) (p : Z)
  : Decision (marked marker p) :=
  decide (0 ≤ p ∧ marker !! Z.to_nat p = Some true).

(** [q] is reached from [seed] over cells of colour [c] along the
    neighbours that the flood fill takes, [_neighbors]. *)
Inductive connected (b : Board) (c seed : Z) : Z → Prop :=
  | connected_seed : cell b seed c → connected b c seed seed
  | connected_step q n :
      connected b c seed q → n ∈ _neighbors b q → cell b n c →
      connected b c seed n.

(** The game is decided: [checkWin] holds for one of the colours. *)
Definition decided (b : Board) : Prop :=
  (∃ b', checkWin b WHITE = Ret (true, b'))
  ∨ (∃ b', checkWin b BLACK = Ret (true, b')).

(** What [wf_board] says, as propositions. *)
Record WF (b : Board) : Prop := {
  wf_size : 2 ≤ size b;
  wf_NS : NS b = size b + 1;
  wf_maxpoint : maxpoint b = size b * size b + 3 * (size b + 1);
  wf_length : Z.of_nat (length (board b)) = maxpoint b;
  wf_cells : ∀ p c, cell b p c → cell_ok b p c = true;
  wf_store : store b = [[]; stones b BLACK; stones b WHITE]
}.


(** The three lists of [store] seen from a stone colour: the scratch list
    [Sc], the list [L] of the colour, and the list [O] of the other one. *)
Definition store_is (st : list (list Z)) (colour : Z) (Sc L O : list Z)
  : Prop :=
  (colour = BLACK ∧ st = [Sc; L; O]) ∨ (colour = WHITE ∧ st = [Sc; O; L]).

(** The state of one loop of [checkWin] over the list [L0] of a colour,
    before the round at position [k]: what is left of the list is [L], what
    was moved to the scratch list is [Sc], and every scratch point follows,
    at distance [delta], a scratch point or a point the loop is done with. *)
Record scan_inv (L0 : list Z) (delta : Z) (k : nat) (L Sc : list Z)
  : Prop := {
  si_sorted : StronglySorted Z.lt L;
  si_perm : L ++ Sc ≡ₚ L0;
  si_pred : ∀ s, s ∈ Sc → s - delta ∈ Sc ∨ s - delta ∈ take k L
}.

(** The state inside a chain that started at the candidate [i = L[k]] and
    has reached [point]: no scratch point follows [point] yet. *)
Record chain_inv (L0 : list Z) (delta : Z) (k : nat) (L Sc : list Z)
    (i point : Z) : Prop := {
  ci_scan : scan_inv L0 delta (S k) L Sc;
  ci_cand : L !! k = Some i;
  ci_le : i ≤ point;
  ci_point : point = i ∨ point ∈ Sc;
  ci_front : ∀ s, s ∈ Sc → s - delta ≠ point
}.

(** The board with a stone of colour [c] on the point [p] and the colour
    lists that go with its cells. *)
Definition place (b : Board) (p c : Z) : Board :=
  let b1 := set_board b (<[Z.to_nat p := c]> (board b)) in
  set_store b1 [[]; stones b1 BLACK; stones b1 WHITE].

(** The number of positions without a mark. *)
Definition unmarked (marker : list bool) : nat :=
  length (filter (λ m, m = false) marker).

(** The state of the [while] loop of [_block_of]: marks are put on points
    reached from [seed] only, every marked point waits on the stack or has
    been popped, never both nor twice, and the neighbours of the popped
    points are marked. *)
Record block_inv (b : Board) (color seed : Z) (marker : list bool)
    (pointstack popped : list Z) : Prop := {
  bi_length : length marker = length (board b);
  bi_connected : ∀ q, marked marker q → connected b color seed q;
  bi_marked : ∀ q, marked marker q ↔ q ∈ pointstack ∨ q ∈ popped;
  bi_nodup : NoDup (pointstack ++ popped);
  bi_closed :
    ∀ q n, q ∈ popped → n ∈ _neighbors b q → cell b n color →
           marked marker n
}.

(** The playable points of a row, and of a board of the given size, row by
    row. *)
Definition row_slice (size row : Z) : list Z :=
  seqZ (row * (size + 1) + 1) size.

Definition interior_points (size : Z) : list Z :=
  seqZ 1 size ≫= row_slice size.

(** The number of cells of colour [c] among the points [ps]. *)
Definition count_color (b : Board) (c : Z) (ps : list Z) : Z :=
  Z.of_nat (length (filter (λ p, cell b p c) ps)).

(** A point reached from [seed] has an EMPTY cell among the neighbours
    that [_has_liberty] looks at, [_neighbors]. *)
Definition has_liberty (b : Board) (c seed : Z) : Prop :=
  ∃ q n, connected b c seed q ∧ n ∈ _neighbors b q ∧ cell b n EMPTY.

(** The three lists of a board, by name. *)
Definition scratch_list (b : Board) : option (list Z) := store b !! 0%nat.
Definition black_list (b : Board) : option (list Z) := store b !! 1%nat.
Definition white_list (b : Board) : option (list Z) := store b !! 2%nat.

(** ** Boards to try the statements on *)

(** Size 5: black has the five points of the first row, white four of the
    second. *)
Definition board_black_row : Board :=
  MkBoard 5 6 1 None BLACK 43
    [3; 3; 3; 3; 3; 3; 3;
     1; 1; 1; 1; 1; 3;
     2; 2; 2; 2; 0; 3;
     0; 0; 0; 0; 0; 3;
     0; 0; 0; 0; 0; 3;
     0; 0; 0; 0; 0; 3;
     3; 3; 3; 3; 3; 3]
    [[]; [7; 8; 9; 10; 11]; [13; 14; 15; 16]].

(** Size 5, the game still open: an L of three black stones, two white. *)
Definition board_open : Board :=
  MkBoard 5 6 1 None BLACK 43
    [3; 3; 3; 3; 3; 3; 3;
     1; 1; 0; 0; 0; 3;
     1; 2; 0; 0; 0; 3;
     0; 0; 2; 0; 0; 3;
     0; 0; 0; 0; 0; 3;
     0; 0; 0; 0; 0; 3;
     3; 3; 3; 3; 3; 3]
    [[]; [7; 8; 13]; [14; 21]].

(** Size 2: two black stones shut in by two white ones. *)
Definition board_two_captured : Board :=
  MkBoard 2 3 1 None BLACK 13
    [3; 3; 3; 3; 1; 1; 3; 2; 2; 3; 3; 3; 3]
    [[]; [4; 5]; [7; 8]].

(** Size 2: one black stone in the corner, shut in by two white ones. *)
Definition board_one_captured : Board :=
  MkBoard 2 3 1 None BLACK 13
    [3; 3; 3; 3; 1; 2; 3; 2; 0; 3; 3; 3; 3]
    [[]; [4]; [5; 7]].

(** Size 2: one black stone with an empty point beside it. *)
Definition board_one_free : Board :=
  MkBoard 2 3 1 None BLACK 13
    [3; 3; 3; 3; 1; 0; 3; 2; 0; 3; 3; 3; 3]
    [[]; [4]; [7]].

(** The points whose cell differs between two boards. *)
Definition changed_points (b b' : Board) : list Z :=
  where1d (zip_with (λ c c', negb (c =? c')) (board b) (board b')).

(** After a scan the board is as before it: the cells are untouched, the
    scratch list is empty, and the two colour lists hold what they held,
    ascending. *)
Definition restored (b b' : Board) : Prop :=
  board b' = board b
  ∧ scratch_list b' = Some []
  ∧ ∃ blacks whites,
      black_list b = Some blacks ∧ black_list b' = Some blacks
      ∧ white_list b = Some whites ∧ white_list b' = Some whites
      ∧ StronglySorted Z.lt blacks ∧ StronglySorted Z.lt whites.

(** The content of the list object a board object refers to. *)
Definition store_of (h : heap) (self : BoardObj) : option (list (list Z)) :=
  h !! store self.

(** ** Further vocabulary *)

(** The row and the column of a linear position. *)
Definition row_of (b : Board) (p : Z) : Z := p / NS b.
Definition col_of (b : Board) (p : Z) : Z := p mod NS b.

(** The steps in rows and in columns of a scan direction. *)
Definition row_step (b : Board) (delta : Z) : Z :=
  if delta =? 1 then 0 else 1.
Definition col_step (b : Board) (delta : Z) : Z :=
  if delta =? 1 then 1
  else if delta =? NS b then 0
  else if delta =? NS b + 1 then 1
  else -1.

(** A board object whose list object is in the heap, whose attributes and
    lists satisfy the invariants of the data model, and which [copy] can
    rebuild: [WE] is the 1 that [reset] sets and the size passes the
    assertion of the constructor. *)
Definition wf_object (h : heap) (self : BoardObj) : bool :=
  match h !! store self with
  | Some st =>
      wf_board (set_store self st) && (WE self =? 1)
      && (size self <=? MAXSIZE)
  | None => false
  end.

(** ** More boards to try the statements on *)

(** Size 2: two white stones around the empty corner 8. *)
Definition board_white_eye : Board :=
  MkBoard 2 3 1 None BLACK 13
    [3; 3; 3; 3; 0; 2; 3; 2; 0; 3; 3; 3; 3]
    [[]; []; [5; 7]].

(** [board_open] in the middle of a scan for black: two of its stones are
    on the scratch list. *)
Definition board_scanning : Board :=
  set_store board_open [[13; 8]; [7]; [14; 21]].

(** [board_open] as an object, with its lists at position 0 of the heap. *)
Definition object_open : BoardObj := set_store board_open 0%nat.
Definition heap_open : heap := [store board_open].

(** The marks of the block of the two black stones of
    [board_two_captured]. *)
Definition marker_two : list bool :=
  [false; false; false; false; true; true; false;
   false; false; false; false; false; false].

(** A game: the moves are played one after the other, accepted or not. *)
Fixpoint play_moves (b : Board) (moves : list (Z * Z)) : res Board :=
  match moves with
  | [] => Ret b
  | (p, c) :: rest => '(_, b') ← play_move b p c; play_moves b' rest
  end.

(** A move within the array, of a stone colour. *)
Definition valid_move (b : Board) (move : Z * Z) : bool :=
  (0 <=? move.1) && (move.1 <? maxpoint b) && is_black_white move.2.

(** ** The grid of the specification *)

(** The invariants of the data model that concern the grid alone: the
    dimensions and the frame of BORDER cells around the playable points,
    whatever the three lists hold. *)
Definition wf_grid (b : Board) : bool :=
  (2 <=? size b) && (NS b =? size b + 1)
  && (maxpoint b =? size b * size b + 3 * (size b + 1))
  && (Z.of_nat (length (board b)) =? maxpoint b)
  && cells_ok_from b 0 (board b).

(** The board with the colour lists that go with its cells. *)
Definition with_lists (b : Board) : Board :=
  set_store b [[]; stones b BLACK; stones b WHITE].

(** Modelled from the spec: the steps in rows and in columns from a point
    of the grid to its four orthogonal and to its four diagonal
    neighbours. *)
Definition orthogonal_steps : list (Z * Z) :=
  [(0, -1); (0, 1); (-1, 0); (1, 0)].
Definition diagonal_steps : list (Z * Z) :=
  [(-1, -1); (-1, 1); (1, -1); (1, 1)].

(** Modelled from the spec: [q] is an orthogonal neighbour of [p], one
    column to the left or to the right in the row of [p], or one row up or
    down in its column. *)
Definition orthogonal (b : Board) (p q : Z) : Prop :=
  ∃ d, d ∈ orthogonal_steps
       ∧ row_of b q = row_of b p + d.1 ∧ col_of b q = col_of b p + d.2.

(** Modelled from the spec: [q] is reached from [seed] by orthogonal steps
    through cells of colour [c]. *)
Inductive reachable (b : Board) (c seed : Z) : Z → Prop :=
  | reachable_seed : cell b seed c → reachable b c seed seed
  | reachable_step q n :
      reachable b c seed q → orthogonal b q n → cell b n c →
      reachable b c seed n.

(** Modelled from the spec: the group of [seed] has a liberty, an EMPTY
    cell that is an orthogonal neighbour of one of its stones. *)
Definition liberty (b : Board) (c seed : Z) : Prop :=
  ∃ q n, reachable b c seed q ∧ orthogonal b q n ∧ cell b n EMPTY.

(** Modelled from the spec: the colour at a row and a column.  On the
    [size] by [size] grid it is the content of the cell of that point;
    around the grid is the frame, which is BORDER. *)
Definition grid_color (b : Board) (row col : Z) : option Z :=
  if (1 <=? row) && (row <=? size b) && (1 <=? col) && (col <=? size b)
  then color_at b (row * NS b + col)
  else Some BORDER.

(** The colours of the neighbours of [p] at the given steps. *)
Definition neighbor_colors (b : Board) (steps : list (Z * Z)) (p : Z)
  : list (option Z) :=
  map (λ d, grid_color b (row_of b p + d.1) (col_of b p + d.2)) steps.

(** The number of neighbours of colour [c] among them. *)
Definition count_neighbors (c : Z) (colors : list (option Z)) : Z :=
  Z.of_nat (length (filter (λ x, x = Some c) colors)).
(** ** The monad and the sequence primitives *)

(** Membership in a list that is written out. *)
Ltac elem_of_lit :=
  repeat first [apply list_elem_of_here | apply list_elem_of_further].

Lemma bind_Ret {A B} (m : res A) (f : A → res B) (r : B) :
  m ≫= f = Ret r → ∃ a, m = Ret a ∧ f a = Ret r.
Proof. destruct m; simpl; [eauto | discriminate | discriminate]. Qed.

Lemma bind_Ret_l {A B} (a : A) (f : A → res B) : Ret a ≫= f = f a.
Proof. reflexivity. Qed.

Lemma py_index_nonneg {A} (l : list A) (i : Z) :
  0 ≤ i < Z.of_nat (length l) → py_index l i = Ret (Z.to_nat i).
Proof.
  intros Hi. unfold py_index.
  destruct (Z.leb_spec 0 i), (Z.ltb_spec i (Z.of_nat (length l))); simpl;
    first [reflexivity | lia].
Qed.

Lemma py_getitem_lookup {A} (l : list A) (i : Z) (x : A) :
  0 ≤ i → l !! Z.to_nat i = Some x → py_getitem l i = Ret x.
Proof.
  intros Hi Hx. unfold py_getitem.
  rewrite py_index_nonneg.
  - simpl. by rewrite Hx.
  - apply lookup_lt_Some in Hx. lia.
Qed.

Lemma py_getitem_nonneg {A} (l : list A) (i : Z) (x : A) :
  0 ≤ i → py_getitem l i = Ret x → l !! Z.to_nat i = Some x.
Proof.
  intros Hi. unfold py_getitem, py_index.
  destruct (Z.leb_spec 0 i); [| lia].
  destruct (Z.ltb_spec i (Z.of_nat (length l))); simpl.
  - destruct (l !! Z.to_nat i); [congruence | discriminate].
  - destruct (Z.leb_spec (- Z.of_nat (length l)) i),
      (Z.ltb_spec i 0); simpl; first [lia | discriminate].
Qed.

Lemma py_setitem_nonneg {A} (l : list A) (i : Z) (x : A) :
  0 ≤ i < Z.of_nat (length l) →
  py_setitem l i x = Ret (<[Z.to_nat i := x]> l).
Proof. intros Hi. unfold py_setitem. by rewrite py_index_nonneg. Qed.

Lemma color_at_Some (b : Board) (p c : Z) :
  color_at b p = Some c ↔ 0 ≤ p ∧ board b !! Z.to_nat p = Some c.
Proof.
  unfold color_at. destruct (Z.leb_spec 0 p); split.
  - auto.
  - tauto.
  - discriminate.
  - lia.
Qed.

Lemma color_at_lt (b : Board) (p c : Z) :
  color_at b p = Some c → 0 ≤ p < Z.of_nat (length (board b)).
Proof.
  rewrite color_at_Some. intros [Hp Hc].
  apply lookup_lt_Some in Hc. lia.
Qed.

Lemma color_at_is_Some (b : Board) (p : Z) :
  0 ≤ p < Z.of_nat (length (board b)) → is_Some (color_at b p).
Proof.
  intros Hp. unfold color_at. destruct (Z.leb_spec 0 p); [| lia].
  apply lookup_lt_is_Some. lia.
Qed.

Lemma get_color_at (b : Board) (p c : Z) :
  color_at b p = Some c → get_color b p = Ret c.
Proof.
  rewrite color_at_Some. intros [Hp Hc]. by apply py_getitem_lookup.
Qed.

(** ** Masks and the positions they select *)

Lemma elem_of_where1d_from (i : Z) (mask : list bool) (x : Z) :
  x ∈ where1d_from i mask ↔ i ≤ x ∧ mask !! Z.to_nat (x - i) = Some true.
Proof.
  revert i. induction mask as [| m rest IH]; intros i; simpl.
  - split; [by intros ?%elem_of_nil | by intros [_ ?]].
  - assert (Hshift : ∀ y, i + 1 ≤ y →
              Z.to_nat (y - i) = S (Z.to_nat (y - (i + 1)))) by (intros; lia).
    destruct m.
    + rewrite elem_of_cons, IH. split.
      * intros [-> | [Hle Hx]].
        -- split; [lia |]. by rewrite Z.sub_diag.
        -- split; [lia |]. by rewrite Hshift.
      * intros [Hle Hx]. destruct (decide (x = i)) as [-> | Hne]; [by left |].
        right. split; [lia |]. rewrite Hshift in Hx by lia. exact Hx.
    + rewrite IH. split.
      * intros [Hle Hx]. split; [lia |]. by rewrite Hshift.
      * intros [Hle Hx]. destruct (decide (x = i)) as [-> | Hne].
        -- replace (i - i) with 0 in Hx by lia. discriminate.
        -- split; [lia |]. rewrite Hshift in Hx by lia. exact Hx.
Qed.

Lemma where1d_from_sorted (i : Z) (mask : list bool) :
  StronglySorted Z.lt (where1d_from i mask).
Proof.
  revert i. induction mask as [| m rest IH]; intros i; simpl.
  - constructor.
  - destruct m; [| apply IH]. constructor; [apply IH |].
    apply Forall_forall. intros x [Hx _]%elem_of_where1d_from. lia.
Qed.

Lemma elem_of_where1d (mask : list bool) (x : Z) :
  x ∈ where1d mask ↔ marked mask x.
Proof.
  unfold where1d, marked. rewrite elem_of_where1d_from.
  by replace (x - 0) with x by lia.
Qed.

Lemma lt_sorted_NoDup (l : list Z) : StronglySorted Z.lt l → NoDup l.
Proof.
  induction 1 as [| x l Hl IH Hx]; constructor; [| exact IH].
  intros Hin. rewrite Forall_forall in Hx. specialize (Hx x Hin). lia.
Qed.

Lemma lt_sorted_le_sorted (l : list Z) :
  StronglySorted Z.lt l → Sorted Z.le l.
Proof.
  intros Hl. apply StronglySorted_Sorted.
  induction Hl as [| x l Hl IH Hx]; constructor; [exact IH |].
  eapply Forall_impl; [exact Hx |]. simpl. intros; lia.
Qed.

(** Two ascending duplicate-free lists with the same elements are the same
    list. *)
Lemma lt_sorted_ext (l1 l2 : list Z) :
  StronglySorted Z.lt l1 → StronglySorted Z.lt l2 →
  (∀ x, x ∈ l1 ↔ x ∈ l2) → l1 = l2.
Proof.
  intros H1 H2 Hext.
  apply (Sorted_unique Z.le); [by apply lt_sorted_le_sorted .. |].
  apply NoDup_Permutation; [by apply lt_sorted_NoDup .. | exact Hext].
Qed.

(** Sorting a permutation of an ascending list gives that list back. *)
Lemma py_sort_perm (l l0 : list Z) :
  l ≡ₚ l0 → StronglySorted Z.lt l0 → py_sort l = l0.
Proof.
  intros Hperm Hl0. unfold py_sort.
  apply (Sorted_unique Z.le).
  - apply Sorted_merge_sort. apply _.
  - by apply lt_sorted_le_sorted.
  - by rewrite merge_sort_Permutation.
Qed.

Lemma elem_of_stones (b : Board) (c p : Z) : p ∈ stones b c ↔ cell b p c.
Proof.
  unfold stones, cell. rewrite elem_of_where1d, color_at_Some.
  unfold marked. rewrite list_lookup_fmap. split.
  - intros [Hp Hx]. split; [exact Hp |].
    destruct (board b !! Z.to_nat p) as [x |]; simpl in *; [| discriminate].
    f_equal. apply Z.eqb_eq. congruence.
  - intros [Hp ->]. split; [exact Hp |]. simpl. by rewrite Z.eqb_refl.
Qed.

Lemma stones_sorted (b : Board) (c : Z) : StronglySorted Z.lt (stones b c).
Proof. apply where1d_from_sorted. Qed.

(** ** Well-formed boards *)

Lemma cells_ok_from_lookup (b : Board) (i : Z) (cells : list Z) :
  cells_ok_from b i cells = true ↔
  ∀ k c, cells !! k = Some c → cell_ok b (i + Z.of_nat k) c = true.
Proof.
  revert i. induction cells as [| c0 rest IH]; intros i; simpl.
  - split; [intros _ k c Hk; discriminate | reflexivity].
  - rewrite andb_true_iff, IH. split.
    + intros [H0 Hrest] [| k] c Hk; simpl in Hk.
      * injection Hk as <-. by replace (i + Z.of_nat 0) with i by lia.
      * replace (i + Z.of_nat (S k)) with (i + 1 + Z.of_nat k) by lia.
        by apply Hrest.
    + intros H. split.
      * specialize (H 0%nat c0 eq_refl).
        by replace (i + Z.of_nat 0) with i in H by lia.
      * intros k c Hk. specialize (H (S k) c Hk).
        by replace (i + Z.of_nat (S k)) with (i + 1 + Z.of_nat k) in H by lia.
Qed.

Lemma wf_board_WF (b : Board) : wf_board b = true ↔ WF b.
Proof.
  unfold wf_board. rewrite !andb_true_iff, bool_decide_eq_true.
  rewrite Z.leb_le, !Z.eqb_eq, cells_ok_from_lookup. split.
  - intros [[[[[H1 H2] H3] H4] H5] H6]. split; try assumption.
    intros p c [Hp Hc]%color_at_Some. specialize (H5 _ _ Hc).
    by replace (0 + Z.of_nat (Z.to_nat p)) with p in H5 by lia.
  - intros [H1 H2 H3 H4 H5 H6]. repeat split; try assumption.
    intros k c Hk. apply H5. apply color_at_Some. split; [lia |].
    by replace (Z.to_nat (0 + Z.of_nat k)) with k by lia.
Qed.

Lemma on_board_bounds (b : Board) (p : Z) :
  0 < NS b → on_board b p = true →
  NS b + 1 ≤ p ≤ size b * NS b + size b.
Proof.
  intros HNS. unfold on_board. rewrite !andb_true_iff, !Z.leb_le.
  intros [[[Hr1 Hr2] Hc1] Hc2].
  pose proof (Z.div_mod p (NS b) ltac:(lia)) as Hdm. nia.
Qed.

Lemma wf_stone_on_board (b : Board) (p c : Z) :
  WF b → cell b p c → is_black_white c = true → on_board b p = true.
Proof.
  intros Hwf Hc Hbw. pose proof (wf_cells b Hwf p c Hc) as Hok.
  unfold cell_ok in Hok. destruct (on_board b p); [reflexivity |].
  unfold is_black_white, BLACK, WHITE in Hbw. unfold BORDER in Hok.
  apply Z.eqb_eq in Hok. subst c. discriminate.
Qed.

Lemma wf_empty_on_board (b : Board) (p : Z) :
  WF b → cell b p EMPTY → on_board b p = true.
Proof.
  intros Hwf Hc. pose proof (wf_cells b Hwf p _ Hc) as Hok.
  unfold cell_ok in Hok. destruct (on_board b p); [reflexivity |].
  discriminate.
Qed.

(** Around a playable point the eight neighbouring positions are cells of
    the array. *)
Lemma wf_on_board_room (b : Board) (p : Z) :
  WF b → on_board b p = true →
  0 ≤ p - NS b - 1 ∧ p + NS b + 1 < Z.of_nat (length (board b)).
Proof.
  intros Hwf Hp. destruct Hwf as [H1 H2 H3 H4 _ _].
  apply on_board_bounds in Hp; [| lia]. rewrite H4, H3. nia.
Qed.

Lemma wf_stone_room (b : Board) (p c : Z) :
  WF b → cell b p c → is_black_white c = true →
  0 ≤ p - NS b - 1 ∧ p + NS b + 1 < Z.of_nat (length (board b)).
Proof. eauto using wf_on_board_room, wf_stone_on_board. Qed.

Lemma is_black_white_cases (c : Z) :
  is_black_white c = true ↔ c = BLACK ∨ c = WHITE.
Proof.
  unfold is_black_white. rewrite orb_true_iff, !Z.eqb_eq. tauto.
Qed.

(** ** The three lists of [store] *)

Lemma store_is_unique (st st' : list (list Z)) (c : Z) (Sc L O : list Z) :
  store_is st c Sc L O → store_is st' c Sc L O → st = st'.
Proof.
  unfold store_is, BLACK, WHITE.
  intros [[-> ->] | [-> ->]] [[? ->] | [? ->]];
    first [reflexivity | exfalso; lia].
Qed.

Lemma store_get_scratch (st : list (list Z)) (c : Z) (Sc L O : list Z) :
  store_is st c Sc L O → py_getitem st 0 = Ret Sc.
Proof. by intros [[-> ->] | [-> ->]]. Qed.

Lemma store_get_colour (st : list (list Z)) (c : Z) (Sc L O : list Z) :
  store_is st c Sc L O → py_getitem st c = Ret L.
Proof. by intros [[-> ->] | [-> ->]]. Qed.

Lemma store_set_scratch (st : list (list Z)) (c : Z) (Sc L O Sc' : list Z) :
  store_is st c Sc L O →
  ∃ st', py_setitem st 0 Sc' = Ret st' ∧ store_is st' c Sc' L O.
Proof.
  intros [[-> ->] | [-> ->]]; eexists; (split; [reflexivity |]);
    [left | right]; done.
Qed.

Lemma store_set_colour (st : list (list Z)) (c : Z) (Sc L O L' : list Z) :
  store_is st c Sc L O →
  ∃ st', py_setitem st c L' = Ret st' ∧ store_is st' c Sc L' O.
Proof.
  intros [[-> ->] | [-> ->]]; eexists; (split; [reflexivity |]);
    [left | right]; done.
Qed.

Lemma set_store_id (b : Board) : set_store b (store b) = b.
Proof. by destruct b. Qed.

Lemma py_remove_elem (x : Z) (l : list Z) :
  x ∈ l →
  ∃ l1 l2, l = l1 ++ x :: l2 ∧ (x ∉ l1) ∧ py_remove x l = Ret (l1 ++ l2).
Proof.
  induction l as [| y r IH]; [by intros ?%elem_of_nil |].
  intros Hin. simpl. destruct (Z.eqb_spec x y) as [-> | Hne].
  - exists [], r. split_and!; [done | apply not_elem_of_nil | done].
  - apply elem_of_cons in Hin as [? | Hin]; [done |].
    destruct (IH Hin) as (l1 & l2 & -> & Hl1 & ->).
    exists (y :: l1), l2. split_and!; [done | | done].
    rewrite elem_of_cons. tauto.
Qed.

(** ** One loop of [checkWin] *)

Lemma scan_inv_NoDup (L0 : list Z) (delta : Z) (k : nat) (L Sc : list Z) :
  StronglySorted Z.lt L0 → scan_inv L0 delta k L Sc → NoDup (L ++ Sc).
Proof.
  intros HL0 [_ Hperm _]. rewrite Hperm. by apply lt_sorted_NoDup.
Qed.

(** A chain that starts at the candidate at position [k]. *)
Lemma chain_inv_start (L0 : list Z) (delta : Z) (k : nat) (L Sc : list Z)
    (i : Z) :
  StronglySorted Z.lt L0 → scan_inv L0 delta k L Sc → L !! k = Some i →
  chain_inv L0 delta k L Sc i i.
Proof.
  intros HL0 Hinv Hi. pose proof (scan_inv_NoDup _ _ _ _ _ HL0 Hinv) as Hnd.
  destruct Hinv as [Hsorted Hperm Hpred].
  apply NoDup_app in Hnd as (HndL & Hdisj & _).
  split; [split | | | |].
  - done.
  - done.
  - intros s Hs. destruct (Hpred s Hs) as [? | Hin]; [by left | right].
    apply elem_of_take in Hin as (j & Hj & Hlt).
    apply elem_of_take. exists j. split; [done | lia].
  - done.
  - lia.
  - by left.
  - intros s Hs Heq. destruct (Hpred s Hs) as [Hin | Hin].
    + apply (Hdisj i); [by eapply list_elem_of_lookup_2 | by rewrite <- Heq].
    + apply elem_of_take in Hin as (j & Hj & Hlt). rewrite Heq in Hj.
      pose proof (NoDup_lookup _ _ _ _ HndL Hj Hi). lia.
Qed.

(** The next point of a chain lies behind the candidate in the list. *)
Lemma chain_inv_pos (L0 : list Z) (delta : Z) (k : nat) (l1 l2 Sc : list Z)
    (i point : Z) :
  0 < delta →
  chain_inv L0 delta k (l1 ++ (point + delta) :: l2) Sc i point →
  (k < length l1)%nat.
Proof.
  intros Hdelta [[Hsorted _ _] Hcand Hle _ _].
  apply StronglySorted_app in Hsorted as (_ & _ & Hs2).
  apply StronglySorted_cons in Hs2 as [Hx2 _].
  rewrite Forall_forall in Hx2.
  destruct (decide (k < length l1)%nat) as [| Hge]; [done | exfalso].
  rewrite lookup_app_r in Hcand by lia.
  apply list_elem_of_lookup_2, elem_of_cons in Hcand as [Heq | Hin].
  - lia.
  - specialize (Hx2 _ Hin). lia.
Qed.

(** The chain moves the next point from the list to the scratch list. *)
Lemma chain_inv_step (L0 : list Z) (delta : Z) (k : nat) (l1 l2 Sc : list Z)
    (i point : Z) :
  0 < delta → StronglySorted Z.lt L0 →
  chain_inv L0 delta k (l1 ++ (point + delta) :: l2) Sc i point →
  chain_inv L0 delta k (l1 ++ l2) (Sc ++ [point + delta]) i (point + delta).
Proof.
  intros Hdelta HL0 [Hscan Hcand Hle Hpoint Hfront].
  pose proof (scan_inv_NoDup _ _ _ _ _ HL0 Hscan) as Hnd.
  destruct Hscan as [Hsorted Hperm Hpred].
  assert (Hk : (k < length l1)%nat).
  { eapply chain_inv_pos; [done |]. split; [split | | | |]; done. }
  set (x := point + delta) in *.
  apply NoDup_app in Hnd as (HndL & Hdisj & _).
  apply NoDup_app in HndL as (_ & Hl1 & _).
  apply StronglySorted_app in Hsorted as (Hlt & Hs1 & Hs2).
  apply StronglySorted_cons in Hs2 as [Hx2 Hs2].
  rewrite Forall_forall in Hx2.
  assert (Htake : take (S k) (l1 ++ l2) = take (S k) (l1 ++ x :: l2)).
  { by rewrite !take_app_le by lia. }
  split; [split | | | |].
  - apply StronglySorted_app. split_and!; [| done | done].
    intros x1 x2 Hx1 Hin2. apply Hlt; [done |]. by right.
  - rewrite <- Hperm. rewrite (Permutation_app_comm Sc [x]).
    rewrite !app_assoc. apply Permutation_app_tail.
    rewrite <- app_assoc. apply Permutation_app_head.
    symmetry. apply Permutation_cons_append.
  - intros s [Hs | ->%list_elem_of_singleton]%elem_of_app.
    + rewrite Htake. destruct (Hpred s Hs) as [? | ?]; [left | by right].
      apply elem_of_app. by left.
    + replace (x - delta) with point by (unfold x; lia).
      destruct Hpoint as [-> | Hin].
      * right. apply elem_of_take. exists k. split; [| lia].
        rewrite lookup_app_l by lia. by rewrite lookup_app_l in Hcand by lia.
      * left. apply elem_of_app. by left.
  - rewrite lookup_app_l by lia. by rewrite lookup_app_l in Hcand by lia.
  - unfold x. lia.
  - right. apply elem_of_app. right. by apply list_elem_of_singleton.
  - intros s [Hs | ->%list_elem_of_singleton]%elem_of_app Heq; [| lia].
    destruct (Hpred s Hs) as [Hin | Hin]; rewrite Heq in Hin.
    + apply (Hdisj x); [| done]. apply elem_of_app. right. by left.
    + rewrite <- Htake, take_app_le in Hin by lia.
      apply (Hl1 x); [| by left]. apply elem_of_take in Hin as (j & Hj & _).
      by eapply list_elem_of_lookup_2.
Qed.

(** When the loop has gone through the whole list the chain of the last
    candidate is closed. *)
Lemma chain_inv_end (L0 : list Z) (delta : Z) (k : nat) (L Sc : list Z)
    (i point : Z) :
  chain_inv L0 delta k L Sc i point → scan_inv L0 delta (S k) L Sc.
Proof. by intros []. Qed.

Lemma run_nil (b : Board) (c delta p n : Z) : n ≤ 0 → run b c delta p n.
Proof. intros Hn k Hk. lia. Qed.

Lemma run_cons (b : Board) (c delta p n : Z) :
  0 ≤ n →
  run b c delta p (n + 1) ↔ cell b p c ∧ run b c delta (p + delta) n.
Proof.
  intros Hn. unfold run. split.
  - intros H. split.
    + specialize (H 0 ltac:(lia)). by replace (p + 0 * delta) with p in H by lia.
    + intros k Hk. specialize (H (k + 1) ltac:(lia)).
      by replace (p + delta + k * delta) with (p + (k + 1) * delta) by lia.
  - intros [H0 H] k Hk. destruct (decide (k = 0)) as [-> | Hne].
    + by replace (p + 0 * delta) with p by lia.
    + specialize (H (k - 1) ltac:(lia)).
      by replace (p + k * delta) with (p + delta + (k - 1) * delta) by lia.
Qed.

(** A run of five has a first stone: walking back against the direction
    ends, at the latest at the start of the array. *)
Lemma run_start (b : Board) (c delta p : Z) :
  0 < delta → run b c delta p 5 →
  ∃ x, run b c delta x 5 ∧ ¬ cell b (x - delta) c.
Proof.
  intros Hdelta. remember (Z.to_nat p) as n eqn:Hn.
  revert p Hn. induction n as [n IH] using lt_wf_ind. intros p Hn Hrun.
  destruct (decide (cell b (p - delta) c)) as [Hprev | Hprev].
  - pose proof (color_at_lt _ _ _ Hprev) as Hlt.
    apply (IH (Z.to_nat (p - delta)) ltac:(lia) (p - delta) eq_refl).
    replace 5 with (4 + 1) by lia. apply run_cons; [lia |].
    split; [done |]. replace (p - delta + delta) with p by lia.
    intros k Hk. apply Hrun. lia.
  - by exists p.
Qed.

Section scan.
Variables (b : Board) (colour delta : Z) (O L0 : list Z).
Hypothesis Hdelta : 0 < delta.
Hypothesis HL0 : StronglySorted Z.lt L0.
Hypothesis Hagree : ∀ p, cell b p colour ↔ p ∈ L0.
Hypothesis Hroom :
  ∀ p, p ∈ L0 → 0 ≤ p ∧ p + delta < Z.of_nat (length (board b)).

Lemma check_chain_spec (chain : nat) :
  ∀ k i L Sc point st,
    store_is st colour Sc L O → chain_inv L0 delta k L Sc i point →
    ∃ r L' Sc' point' st',
      check_chain delta (set_store b st) point colour chain
        = Ret (r, set_store b st')
      ∧ store_is st' colour Sc' L' O
      ∧ chain_inv L0 delta k L' Sc' i point'
      ∧ take (S k) L' = take (S k) L
      ∧ (length L' ≤ length L)%nat
      ∧ (r = true ↔ run b colour delta (point + delta) (Z.of_nat chain - 1)).
Proof.
  induction chain as [| chain IH]; intros k i L Sc point st Hst Hinv.
  { exists true, L, Sc, point, st. split_and!; try done.
    split; [intros _; apply run_nil; lia | done]. }
  destruct chain as [| n].
  { exists true, L, Sc, point, st. split_and!; try done.
    split; [intros _; apply run_nil; lia | done]. }
  assert (HpL0 : point ∈ L0).
  { destruct Hinv as [[_ Hperm _] Hcand _ [-> | Hin] _];
      rewrite <- Hperm; apply elem_of_app; [left | right]; [| done].
    by eapply list_elem_of_lookup_2. }
  destruct (Hroom _ HpL0) as [Hp0 Hplt].
  destruct (color_at_is_Some b (point + delta) ltac:(lia)) as [c Hc].
  cbn [check_chain]. change (board (set_store b st)) with (board b).
  change (store (set_store b st)) with st.
  rewrite (get_color_at _ _ _ Hc : py_getitem (board b) _ = _).
  rewrite bind_Ret_l. destruct (Z.eqb_spec c colour) as [-> | Hne].
  - assert (Hin : point + delta ∈ L).
    { apply Hagree in Hc. destruct Hinv as [[_ Hperm _] _ _ _ Hfront].
      rewrite <- Hperm in Hc. apply elem_of_app in Hc as [? | Hsc]; [done |].
      exfalso. apply (Hfront _ Hsc). lia. }
    rewrite (store_get_scratch _ _ _ _ _ Hst), bind_Ret_l.
    destruct (store_set_scratch _ _ _ _ _ (Sc ++ [point + delta]) Hst)
      as (st1 & -> & Hst1).
    rewrite bind_Ret_l, (store_get_colour _ _ _ _ _ Hst1), bind_Ret_l.
    destruct (py_remove_elem _ _ Hin) as (l1 & l2 & -> & _ & ->).
    rewrite bind_Ret_l.
    destruct (store_set_colour _ _ _ _ _ (l1 ++ l2) Hst1)
      as (st2 & -> & Hst2).
    rewrite bind_Ret_l.
    pose proof (chain_inv_pos _ _ _ _ _ _ _ _ Hdelta Hinv) as Hk.
    apply chain_inv_step in Hinv; [| done | done].
    destruct (IH _ _ _ _ _ _ Hst2 Hinv)
      as (r & L' & Sc' & point' & st' & Hrun & Hst' & Hinv' & Htake & Hlen
          & Hr).
    exists r, L', Sc', point', st'. split_and!; try done.
    { rewrite Htake. by rewrite !take_app_le by lia. }
    { etrans; [exact Hlen |]. rewrite !length_app. simpl. lia. }
    rewrite Hr. replace (Z.of_nat (S (S n)) - 1) with (Z.of_nat (S n) - 1 + 1)
      by lia.
    rewrite run_cons by lia. split; [by split | by intros [_ ?]].
  - exists false, L, Sc, point, st. split_and!; try done.
    split; [done |]. intros Hrun. exfalso. apply Hne.
    specialize (Hrun 0 ltac:(lia)).
    replace (point + delta + 0 * delta) with (point + delta) in Hrun by lia.
    unfold cell in Hrun. congruence.
Qed.

Lemma checkout_for_spec (fuel : nat) :
  ∀ k st Sc L,
    store_is st colour Sc L O → (length Sc - k < fuel)%nat →
    ∃ st', checkout_for fuel st colour k = Ret st'
           ∧ store_is st' colour Sc (L ++ drop k Sc) O.
Proof.
  induction fuel as [| fuel IH]; intros k st Sc L Hst Hfuel; [lia |].
  cbn [checkout_for]. rewrite (store_get_scratch _ _ _ _ _ Hst), bind_Ret_l.
  destruct (Sc !! k) as [i |] eqn:Hk.
  - rewrite (store_get_colour _ _ _ _ _ Hst), bind_Ret_l.
    destruct (store_set_colour _ _ _ _ _ (L ++ [i]) Hst) as (st1 & -> & Hst1).
    rewrite bind_Ret_l. apply lookup_lt_Some in Hk as Hlt.
    destruct (IH (S k) _ _ _ Hst1 ltac:(lia)) as (st' & -> & Hst').
    exists st'. split; [done |].
    by rewrite (drop_S _ _ _ Hk), cons_middle, app_assoc.
  - exists st. split; [done |].
    apply lookup_ge_None in Hk. by rewrite drop_ge, app_nil_r.
Qed.

Lemma checkout_spec (st : list (list Z)) (Sc L : list Z) :
  store_is st colour Sc L O →
  ∃ st', checkout (set_store b st) colour = Ret (set_store b st')
         ∧ store_is st' colour [] (py_sort (L ++ Sc)) O.
Proof.
  intros Hst. unfold checkout. change (store (set_store b st)) with st.
  rewrite (store_get_scratch _ _ _ _ _ Hst), bind_Ret_l.
  destruct (checkout_for_spec (S (length Sc)) 0 _ _ _ Hst ltac:(lia))
    as (st1 & -> & Hst1).
  rewrite drop_0 in Hst1.
  rewrite bind_Ret_l, (store_get_colour _ _ _ _ _ Hst1), bind_Ret_l.
  destruct (store_set_colour _ _ _ _ _ (py_sort (L ++ Sc)) Hst1)
    as (st2 & -> & Hst2).
  rewrite bind_Ret_l.
  destruct (store_set_scratch _ _ _ _ _ [] Hst2) as (st3 & -> & Hst3).
  rewrite bind_Ret_l. by exists st3.
Qed.

(** Once the loop has passed the end of what is left of the list, no run
    of five is on the board: the first stone of a run is never moved to
    the scratch list, so the loop has tried it. *)
Lemma scan_inv_complete (k : nat) (L Sc : list Z) :
  scan_inv L0 delta k L Sc →
  (∀ x, x ∈ L → ¬ run b colour delta x 5) →
  ∀ p, ¬ run b colour delta p 5.
Proof.
  intros [_ Hperm Hpred] Hdone p Hrun.
  destruct (run_start _ _ _ _ Hdelta Hrun) as (x & Hx & Hprev).
  assert (HxL0 : x ∈ L0).
  { apply Hagree. specialize (Hx 0 ltac:(lia)).
    by replace (x + 0 * delta) with x in Hx by lia. }
  rewrite <- Hperm in HxL0. apply elem_of_app in HxL0 as [HxL | HxSc].
  - by apply (Hdone x).
  - apply Hprev, Hagree. rewrite <- Hperm. apply elem_of_app.
    destruct (Hpred _ HxSc) as [? | Hin]; [by right | left].
    apply elem_of_take in Hin as (j & Hj & _).
    by eapply list_elem_of_lookup_2.
Qed.

Variable check : Board → Z → Z → nat → res (bool * Board).
Hypothesis Hcheck :
  ∀ st p c n,
    check (set_store b st) p c n = check_chain delta (set_store b st) p c n.

Lemma checkWin_for_spec (fuel : nat) :
  ∀ k L Sc st,
    store_is st colour Sc L O → scan_inv L0 delta k L Sc →
    (∀ x, x ∈ take k L → ¬ run b colour delta x 5) →
    (length L - k < fuel)%nat →
    ∃ r st',
      checkWin_for fuel check (set_store b st) colour k
        = Ret (r, set_store b st')
      ∧ (r = true ↔ ∃ p, run b colour delta p 5)
      ∧ if r then store_is st' colour [] L0 O
        else ∃ L' Sc', store_is st' colour Sc' L' O ∧ L' ++ Sc' ≡ₚ L0.
Proof.
  induction fuel as [| fuel IH]; intros k L Sc st Hst Hinv Hdone Hfuel;
    [lia |].
  cbn [checkWin_for]. change (store (set_store b st)) with st.
  rewrite (store_get_colour _ _ _ _ _ Hst), bind_Ret_l.
  destruct (L !! k) as [i |] eqn:Hk.
  - pose proof (chain_inv_start _ _ _ _ _ _ HL0 Hinv Hk) as Hchain.
    destruct (check_chain_spec 5 _ _ _ _ _ _ Hst Hchain)
      as (r & L' & Sc' & point' & st' & Hrun & Hst' & Hinv' & Htake & Hlen
          & Hr).
    rewrite Hcheck, Hrun, bind_Ret_l.
    assert (HiL0 : cell b i colour).
    { apply Hagree. destruct Hinv as [_ Hperm _]. rewrite <- Hperm.
      apply elem_of_app. left. by eapply list_elem_of_lookup_2. }
    assert (Hi5 : r = true ↔ run b colour delta i 5).
    { rewrite Hr. replace 5 with (4 + 1) by lia. rewrite run_cons by lia.
      change (Z.of_nat 5 - 1) with 4. tauto. }
    destruct r.
    + destruct (checkout_spec _ _ _ Hst') as (st'' & -> & Hst'').
      rewrite bind_Ret_l. exists true, st''. split_and!; [done | |].
      * split; [intros _ | done]. exists i. by apply Hi5.
      * rewrite (py_sort_perm _ L0) in Hst''; [done | | done].
        by destruct Hinv' as [[_ ? _] _ _ _ _].
    + apply lookup_lt_Some in Hk as Hlt.
      assert (HkL' : (k < length L')%nat).
      { destruct Hinv' as [_ Hcand _ _ _]. by apply lookup_lt_Some in Hcand. }
      apply (IH (S k) L' Sc' st' Hst' (chain_inv_end _ _ _ _ _ _ _ Hinv'));
        [| lia].
      intros x Hx. rewrite Htake in Hx.
      apply elem_of_take in Hx as (j & Hj & Hjk).
      destruct (decide (j = k)) as [-> | Hne].
      * assert (x = i) as -> by congruence. intros H5%Hi5. discriminate.
      * apply Hdone, elem_of_take. exists j. split; [done | lia].
  - exists false, st. apply lookup_ge_None in Hk.
    assert (Hnone : ∀ p, ¬ run b colour delta p 5).
    { apply (scan_inv_complete k L Sc Hinv). intros x Hx.
      apply Hdone. by rewrite take_ge. }
    split_and!; [done | |].
    + split; [done |]. intros [p Hp]. by destruct (Hnone p).
    + exists L, Sc. split; [done |]. by destruct Hinv.
Qed.

(** One loop of [checkWin] with the [checkout] that follows it: the
    answer is whether a run of five lies in the direction, and [store]
    ends as it began. *)
Lemma checkWin_scan_spec (st : list (list Z)) :
  store_is st colour [] L0 O →
  ∃ r st1,
    checkWin_scan check (set_store b st) colour = Ret (r, set_store b st1)
    ∧ (r = true ↔ ∃ p, run b colour delta p 5)
    ∧ if r then st1 = st
      else checkout (set_store b st1) colour = Ret (set_store b st).
Proof.
  intros Hst. unfold checkWin_scan. change (store (set_store b st)) with st.
  rewrite (store_get_colour _ _ _ _ _ Hst), bind_Ret_l.
  destruct (checkWin_for_spec (S (length L0)) 0 L0 [] st Hst)
    as (r & st1 & Hrun & Hr & Hpost).
  { split; [done | by rewrite app_nil_r |]. by intros s ?%elem_of_nil. }
  { by intros x ?%elem_of_nil. }
  { lia. }
  exists r, st1. split_and!; [done | done |]. destruct r.
  - by eapply store_is_unique.
  - destruct Hpost as (L' & Sc' & Hst1 & Hperm).
    destruct (checkout_spec _ _ _ Hst1) as (st2 & -> & Hst2).
    rewrite (py_sort_perm _ L0) in Hst2 by done.
    do 2 f_equal. by eapply store_is_unique.
Qed.
End scan.

(** ** [checkWin] on a well-formed board *)

Lemma wf_store_is (b : Board) (c : Z) :
  WF b → is_black_white c = true →
  store_is (store b) c [] (stones b c) (stones b (opponent c)).
Proof.
  intros Hwf [-> | ->]%is_black_white_cases; rewrite (wf_store b Hwf);
    [left | right]; done.
Qed.

Lemma wf_NS_pos (b : Board) : WF b → 3 ≤ NS b.
Proof. intros [H1 H2 _ _ _ _]. lia. Qed.

Lemma wf_direction (b : Board) (delta : Z) :
  WF b → delta ∈ directions b → 0 < delta ≤ NS b + 1.
Proof.
  intros Hwf%wf_NS_pos Hin. unfold directions in Hin.
  repeat (apply elem_of_cons in Hin as [-> | Hin]); [lia .. |].
  by apply elem_of_nil in Hin.
Qed.

Lemma wf_stones_room (b : Board) (c delta p : Z) :
  WF b → is_black_white c = true → 0 < delta ≤ NS b + 1 →
  p ∈ stones b c → 0 ≤ p ∧ p + delta < Z.of_nat (length (board b)).
Proof.
  intros Hwf Hc Hdelta Hp%elem_of_stones.
  pose proof (wf_stone_room _ _ _ Hwf Hp Hc). pose proof (wf_NS_pos _ Hwf).
  lia.
Qed.

(** The answer of [checkWin], and the board it leaves. *)
Lemma checkWin_correct (b : Board) (c : Z) :
  WF b → is_black_white c = true →
  ∃ r, checkWin b c = Ret (r, b) ∧ (r = true ↔ five_in_a_row b c).
Proof.
  intros Hwf Hc. pose proof (wf_store_is _ _ Hwf Hc) as Hst.
  pose proof (wf_NS_pos _ Hwf) as HNS.
  assert (Hscan : ∀ delta check,
    0 < delta ≤ NS b + 1 →
    (∀ st p c n, check (set_store b st) p c n
                 = check_chain delta (set_store b st) p c n) →
    ∃ r st1,
      checkWin_scan check b c = Ret (r, set_store b st1)
      ∧ (r = true ↔ ∃ p, run b c delta p 5)
      ∧ if r then set_store b st1 = b
        else checkout (set_store b st1) c = Ret b).
  { intros delta check Hdelta Hcheck.
    destruct (checkWin_scan_spec b c delta (stones b (opponent c))
                (stones b c) ltac:(lia) (stones_sorted b c)
                (λ p, iff_sym (elem_of_stones b c p))
                (λ p, wf_stones_room b c delta p Hwf Hc Hdelta)
                check Hcheck (store b) Hst)
      as (r & st1 & Hrun & Hr & Hpost).
    rewrite !set_store_id in *. exists r, st1. split_and!; [done | done |].
    destruct r; [| done]. subst st1. apply set_store_id. }
  destruct (Hscan 1 checkH ltac:(lia) ltac:(done))
    as (r1 & st1 & Hrun1 & Hr1 & Hpost1).
  destruct (Hscan (NS b) checkV ltac:(lia) ltac:(done))
    as (r2 & st2 & Hrun2 & Hr2 & Hpost2).
  destruct (Hscan (NS b + 1) checkDR ltac:(lia) ltac:(done))
    as (r3 & st3 & Hrun3 & Hr3 & Hpost3).
  destruct (Hscan (NS b - 1) checkDL ltac:(lia) ltac:(done))
    as (r4 & st4 & Hrun4 & Hr4 & Hpost4).
  assert (Hfive : five_in_a_row b c ↔
            r1 = true ∨ r2 = true ∨ r3 = true ∨ r4 = true).
  { rewrite Hr1, Hr2, Hr3, Hr4. unfold five_in_a_row, directions. split.
    - intros (delta & p & Hin & Hp).
      repeat (apply elem_of_cons in Hin as [-> | Hin]); eauto 6.
      by apply elem_of_nil in Hin.
    - intros [[p Hp] | [[p Hp] | [[p Hp] | [p Hp]]]];
        eexists _, p; (split; [| exact Hp]); elem_of_lit. }
  unfold checkWin. rewrite Hrun1, bind_Ret_l. cbn beta iota.
  destruct r1; cbn [negb].
  { rewrite Hpost1. exists true. rewrite Hfive. tauto. }
  rewrite Hpost1, bind_Ret_l, Hrun2, bind_Ret_l. cbn beta iota.
  destruct r2; cbn [negb].
  { rewrite Hpost2. exists true. rewrite Hfive. tauto. }
  rewrite Hpost2, bind_Ret_l, Hrun3, bind_Ret_l. cbn beta iota.
  destruct r3; cbn [negb].
  { rewrite Hpost3. exists true. rewrite Hfive. tauto. }
  rewrite Hpost3, bind_Ret_l, Hrun4, bind_Ret_l. cbn beta iota.
  destruct r4; cbn [negb].
  { rewrite Hpost4. exists true. rewrite Hfive. tauto. }
  rewrite Hpost4, bind_Ret_l. exists false. split; [done |].
  rewrite Hfive. intuition discriminate.
Qed.

(** ** Playing a move *)

Lemma five_in_a_row_dec (b : Board) (c : Z) :
  WF b → is_black_white c = true →
  five_in_a_row b c ∨ ¬ five_in_a_row b c.
Proof.
  intros Hwf Hc. destruct (checkWin_correct b c Hwf Hc) as ([] & _ & Hr).
  - left. by apply Hr.
  - right. intros H%Hr. discriminate.
Qed.

Lemma decided_five (b : Board) :
  WF b → decided b ↔ five_in_a_row b WHITE ∨ five_in_a_row b BLACK.
Proof.
  intros Hwf. unfold decided.
  destruct (checkWin_correct b WHITE Hwf eq_refl) as (rw & Hw & Hrw).
  destruct (checkWin_correct b BLACK Hwf eq_refl) as (rb & Hb & Hrb).
  rewrite Hw, Hb. rewrite <- Hrw. rewrite <- Hrb. split.
  - intros [[b' H] | [b' H]]; [left | right]; congruence.
  - intros [-> | ->]; [left | right]; by exists b.
Qed.

Lemma play_move_over_spec (b : Board) :
  WF b →
  ∃ over, play_move_over b = Ret (over, b)
          ∧ (over = true ↔ decided b ∨ get_empty_points b = []).
Proof.
  intros Hwf. pose proof (decided_five b Hwf) as Hdec.
  unfold play_move_over.
  destruct (checkWin_correct b WHITE Hwf eq_refl) as (rw & -> & Hrw).
  rewrite bind_Ret_l. cbn beta iota. destruct rw.
  { exists true. split; [done |]. rewrite Hdec. tauto. }
  destruct (checkWin_correct b BLACK Hwf eq_refl) as (rb & -> & Hrb).
  rewrite bind_Ret_l. cbn beta iota. destruct rb.
  { exists true. split; [done |]. rewrite Hdec. tauto. }
  eexists. split; [done |]. rewrite Hdec, Z.eqb_eq.
  assert (Hlen : Z.of_nat (length (get_empty_points b)) = 0
                 ↔ get_empty_points b = []).
  { destruct (get_empty_points b); simpl; split; (done || lia). }
  rewrite Hlen. intuition discriminate.
Qed.

Lemma try_except_failure {A} (body : res (bool * A)) (e : exn) (a a' : A) :
  (∀ x, body = Ret (false, x) → x = a) →
  try_except body e (Ret (false, a)) = Ret (false, a') → a' = a.
Proof.
  intros Hbody. destruct body as [[ok x] | e' |]; simpl.
  - intros [= -> ->]. by apply Hbody.
  - destruct (exn_eqb e' e); [congruence | discriminate].
  - discriminate.
Qed.

(** A rejected move leaves the board as it was. *)
Lemma play_move_failure (b b' : Board) (p c : Z) :
  WF b → play_move b p c = Ret (false, b') → b' = b.
Proof.
  intros Hwf. unfold play_move.
  destruct (play_move_over_spec b Hwf) as (over & -> & _).
  rewrite bind_Ret_l. cbn beta iota. destruct over; [congruence |].
  apply try_except_failure. intros x Hx.
  apply bind_Ret in Hx as (c0 & _ & Hx).
  destruct (negb (c0 =? EMPTY)); [congruence |].
  repeat (apply bind_Ret in Hx as (? & _ & Hx)). discriminate.
Qed.

Lemma color_at_insert (b : Board) (p c q : Z) :
  0 ≤ p < Z.of_nat (length (board b)) →
  color_at (set_board b (<[Z.to_nat p := c]> (board b))) q
  = if decide (q = p) then Some c else color_at b q.
Proof.
  intros Hp. unfold color_at. cbn [board set_board].
  destruct (decide (q = p)) as [-> | Hne].
  - destruct (Z.leb_spec 0 p); [| lia]. apply list_lookup_insert_eq. lia.
  - destruct (Z.leb_spec 0 q); [| done]. apply list_lookup_insert_ne. lia.
Qed.

Lemma elem_of_stones_insert (b : Board) (p c o q : Z) :
  0 ≤ p < Z.of_nat (length (board b)) →
  q ∈ stones (set_board b (<[Z.to_nat p := c]> (board b))) o
  ↔ (q = p ∧ c = o) ∨ (q ≠ p ∧ q ∈ stones b o).
Proof.
  intros Hp. rewrite !elem_of_stones. unfold cell.
  rewrite color_at_insert by done. destruct (decide (q = p)); split.
  - intros [= ->]. by left.
  - intros [[_ ->] | [? _]]; done.
  - by right.
  - intros [[? _] | [_ ?]]; done.
Qed.

(** The colour lists after a stone of colour [c] went on the empty point
    [p]. *)
Lemma stones_insert_same (b : Board) (p c : Z) :
  cell b p EMPTY → c ≠ EMPTY →
  py_sort (stones b c ++ [p])
  = stones (set_board b (<[Z.to_nat p := c]> (board b))) c.
Proof.
  intros Hp Hc. pose proof (color_at_lt _ _ _ Hp) as Hlt.
  assert (Hnot : p ∉ stones b c).
  { rewrite elem_of_stones. unfold cell in *. congruence. }
  apply py_sort_perm; [| apply stones_sorted].
  apply NoDup_Permutation.
  - apply NoDup_app. split_and!.
    + apply lt_sorted_NoDup, stones_sorted.
    + intros x Hx ->%list_elem_of_singleton. done.
    + apply NoDup_singleton.
  - apply lt_sorted_NoDup, stones_sorted.
  - intros x. rewrite elem_of_app, list_elem_of_singleton.
    rewrite elem_of_stones_insert by done.
    destruct (decide (x = p)) as [-> | Hne]; intuition.
Qed.

Lemma stones_insert_other (b : Board) (p c o : Z) :
  cell b p EMPTY → o ≠ EMPTY → o ≠ c →
  stones (set_board b (<[Z.to_nat p := c]> (board b))) o = stones b o.
Proof.
  intros Hp Ho Hoc. pose proof (color_at_lt _ _ _ Hp) as Hlt.
  apply lt_sorted_ext; [apply stones_sorted .. |].
  intros x. rewrite elem_of_stones_insert by done. split.
  - intros [[_ ?] | [_ ?]]; done.
  - intros Hx. right. split; [| done]. intros ->.
    apply elem_of_stones in Hx. unfold cell in *. congruence.
Qed.

Lemma WF_place (b : Board) (p c : Z) :
  WF b → is_black_white c = true → cell b p EMPTY → WF (place b p c).
Proof.
  intros Hwf Hc Hp. pose proof (color_at_lt _ _ _ Hp) as Hlt.
  pose proof Hwf as [H1 H2 H3 H4 H5 H6]. split; cbn; try done.
  - by rewrite length_insert.
  - intros q c' Hq. unfold cell in Hq.
    change (color_at (place b p c) q)
      with (color_at (set_board b (<[Z.to_nat p := c]> (board b))) q) in Hq.
    rewrite color_at_insert in Hq by done.
    change (cell_ok (place b p c) q c') with (cell_ok b q c').
    destruct (decide (q = p)) as [-> | Hne]; [| by apply H5].
    injection Hq as <-. unfold cell_ok.
    rewrite (wf_empty_on_board b p Hwf Hp).
    apply is_black_white_cases in Hc as [-> | ->]; done.
Qed.

(** An accepted move. *)
Lemma play_move_success (b : Board) (p c : Z) :
  WF b → is_black_white c = true → cell b p EMPTY → ¬ decided b →
  play_move b p c = Ret (true, place b p c).
Proof.
  intros Hwf Hc Hp Hdec. pose proof (color_at_lt _ _ _ Hp) as Hlt.
  unfold play_move.
  destruct (play_move_over_spec b Hwf) as (over & -> & Hover).
  rewrite bind_Ret_l. cbn beta iota.
  destruct over.
  { exfalso. destruct Hover as [[? | Hempty] _]; [done | done |].
    assert (Hin : p ∈ get_empty_points b) by by apply elem_of_stones.
    rewrite Hempty in Hin. by apply elem_of_nil in Hin. }
  rewrite (get_color_at _ _ _ Hp : py_getitem (board b) p = _), bind_Ret_l.
  change (negb (EMPTY =? EMPTY)) with false. cbn iota.
  rewrite py_setitem_nonneg, bind_Ret_l by done.
  pose proof (wf_store_is _ _ Hwf Hc) as Hst.
  rewrite (store_get_colour _ _ _ _ _ Hst), bind_Ret_l.
  destruct (store_set_colour _ _ _ _ _ (stones b c ++ [p]) Hst)
    as (st1 & -> & Hst1).
  rewrite bind_Ret_l, (store_get_colour _ _ _ _ _ Hst1), bind_Ret_l.
  destruct (store_set_colour _ _ _ _ _ (py_sort (stones b c ++ [p])) Hst1)
    as (st2 & -> & Hst2).
  rewrite bind_Ret_l. cbn [try_except]. do 2 f_equal. unfold place.
  f_equal. eapply store_is_unique; [exact Hst2 |].
  assert (Hc0 : c ≠ EMPTY)
    by (apply is_black_white_cases in Hc as [-> | ->]; done).
  rewrite stones_insert_same by done.
  assert (Ho : stones b (opponent c)
               = stones (set_board b (<[Z.to_nat p := c]> (board b)))
                        (opponent c)).
  { symmetry. apply stones_insert_other; [done | |];
      apply is_black_white_cases in Hc as [-> | ->]; done. }
  rewrite Ho.
  apply is_black_white_cases in Hc as [-> | ->]; [left | right]; done.
Qed.

(** ** Blocks *)

Lemma neighbors_of_color_for_spec (b : Board) (color : Z)
    (nbs nbc : list Z) :
  (∀ n, n ∈ nbs → 0 ≤ n < Z.of_nat (length (board b))) →
  neighbors_of_color_for b color nbs nbc
  = Ret (nbc ++ filter (λ n, cell b n color) nbs).
Proof.
  revert nbc. induction nbs as [| nb rest IH]; intros nbc Hrange.
  - simpl. by rewrite app_nil_r.
  - destruct (color_at_is_Some b nb) as [c Hc].
    { apply Hrange. by left. }
    cbn [neighbors_of_color_for]. rewrite (get_color_at _ _ _ Hc), bind_Ret_l.
    assert (Hrest : ∀ n, n ∈ rest → 0 ≤ n < Z.of_nat (length (board b))).
    { intros n Hn. apply Hrange. by right. }
    destruct (Z.eqb_spec c color) as [-> | Hne].
    + rewrite IH by done. rewrite filter_cons_True by done.
      by rewrite <- app_assoc.
    + rewrite IH by done. rewrite filter_cons_False; [done |].
      unfold cell. congruence.
Qed.

Lemma neighbors_in_range (b : Board) (p n : Z) :
  1 ≤ NS b → 0 ≤ p - NS b → p + NS b < Z.of_nat (length (board b)) →
  n ∈ _neighbors b p → 0 ≤ n < Z.of_nat (length (board b)).
Proof.
  intros HNS Hlo Hhi Hn. unfold _neighbors in Hn.
  repeat (apply elem_of_cons in Hn as [-> | Hn]); [lia .. |].
  by apply elem_of_nil in Hn.
Qed.

(** Around a stone the four neighbours are read without an error. *)
Lemma neighbors_of_color_stone (b : Board) (p c color : Z) :
  WF b → cell b p c → is_black_white c = true →
  neighbors_of_color b p color
  = Ret (filter (λ n, cell b n color) (_neighbors b p)).
Proof.
  intros Hwf Hp Hc. unfold neighbors_of_color.
  pose proof (wf_stone_room _ _ _ Hwf Hp Hc) as [Hlo Hhi].
  pose proof (wf_NS_pos _ Hwf) as HNS.
  rewrite neighbors_of_color_for_spec; [done |].
  intros n Hn. apply (neighbors_in_range b p n); [lia | lia | lia | done].
Qed.

Lemma connected_cell (b : Board) (c seed q : Z) :
  connected b c seed q → cell b q c.
Proof. by intros []. Qed.

Lemma marked_lt (marker : list bool) (q : Z) :
  marked marker q → 0 ≤ q < Z.of_nat (length marker).
Proof. intros [Hq Hm]. apply lookup_lt_Some in Hm. lia. Qed.

Lemma marked_insert (marker : list bool) (p q : Z) :
  0 ≤ p < Z.of_nat (length marker) →
  marked (<[Z.to_nat p := true]> marker) q ↔ marked marker q ∨ q = p.
Proof.
  intros Hp. unfold marked. destruct (decide (q = p)) as [-> | Hne].
  - rewrite list_lookup_insert_eq by lia. intuition.
  - destruct (decide (0 ≤ q)); [| intuition lia].
    rewrite list_lookup_insert_ne by lia. intuition.
Qed.

Lemma unmarked_insert (marker : list bool) (k : nat) :
  marker !! k = Some false →
  S (unmarked (<[k := true]> marker)) = unmarked marker.
Proof.
  unfold unmarked. revert k. induction marker as [| m rest IH]; intros k Hk.
  - discriminate.
  - destruct k as [| k]; simpl in Hk.
    + injection Hk as ->.
      change (<[0%nat := true]> (false :: rest)) with (true :: rest).
      rewrite (filter_cons_False _ true) by done.
      by rewrite (filter_cons_True _ false) by done.
    + change (<[S k := true]> (m :: rest)) with (m :: <[k := true]> rest).
      rewrite !filter_cons.
      destruct (decide (m = false)); simpl; by rewrite <- (IH k Hk).
Qed.

Lemma unmarked_replicate (n : nat) : unmarked (replicate n false) = n.
Proof.
  unfold unmarked. induction n as [| n IH]; [done |]. cbn [replicate].
  rewrite filter_cons_True by done. cbn [length]. by rewrite IH.
Qed.

(** The inner loop of [_block_of]: the neighbours without a mark get one
    and go on the stack. *)
Lemma _block_of_for_spec (nbs : list Z) :
  ∀ marker pointstack,
    (∀ n, n ∈ nbs → 0 ≤ n < Z.of_nat (length marker)) →
    ∃ marker' new,
      _block_of_for marker pointstack nbs = Ret (marker', new ++ pointstack)
      ∧ length marker' = length marker
      ∧ (∀ q, marked marker' q ↔ marked marker q ∨ q ∈ nbs)
      ∧ (∀ q, q ∈ new ↔ q ∈ nbs ∧ ¬ marked marker q)
      ∧ NoDup new
      ∧ (unmarked marker' + length new = unmarked marker)%nat.
Proof.
  induction nbs as [| nb rest IH]; intros marker pointstack Hrange.
  { exists marker, []. split_and!; try done.
    - intros q. rewrite elem_of_nil. tauto.
    - intros q. rewrite !elem_of_nil. tauto.
    - constructor. }
  assert (Hnb : 0 ≤ nb < Z.of_nat (length marker)) by (apply Hrange; by left).
  destruct (lookup_lt_is_Some_2 marker (Z.to_nat nb) ltac:(lia)) as [m Hm].
  cbn [_block_of_for].
  rewrite (py_getitem_lookup _ _ _ (proj1 Hnb) Hm), bind_Ret_l.
  destruct m; cbn [negb].
  - destruct (IH marker pointstack) as (marker' & new & -> & Hlen & Hmk & Hnew
                                        & Hnd & Hcount).
    { intros n Hn. apply Hrange. by right. }
    assert (Hmarked : marked marker nb) by (split; [lia | done]).
    exists marker', new. split_and!; try done.
    + intros q. rewrite Hmk, elem_of_cons. split; [tauto |].
      intros [? | [-> | ?]]; tauto.
    + intros q. rewrite Hnew, elem_of_cons. split; [tauto |].
      intros [[-> | ?] ?]; tauto.
  - rewrite py_setitem_nonneg, bind_Ret_l by done.
    destruct (IH (<[Z.to_nat nb := true]> marker) (nb :: pointstack))
      as (marker' & new & -> & Hlen & Hmk & Hnew & Hnd & Hcount).
    { intros n Hn. rewrite length_insert. apply Hrange. by right. }
    assert (Hunmarked : ¬ marked marker nb).
    { intros [_ Hm']. congruence. }
    exists marker', (new ++ [nb]). rewrite length_insert in Hlen.
    split_and!.
    + by rewrite <- app_assoc.
    + done.
    + intros q. rewrite Hmk, marked_insert, elem_of_cons by done. tauto.
    + intros q. rewrite elem_of_app, Hnew, marked_insert by done.
      rewrite list_elem_of_singleton, elem_of_cons. split.
      * intros [[? ?] | ->]; tauto.
      * intros [[-> | ?] ?]; [tauto |].
        destruct (decide (q = nb)); tauto.
    + apply NoDup_app. split_and!; [done | | apply NoDup_singleton].
      intros q [_ Hq]%Hnew ->%list_elem_of_singleton.
      apply Hq, marked_insert; tauto.
    + rewrite length_app. simpl.
      pose proof (unmarked_insert _ _ Hm). lia.
Qed.

Lemma _block_of_while_spec (b : Board) (color seed : Z) :
  WF b → is_black_white color = true →
  ∀ fuel marker pointstack popped,
    block_inv b color seed marker pointstack popped →
    (unmarked marker + length pointstack ≤ fuel)%nat →
    ∃ marker' popped',
      _block_of_while fuel b color marker pointstack popped
        = Ret (marker', popped')
      ∧ block_inv b color seed marker' [] popped'
      ∧ (∀ q, marked marker q → marked marker' q).
Proof.
  intros Hwf Hcolor. induction fuel as [| fuel IH];
    intros marker pointstack popped Hinv Hfuel;
    destruct pointstack as [| p rest];
    try (by exists marker, popped); [simpl in Hfuel; lia |].
  destruct Hinv as [Hlen Hconn Hmarked Hnd Hclosed].
  assert (Hp : cell b p color).
  { eapply connected_cell, Hconn, Hmarked. left. by left. }
  cbn [_block_of_while].
  rewrite (neighbors_of_color_stone _ _ _ _ Hwf Hp Hcolor), bind_Ret_l.
  set (nbs := filter (λ n, cell b n color) (_neighbors b p)).
  assert (Hnbs : ∀ n, n ∈ nbs ↔ cell b n color ∧ n ∈ _neighbors b p).
  { intros n. unfold nbs. by rewrite list_elem_of_filter. }
  destruct (_block_of_for_spec nbs marker rest)
    as (marker1 & new & -> & Hlen1 & Hmk & Hnew & Hndnew & Hcount).
  { intros n [Hn _]%Hnbs. rewrite Hlen. by eapply color_at_lt. }
  rewrite bind_Ret_l. cbn beta iota.
  destruct (IH marker1 (new ++ rest) (popped ++ [p]))
    as (marker' & popped' & -> & Hinv' & Hmono).
  - split.
    + congruence.
    + intros q [Hq | [Hq Hn]%Hnbs]%Hmk; [by apply Hconn |].
      eapply connected_step; [| exact Hn | exact Hq].
      apply Hconn, Hmarked. left. by left.
    + intros q. rewrite Hmk, Hmarked, !elem_of_app, Hnew, elem_of_cons.
      rewrite list_elem_of_singleton, Hmarked, elem_of_cons.
      destruct (decide (marked marker q)) as [Hq | Hq].
      * apply Hmarked in Hq as Hq'. rewrite elem_of_cons in Hq'. tauto.
      * rewrite Hmarked, elem_of_cons in Hq. tauto.
    + rewrite <- app_assoc. apply NoDup_app. split_and!; [done | |].
      * intros q [_ Hq]%Hnew Hin. apply Hq, Hmarked.
        rewrite !elem_of_app, list_elem_of_singleton in Hin.
        rewrite elem_of_cons. tauto.
      * assert (Hperm : rest ++ popped ++ [p] ≡ₚ (p :: rest) ++ popped).
        { rewrite app_assoc. symmetry. apply Permutation_cons_append. }
        by rewrite Hperm.
    + intros q n [Hq | ->%list_elem_of_singleton]%elem_of_app Hn Hc;
        apply Hmk.
      * left. by eapply Hclosed.
      * right. by apply Hnbs.
  - rewrite length_app. simpl in Hfuel. lia.
  - exists marker', popped'. split_and!; [done | done |].
    intros q Hq. apply Hmono, Hmk. by left.
Qed.

(** [_block_of] on a stone: it ends, and the marks are the block of the
    stone. *)
Lemma _block_of_trace_spec (b : Board) (seed c : Z) :
  WF b → cell b seed c → is_black_white c = true →
  ∃ marker popped,
    _block_of_trace b seed = Ret (marker, popped)
    ∧ length marker = length (board b)
    ∧ marked marker seed
    ∧ (∀ q, marked marker q → connected b c seed q)
    ∧ (∀ q n, marked marker q → n ∈ _neighbors b q → cell b n c →
              marked marker n)
    ∧ NoDup popped
    ∧ (∀ q, marked marker q ↔ q ∈ popped).
Proof.
  intros Hwf Hseed Hc. pose proof (color_at_lt _ _ _ Hseed) as Hlt.
  pose proof (wf_length b Hwf) as Hlen.
  unfold _block_of_trace. rewrite (get_color_at _ _ _ Hseed), bind_Ret_l.
  rewrite Hc. cbn [py_assert]. rewrite bind_Ret_l.
  set (n := Z.to_nat (maxpoint b)).
  rewrite py_setitem_nonneg, bind_Ret_l by (rewrite length_replicate; lia).
  assert (Hmk : ∀ q, marked (<[Z.to_nat seed := true]> (replicate n false)) q
                     ↔ q = seed).
  { intros q. rewrite marked_insert by (rewrite length_replicate; lia).
    split; [intros [[_ Hq] | ?]; [| done] | by right].
    apply lookup_replicate in Hq as [? _]. done. }
  destruct (_block_of_while_spec b c seed Hwf Hc n
              (<[Z.to_nat seed := true]> (replicate n false)) [seed] [])
    as (marker & popped & -> & [Hlen' Hconn Hmarked Hnd Hclosed] & Hmono).
  - split.
    + rewrite length_insert, length_replicate. lia.
    + intros q ->%Hmk. by constructor.
    + intros q. rewrite Hmk, list_elem_of_singleton, elem_of_nil. tauto.
    + apply NoDup_singleton.
    + by intros q n' ?%elem_of_nil.
  - pose proof (unmarked_insert (replicate n false) (Z.to_nat seed)) as Hun.
    rewrite unmarked_replicate in Hun.
    specialize (Hun ltac:(apply lookup_replicate_2; lia)).
    cbn [length]. lia.
  - exists marker, popped. split_and!; try done.
    + apply Hmono, Hmk. done.
    + intros q n' Hq. apply Hclosed. apply Hmarked in Hq.
      by rewrite elem_of_nil in Hq; destruct Hq.
    + intros q. rewrite Hmarked, elem_of_nil. tauto.
Qed.

Lemma _block_of_spec (b : Board) (seed c : Z) :
  WF b → cell b seed c → is_black_white c = true →
  ∃ marker,
    _block_of b seed = Ret marker
    ∧ length marker = length (board b)
    ∧ (∀ q, marked marker q ↔ connected b c seed q).
Proof.
  intros Hwf Hseed Hc.
  destruct (_block_of_trace_spec b seed c Hwf Hseed Hc)
    as (marker & popped & Htrace & Hlen & Hms & Hconn & Hclosed & _ & _).
  exists marker. unfold _block_of. rewrite Htrace.
  split_and!; [done | done |]. intros q. split; [apply Hconn |].
  induction 1 as [| q n Hq IH Hn Hcell]; [done |]. by eapply Hclosed.
Qed.

(** ** A new board *)

Lemma py_fill_slice_spec {A} (l : list A) (start stop : Z) (x : A) :
  0 ≤ start ≤ stop → stop ≤ Z.of_nat (length l) →
  length (py_fill_slice l start stop x) = length l
  ∧ ∀ q, 0 ≤ q →
      py_fill_slice l start stop x !! Z.to_nat q
      = if decide (start ≤ q < stop) then Some x else l !! Z.to_nat q.
Proof.
  intros Hss Hstop. unfold py_fill_slice, py_slice_bound.
  destruct (Z.ltb_spec start 0); [lia |].
  destruct (Z.ltb_spec stop 0); [lia |].
  rewrite !Z.min_l by lia. destruct (Z.ltb_spec start stop).
  - split.
    + rewrite !length_app, length_take, length_replicate, length_drop. lia.
    + intros q Hq. destruct (decide (start ≤ q < stop)) as [Hin | Hout].
      * rewrite lookup_app_r by (rewrite length_take; lia).
        rewrite length_take, lookup_app_l by (rewrite length_replicate; lia).
        apply lookup_replicate_2. lia.
      * destruct (decide (q < start)).
        -- rewrite lookup_app_l by (rewrite length_take; lia).
           apply lookup_take_lt. lia.
        -- rewrite lookup_app_r by (rewrite length_take; lia).
           rewrite lookup_app_r
             by (rewrite length_take, length_replicate; lia).
           rewrite lookup_drop, length_take, length_replicate. f_equal. lia.
  - split; [done |]. intros q Hq.
    destruct (decide (start ≤ q < stop)); [lia | done].
Qed.

Lemma _initialize_empty_points_for_spec (self : Board) (rows : list Z) :
  0 ≤ size self → 0 ≤ NS self →
  ∀ cells,
    (∀ row, row ∈ rows →
       1 ≤ row ≤ size self
       ∧ row * NS self + 1 + size self ≤ Z.of_nat (length cells)) →
    ∃ cells',
      _initialize_empty_points_for self rows cells = Ret cells'
      ∧ length cells' = length cells
      ∧ ∀ q, 0 ≤ q →
          cells' !! Z.to_nat q
          = if decide (Exists (λ row, row * NS self + 1 ≤ q
                                      < row * NS self + 1 + size self) rows)
            then Some EMPTY else cells !! Z.to_nat q.
Proof.
  intros Hsize HNS. induction rows as [| row rest IH]; intros cells Hrows.
  - exists cells. split_and!; [done | done |]. intros q Hq.
    destruct (decide _) as [Hex | _]; [| done]. by apply Exists_nil in Hex.
  - destruct (Hrows row ltac:(by left)) as [Hrow Hfit].
    cbn [_initialize_empty_points_for]. unfold row_start.
    destruct (Z.leb_spec 1 row); [| lia]. cbn [py_assert]. rewrite bind_Ret_l.
    destruct (Z.leb_spec row (size self)); [| lia]. cbn [py_assert].
    rewrite !bind_Ret_l.
    set (start := row * NS self + 1).
    destruct (py_fill_slice_spec cells start (start + size self) EMPTY)
      as [Hlen Hfill]; [unfold start; nia | unfold start; lia |].
    destruct (IH (py_fill_slice cells start (start + size self) EMPTY))
      as (cells' & -> & Hlen' & Hcells').
    { intros row' Hin. rewrite Hlen. apply Hrows. by right. }
    exists cells'. split_and!; [done | congruence |]. intros q Hq.
    rewrite Hcells', Hfill by done.
    destruct (decide (Exists _ rest)) as [Hrest | Hnone].
    + rewrite decide_True; [done |]. by apply Exists_cons; right.
    + destruct (decide (start ≤ q < start + size self)) as [Hin | Hout].
      * rewrite decide_True; [done |]. by apply Exists_cons; left.
      * rewrite decide_False; [done |]. by intros [? | ?]%Exists_cons.
Qed.

(** A position is playable when it lies in the slice of one of the rows. *)
Lemma on_board_row (b : Board) (q : Z) :
  0 ≤ size b → NS b = size b + 1 →
  on_board b q = true
  ↔ ∃ row, row ∈ seqZ 1 (size b)
           ∧ row * NS b + 1 ≤ q < row * NS b + 1 + size b.
Proof.
  intros Hsize HNS. unfold on_board.
  rewrite !andb_true_iff, !Z.leb_le. split.
  - intros [[[Hr1 Hr2] Hc1] Hc2]. exists (q / NS b).
    rewrite elem_of_seqZ. split; [lia |].
    pose proof (Z.div_mod q (NS b) ltac:(lia)). lia.
  - intros (row & [Hr1 Hr2]%elem_of_seqZ & Hq).
    assert (Hdiv : q / NS b = row).
    { symmetry. apply (Z.div_unique q (NS b) row (q - row * NS b)); lia. }
    assert (Hmod : q mod NS b = q - row * NS b).
    { symmetry. apply (Z.mod_unique q (NS b) row (q - row * NS b)); lia. }
    rewrite Hdiv, Hmod. lia.
Qed.

Lemma seqZ_sorted (m n : Z) : StronglySorted Z.lt (seqZ m n).
Proof.
  remember (Z.to_nat n) as k eqn:Hk. revert m n Hk.
  induction k as [| k IH]; intros m n Hk.
  - rewrite seqZ_nil by lia. constructor.
  - rewrite seqZ_cons by lia. constructor; [apply IH; lia |].
    apply Forall_forall. intros x Hx%elem_of_seqZ. lia.
Qed.

Section interior.
Variable size : Z.
Hypothesis Hsize : 0 ≤ size.

Lemma rows_bind_sorted (rows : list Z) :
  StronglySorted Z.lt rows → StronglySorted Z.lt (rows ≫= row_slice size).
Proof.
  induction 1 as [| row rest Hrest IH Hrow]; [constructor |].
  rewrite bind_cons. apply StronglySorted_app_2; [| apply seqZ_sorted | done].
  intros x1 x2 Hx1%elem_of_seqZ (row' & Hx2%elem_of_seqZ & Hrow')%list_elem_of_bind.
  rewrite Forall_forall in Hrow. specialize (Hrow _ Hrow'). nia.
Qed.

Lemma rows_bind_length (rows : list Z) :
  length (rows ≫= row_slice size) = (length rows * Z.to_nat size)%nat.
Proof.
  induction rows as [| row rest IH]; [done |].
  rewrite bind_cons, length_app, IH. unfold row_slice.
  rewrite length_seqZ. simpl. lia.
Qed.

Lemma interior_points_sorted : StronglySorted Z.lt (interior_points size).
Proof. apply rows_bind_sorted, seqZ_sorted. Qed.

Lemma length_interior_points :
  Z.of_nat (length (interior_points size)) = size * size.
Proof.
  unfold interior_points. rewrite rows_bind_length, length_seqZ.
  lia.
Qed.

Lemma elem_of_interior_points (q : Z) :
  q ∈ interior_points size
  ↔ ∃ row, row ∈ seqZ 1 size
           ∧ row * (size + 1) + 1 ≤ q < row * (size + 1) + 1 + size.
Proof.
  unfold interior_points. rewrite list_elem_of_bind. split.
  - intros (row & Hq%elem_of_seqZ & Hrow). exists row. split; [done | lia].
  - intros (row & Hrow & Hq). exists row. split; [| done].
    apply elem_of_seqZ. lia.
Qed.
End interior.

(** The cells [reset] leaves. *)
Lemma reset_spec (n : Z) :
  1 ≤ n →
  ∃ b, reset n = Ret b
       ∧ size b = n ∧ NS b = n + 1 ∧ WE b = 1 ∧ ko_recapture b = None
       ∧ current_player b = BLACK
       ∧ maxpoint b = n * n + 3 * (n + 1)
       ∧ Z.of_nat (length (board b)) = maxpoint b
       ∧ store b = [[]; []; []]
       ∧ ∀ q, 0 ≤ q < maxpoint b →
              cell b q (if on_board b q then EMPTY else BORDER).
Proof.
  intros Hn. unfold reset, _initialize_empty_points.
  set (maxp := n * n + 3 * (n + 1)).
  set (self := MkBoard n (n + 1) 1 None BLACK maxp
                       (replicate (Z.to_nat maxp) BORDER) []).
  destruct (_initialize_empty_points_for_spec self (seqZ 1 (size self))
              ltac:(simpl; lia) ltac:(simpl; lia) (board self))
    as (cells & -> & Hlen & Hcells).
  { intros row Hrow%elem_of_seqZ. cbn. rewrite length_replicate.
    unfold maxp. cbn in Hrow. nia. }
  rewrite bind_Ret_l. eexists. split; [done |].
  set (b' := set_store (set_board self cells) [[]; []; []]).
  cbn in Hlen. rewrite length_replicate in Hlen.
  split_and!; try done; [cbn; lia |].
  intros q Hq. change (maxpoint b') with maxp in Hq.
  apply color_at_Some. split; [lia |].
  change (board b') with cells. rewrite Hcells by lia.
  pose proof (on_board_row b' q ltac:(simpl; lia) eq_refl) as Hrow.
  change (NS self) with (NS b'). change (size self) with (size b').
  destruct (decide (Exists _ _)) as [Hex | Hnex].
  - apply Exists_exists in Hex. apply Hrow in Hex. by rewrite Hex.
  - cbn [board self]. rewrite lookup_replicate_2 by lia.
    destruct (on_board b' q) eqn:Hon; [| done].
    exfalso. apply Hnex, Exists_exists, Hrow. done.
Qed.

Lemma fresh_board_spec (n : Z) :
  2 ≤ n ≤ MAXSIZE →
  ∃ b, __init__ n = Ret b
       ∧ Z.of_nat (length (board b)) = n * n + 3 * (n + 1)
       ∧ (∀ q, 0 ≤ q < n * n + 3 * (n + 1) →
               cell b q (if on_board b q then EMPTY else BORDER))
       ∧ get_empty_points b = interior_points n
       ∧ store b = [[]; []; []]
       ∧ WF b.
Proof.
  intros Hn. unfold __init__.
  destruct (Z.leb_spec 2 n); [| lia]. destruct (Z.leb_spec n MAXSIZE); [| lia].
  cbn [andb py_assert]. rewrite bind_Ret_l.
  destruct (reset_spec n ltac:(lia))
    as (b & -> & Hsz & HNS & _ & _ & _ & Hmax & Hlen & Hstore & Hcells).
  assert (Hcolor : ∀ q c, cell b q c →
            c = if on_board b q then EMPTY else BORDER).
  { intros q c Hc. pose proof (color_at_lt _ _ _ Hc) as Hq.
    specialize (Hcells q ltac:(lia)). unfold cell in *. congruence. }
  assert (Hnone : ∀ c, is_black_white c = true → stones b c = []).
  { intros c Hc. apply elem_of_nil_inv. intros q Hq%elem_of_stones.
    apply Hcolor in Hq.
    apply is_black_white_cases in Hc as [-> | ->];
      destruct (on_board b q); discriminate. }
  exists b. rewrite Hmax in Hcells. split_and!; try done; [lia | |].
  - apply lt_sorted_ext;
      [apply stones_sorted | apply interior_points_sorted; lia |].
    intros q. change (get_empty_points b) with (stones b EMPTY).
    rewrite elem_of_stones, elem_of_interior_points.
    pose proof (on_board_row b q ltac:(lia) ltac:(lia)) as Hrow.
    rewrite Hsz, HNS in Hrow. rewrite <- Hrow. split.
    + intros Hq. apply Hcolor in Hq. by destruct (on_board b q).
    + intros Hon. pose proof (on_board_bounds b q ltac:(lia) Hon).
      specialize (Hcells q ltac:(nia)). by rewrite Hon in Hcells.
  - split; [lia | lia | by rewrite Hsz | done | |].
    + intros q c Hc. rewrite (Hcolor _ _ Hc). unfold cell_ok.
      by destruct (on_board b q).
    + by rewrite Hstore, !Hnone.
Qed.

(** ** Eyes *)

Lemma _is_surrounded_for_spec (b : Board) (color : Z) (nbs : list Z) :
  (∀ n, n ∈ nbs → 0 ≤ n < Z.of_nat (length (board b))) →
  ∃ r, _is_surrounded_for b color nbs = Ret r
       ∧ (r = true ↔ ∀ n, n ∈ nbs → cell b n BORDER ∨ cell b n color).
Proof.
  induction nbs as [| nb rest IH]; intros Hrange.
  - exists true. split; [done |]. split; [| done].
    by intros _ n ?%elem_of_nil.
  - destruct (color_at_is_Some b nb) as [c Hc]; [apply Hrange; by left |].
    cbn [_is_surrounded_for].
    rewrite (get_color_at _ _ _ Hc : py_getitem (board b) nb = _), bind_Ret_l.
    destruct (Z.eqb_spec c BORDER) as [-> | HB];
      [| destruct (Z.eqb_spec c color) as [-> | HC]]; cbn [negb andb].
    1, 2: destruct IH as (r & -> & Hr);
      [intros n Hn; apply Hrange; by right |];
      exists r; split; [done |]; rewrite Hr; split;
      [intros H n [-> | Hn]%elem_of_cons; [by (left + right) | by apply H]
      | intros H n Hn; apply H; by right].
    exists false. split; [done |]. split; [done |]. intros H.
    destruct (H nb ltac:(by left)) as [Hb | Hb]; unfold cell in Hb; congruence.
Qed.

Lemma is_eye_for_spec (b : Board) (opp : Z) (ds : list Z) :
  opp ≠ BORDER →
  (∀ d, d ∈ ds → 0 ≤ d < Z.of_nat (length (board b))) →
  ∀ false_count at_edge,
    ∃ at_edge',
      is_eye_for b opp ds false_count at_edge
      = Ret (false_count + Z.of_nat (length (filter (λ d, cell b d opp) ds)),
             at_edge')
      ∧ (Exists (λ d, cell b d BORDER) ds → at_edge' = 1)
      ∧ (¬ Exists (λ d, cell b d BORDER) ds → at_edge' = at_edge).
Proof.
  intros Hopp. induction ds as [| d rest IH]; intros Hrange fc ae.
  - exists ae. split_and!; [simpl; f_equal; f_equal; lia | | done].
    by intros ?%Exists_nil.
  - destruct (color_at_is_Some b d) as [c Hc]; [apply Hrange; by left |].
    assert (Hrest : ∀ d', d' ∈ rest → 0 ≤ d' < Z.of_nat (length (board b))).
    { intros d' Hd'. apply Hrange. by right. }
    cbn [is_eye_for].
    rewrite (get_color_at _ _ _ Hc : py_getitem (board b) d = _), bind_Ret_l.
    destruct (Z.eqb_spec c BORDER) as [-> | HB].
    + destruct (IH Hrest fc 1) as (ae' & -> & H1 & H2).
      exists ae'. rewrite filter_cons_False by (unfold cell; congruence).
      split_and!; [done | |].
      * intros _.
        destruct (decide (Exists (λ d, cell b d BORDER) rest)); auto.
      * intros Hnone. exfalso. apply Hnone, Exists_cons. by left.
    + assert (Hedge : Exists (λ d, cell b d BORDER) (d :: rest)
                      ↔ Exists (λ d, cell b d BORDER) rest).
      { rewrite Exists_cons. split; [| by right].
        intros [Hb | ?]; [| done]. unfold cell in Hb. congruence. }
      destruct (Z.eqb_spec c opp) as [-> | HO].
      * destruct (IH Hrest (fc + 1) ae) as (ae' & -> & H1 & H2).
        exists ae'. rewrite filter_cons_True by done. rewrite Hedge.
        split_and!; [| done | done]. do 2 f_equal. cbn [length]. lia.
      * destruct (IH Hrest fc ae) as (ae' & -> & H1 & H2).
        exists ae'. rewrite filter_cons_False by (unfold cell; congruence).
        by rewrite Hedge.
Qed.

Lemma is_eye_correct (b : Board) (p c : Z) :
  WF b → on_board b p = true → is_black_white c = true →
  ∃ r, is_eye b p c = Ret r
       ∧ (r = true ↔
          (∀ n, n ∈ _neighbors b p → cell b n BORDER ∨ cell b n c)
          ∧ count_color b (opponent c) (_diag_neighbors b p)
            ≤ if decide (Exists (λ d, cell b d BORDER) (_diag_neighbors b p))
              then 0 else 1).
Proof.
  intros Hwf Hp Hc. pose proof (wf_on_board_room _ _ Hwf Hp) as [Hlo Hhi].
  pose proof (wf_NS_pos _ Hwf) as HNS.
  unfold is_eye, _is_surrounded.
  destruct (_is_surrounded_for_spec b c (_neighbors b p)) as (s & -> & Hs).
  { intros n Hn. apply (neighbors_in_range b p n); [lia | lia | lia | done]. }
  rewrite bind_Ret_l. destruct s; cbn [negb].
  - destruct (is_eye_for_spec b (opponent c) (_diag_neighbors b p)) with
      (false_count := 0) (at_edge := 0) as (ae & -> & H1 & H2).
    { apply is_black_white_cases in Hc as [-> | ->]; done. }
    { intros d Hd. unfold _diag_neighbors in Hd.
      repeat (apply elem_of_cons in Hd as [-> | Hd]); [lia .. |].
      by apply elem_of_nil in Hd. }
    rewrite bind_Ret_l. cbn beta iota. eexists. split; [done |].
    rewrite Z.leb_le. unfold count_color.
    destruct (decide (Exists _ _)) as [Hex | Hnex];
      [rewrite (H1 Hex) | rewrite (H2 Hnex)];
      (split; [intros ?; split; [by apply Hs | lia] | intros [_ ?]; lia]).
  - exists false. split; [done |]. split; [done |].
    intros [Hall _]. apply Hs in Hall. discriminate.
Qed.

(** ** Liberties and capture *)

Lemma _has_liberty_for_spec (b : Board) (c : Z) (points : list Z) :
  WF b → is_black_white c = true → (∀ q, q ∈ points → cell b q c) →
  ∃ r, _has_liberty_for b points = Ret r
       ∧ (r = true ↔
          ∃ q n, q ∈ points ∧ n ∈ _neighbors b q ∧ cell b n EMPTY).
Proof.
  intros Hwf Hc. induction points as [| q rest IH]; intros Hpoints.
  - exists false. split; [done |]. split; [done |].
    by intros (q & n & ?%elem_of_nil & _).
  - cbn [_has_liberty_for].
    rewrite (neighbors_of_color_stone b q c EMPTY Hwf) by
      (done || apply Hpoints; by left).
    rewrite bind_Ret_l.
    destruct (filter (λ n, cell b n EMPTY) (_neighbors b q)) as [| n ns]
      eqn:Hfilter.
    + destruct IH as (r & -> & Hr); [intros; apply Hpoints; by right |].
      exists r. split; [done |]. rewrite Hr. split.
      * intros (q' & n & Hq' & Hn). exists q', n. split; [by right | done].
      * intros (q' & n & [-> | Hq']%elem_of_cons & Hn & Hcell);
          [| by exists q', n].
        exfalso. by apply (filter_nil_not_elem_of _ _ n Hfilter).
    + exists true. split; [done |]. split; [intros _ | done].
      assert (Hn : n ∈ filter (λ n, cell b n EMPTY) (_neighbors b q)).
      { rewrite Hfilter. by left. }
      apply list_elem_of_filter in Hn as [Hcell Hn].
      exists q, n. split; [by left | done].
Qed.

Lemma py_setitems_spec {A} (indices : list Z) (x : A) :
  ∀ l : list A,
    (∀ i, i ∈ indices → 0 ≤ i < Z.of_nat (length l)) →
    ∃ l', py_setitems l indices x = Ret l'
          ∧ length l' = length l
          ∧ ∀ q, 0 ≤ q →
              l' !! Z.to_nat q
              = if decide (q ∈ indices) then Some x else l !! Z.to_nat q.
Proof.
  induction indices as [| i rest IH]; intros l Hrange.
  - exists l. split_and!; [done | done |]. intros q Hq.
    rewrite decide_False; [done |]. apply not_elem_of_nil.
  - assert (Hi : 0 ≤ i < Z.of_nat (length l)) by (apply Hrange; by left).
    cbn [py_setitems]. rewrite py_setitem_nonneg, bind_Ret_l by done.
    destruct (IH (<[Z.to_nat i := x]> l)) as (l' & -> & Hlen & Hl').
    { intros j Hj. rewrite length_insert. apply Hrange. by right. }
    rewrite length_insert in Hlen. exists l'. split_and!; [done | done |].
    intros q Hq. rewrite Hl' by done.
    destruct (decide (q ∈ rest)) as [Hin | Hout].
    + rewrite decide_True; [done | by right].
    + destruct (decide (q = i)) as [-> | Hne].
      * rewrite decide_True by by left. apply list_lookup_insert_eq. lia.
      * rewrite decide_False by (rewrite elem_of_cons; tauto).
        apply list_lookup_insert_ne. lia.
Qed.

Lemma _has_liberty_block (b : Board) (q c : Z) (marker : list bool) :
  WF b → is_black_white c = true →
  (∀ x, marked marker x ↔ connected b c q x) →
  ∃ r, _has_liberty b marker = Ret r ∧ (r = true ↔ has_liberty b c q).
Proof.
  intros Hwf Hc Hmarker. unfold _has_liberty.
  destruct (_has_liberty_for_spec b c (where1d marker) Hwf Hc)
    as (r & -> & Hr).
  { intros x Hx%elem_of_where1d%Hmarker. by eapply connected_cell. }
  exists r. split; [done |]. rewrite Hr. unfold has_liberty.
  split; intros (x & n & Hx & Hn); exists x, n; (split; [| done]).
  - by apply Hmarker, elem_of_where1d.
  - by apply elem_of_where1d, Hmarker.
Qed.

(** What [_detect_and_process_capture] does on the block of a stone. *)
Lemma capture_correct (b : Board) (q c : Z) :
  WF b → cell b q c → is_black_white c = true →
  ∃ marker,
    _block_of b q = Ret marker
    ∧ (∀ x, marked marker x ↔ connected b c q x)
    ∧ (has_liberty b c q → _detect_and_process_capture b q = Ret (None, b))
    ∧ (¬ has_liberty b c q →
       ∃ cells,
         _detect_and_process_capture b q
         = Ret (if decide (length (where1d marker) = 1%nat)
                then Some q else None,
                set_board b cells)
         ∧ length cells = length (board b)
         ∧ (∀ x, connected b c q x → cell (set_board b cells) x EMPTY)
         ∧ (∀ x, ¬ connected b c q x →
                 color_at (set_board b cells) x = color_at b x)).
Proof.
  intros Hwf Hq Hc.
  destruct (_block_of_spec b q c Hwf Hq Hc) as (marker & Hblock & Hlen & Hmk).
  destruct (_has_liberty_block b q c marker Hwf Hc Hmk) as (r & Hlib & Hr).
  exists marker. split_and!; [done | done | |].
  - intros Hl. unfold _detect_and_process_capture.
    rewrite Hblock, bind_Ret_l, Hlib, bind_Ret_l.
    apply Hr in Hl. by rewrite Hl.
  - intros Hl. unfold _detect_and_process_capture.
    rewrite Hblock, bind_Ret_l, Hlib, bind_Ret_l.
    destruct r; [exfalso; by apply Hl, Hr |]. cbn [negb].
    destruct (py_setitems_spec (where1d marker) EMPTY (board b))
      as (cells & -> & Hlen' & Hcells).
    { intros i Hi%elem_of_where1d%marked_lt. lia. }
    rewrite bind_Ret_l. exists cells. split_and!; [| done | |].
    + do 2 f_equal.
      destruct (Z.eqb_spec (Z.of_nat (length (where1d marker))) 1);
        [rewrite decide_True by lia | rewrite decide_False by lia]; done.
    + intros x Hx%Hmk. pose proof (marked_lt _ _ Hx) as Hx'.
      apply color_at_Some. split; [lia |]. cbn [board set_board].
      rewrite Hcells by lia. rewrite decide_True; [done |].
      by apply elem_of_where1d.
    + intros x Hx. unfold color_at. destruct (Z.leb_spec 0 x); [| done].
      cbn [board set_board]. rewrite Hcells by lia.
      rewrite decide_False; [done |]. by rewrite elem_of_where1d, Hmk.
Qed.

(** ** Runs *)

Lemma run_snoc (b : Board) (c delta p n : Z) :
  0 ≤ n → run b c delta p n → cell b (p + n * delta) c →
  run b c delta p (n + 1).
Proof.
  intros Hn Hrun Hc k Hk. destruct (decide (k = n)) as [-> | Hne]; [done |].
  apply Hrun. lia.
Qed.

(** A run ends: walking along the direction leaves the array. *)
Lemma run_extend (b : Board) (c delta p n : Z) :
  0 < delta → 0 ≤ n → run b c delta p n →
  ∃ m, n ≤ m ∧ run b c delta p m ∧ ¬ cell b (p + m * delta) c.
Proof.
  intros Hdelta.
  remember (Z.to_nat (Z.of_nat (length (board b)) - (p + n * delta))) as k
    eqn:Hk.
  revert n Hk. induction k as [k IH] using lt_wf_ind. intros n Hk Hn Hrun.
  destruct (decide (cell b (p + n * delta) c)) as [Hnext | Hnext].
  - pose proof (color_at_lt _ _ _ Hnext) as Hlt.
    destruct (IH (Z.to_nat (Z.of_nat (length (board b))
                            - (p + (n + 1) * delta)))
                ltac:(nia) (n + 1) eq_refl ltac:(lia)
                (run_snoc _ _ _ _ _ Hn Hrun Hnext))
      as (m & Hm & Hrun' & Hend).
    exists m. split_and!; [lia | done | done].
  - exists n. split_and!; [lia | done | done].
Qed.

Lemma five_in_a_row_maximal (b : Board) (c : Z) :
  WF b → five_in_a_row b c →
  ∃ delta p n, delta ∈ directions b ∧ maximal_run b c delta p n ∧ 5 ≤ n.
Proof.
  intros Hwf (delta & p & Hdelta & Hrun).
  pose proof (wf_direction _ _ Hwf Hdelta) as [Hpos _].
  destruct (run_start _ _ _ _ Hpos Hrun) as (x & Hx & Hprev).
  destruct (run_extend b c delta x 5 Hpos ltac:(lia) Hx)
    as (m & Hm & Hxm & Hend).
  by exists delta, x, m.
Qed.

Lemma checkState_correct (b : Board) :
  WF b → ∃ s, checkState b = Ret (s, b).
Proof.
  intros Hwf. unfold checkState.
  destruct (checkWin_correct b WHITE Hwf eq_refl) as (rw & -> & _).
  rewrite bind_Ret_l. cbn beta iota. destruct rw; [by eexists |].
  destruct (checkWin_correct b BLACK Hwf eq_refl) as (rb & -> & _).
  rewrite bind_Ret_l. cbn beta iota. destruct rb; [by eexists |].
  destruct (_ =? 0); by eexists.
Qed.

Lemma WF_restored (b : Board) : WF b → restored b b.
Proof.
  intros Hwf. unfold restored, scratch_list, black_list, white_list.
  rewrite (wf_store b Hwf). split_and!; [done | done |].
  exists (stones b BLACK), (stones b WHITE).
  split_and!; try done; apply stones_sorted.
Qed.

Lemma NoDup_count_one (l : list Z) (x : Z) :
  NoDup l → x ∈ l → length (filter (λ y, y = x) l) = 1%nat.
Proof.
  induction 1 as [| y l Hy Hl IH]; [by intros ?%elem_of_nil |].
  intros [-> | Hx]%elem_of_cons.
  - rewrite filter_cons_True by done. cbn [length]. f_equal.
    apply length_zero_iff_nil, elem_of_nil_inv.
    intros z [-> ?]%list_elem_of_filter. done.
  - rewrite filter_cons_False by (intros ->; done). by apply IH.
Qed.

(** An accepted move of a stone changes a cell. *)
Lemma play_move_mutates (b b' : Board) (p c : Z) :
  WF b → play_move b p c = Ret (true, b') → c ≠ EMPTY →
  board b' ≠ board b.
Proof.
  intros Hwf Hplay Hc. unfold play_move in Hplay.
  destruct (play_move_over_spec b Hwf) as (over & Hover & _).
  rewrite Hover, bind_Ret_l in Hplay. cbn beta iota in Hplay.
  destruct over; [discriminate |].
  unfold try_except in Hplay.
  destruct (_ ≫= _) as [[ok x] | e |] eqn:Hbody in Hplay;
    [| destruct (exn_eqb e ValueError); discriminate | discriminate].
  injection Hplay as -> ->.
  apply bind_Ret in Hbody as (c0 & Hget & Hbody).
  destruct (Z.eqb_spec c0 EMPTY) as [-> | ?]; [| discriminate].
  cbn [negb] in Hbody.
  apply bind_Ret in Hbody as (cells & Hset & Hbody).
  repeat (apply bind_Ret in Hbody as (? & _ & Hbody)).
  injection Hbody as <-. cbn [board set_store set_board].
  unfold py_getitem in Hget. unfold py_setitem in Hset.
  destruct (py_index (board b) p) as [k | |]; try discriminate.
  unfold mbind, res_bind in Hget, Hset. injection Hset as <-.
  destruct (board b !! k) as [c1 |] eqn:Hk; [| discriminate].
  injection Hget as ->. intros Heq.
  apply lookup_lt_Some in Hk as Hlt.
  pose proof (list_lookup_insert_eq (board b) k c Hlt) as Hins.
  rewrite Heq, Hk in Hins. congruence.
Qed.

(** ** Copies of a board *)

(** [copy] gives the new board the cells of the old one in a new array,
    and the very list object of the old one as its [store]. *)
Lemma copy_shares_store (self b : BoardObj) (h h1 : heap) :
  copy self h = Ret (b, h1) →
  board b = board self ∧ store b = store self.
Proof.
  unfold copy. intros Hcopy.
  apply bind_Ret in Hcopy as ([b0 h0] & _ & Hcopy). cbn beta iota in Hcopy.
  repeat (apply bind_Ret in Hcopy as (? & _ & Hcopy)).
  by injection Hcopy as <- <-.
Qed.

(** ** The grid: what the lists do not touch *)

Lemma cells_ok_from_store (b : Board) (st : list (list Z)) (p : Z)
    (cells : list Z) :
  cells_ok_from (set_store b st) p cells = cells_ok_from b p cells.
Proof.
  revert p. induction cells as [| c rest IH]; intros p; [done |].
  simpl. by rewrite IH.
Qed.

Lemma wf_grid_WF (b : Board) : wf_grid b = true ↔ WF (with_lists b).
Proof.
  rewrite <- wf_board_WF. unfold wf_board, wf_grid, with_lists.
  rewrite cells_ok_from_store. cbn [size NS maxpoint board store set_store].
  rewrite bool_decide_eq_true_2 by done. by rewrite andb_true_r.
Qed.

Lemma wf_board_grid (b : Board) : wf_board b = true → wf_grid b = true.
Proof.
  unfold wf_board, wf_grid. rewrite !andb_true_iff. tauto.
Qed.

Lemma neighbors_of_color_for_store (b : Board) (st : list (list Z))
    (color : Z) (nbs nbc : list Z) :
  neighbors_of_color_for (set_store b st) color nbs nbc
  = neighbors_of_color_for b color nbs nbc.
Proof.
  revert nbc. induction nbs as [| nb rest IH]; intros nbc; [done |].
  simpl. unfold get_color. cbn [board set_store].
  destruct (py_getitem (board b) nb) as [c | |]; [| done | done].
  rewrite !bind_Ret_l. cbn beta. by rewrite !IH.
Qed.

Lemma neighbors_of_color_store (b : Board) (st : list (list Z))
    (p color : Z) :
  neighbors_of_color (set_store b st) p color = neighbors_of_color b p color.
Proof. apply neighbors_of_color_for_store. Qed.

Lemma _block_of_while_store (b : Board) (st : list (list Z)) (fuel : nat)
    (color : Z) (marker : list bool) (pointstack popped : list Z) :
  _block_of_while fuel (set_store b st) color marker pointstack popped
  = _block_of_while fuel b color marker pointstack popped.
Proof.
  revert marker pointstack popped.
  induction fuel as [| fuel IH]; intros marker pointstack popped;
    destruct pointstack as [| p rest]; [done | done | done |].
  simpl. rewrite neighbors_of_color_store.
  destruct (neighbors_of_color b p color) as [nbs | |]; [| done | done].
  rewrite !bind_Ret_l. cbn beta.
  destruct (_block_of_for marker rest nbs) as [[m s] | |]; [| done | done].
  rewrite !bind_Ret_l. cbn beta iota. apply IH.
Qed.

Lemma _block_of_trace_store (b : Board) (st : list (list Z)) (seed : Z) :
  _block_of_trace (set_store b st) seed = _block_of_trace b seed.
Proof.
  unfold _block_of_trace, get_color. cbn [board maxpoint set_store].
  destruct (py_getitem (board b) seed) as [c | |]; [| done | done].
  rewrite !bind_Ret_l. cbn beta.
  destruct (py_assert (is_black_white c)) as [[] | |]; [| done | done].
  rewrite !bind_Ret_l. cbn beta.
  destruct (py_setitem _ seed true) as [m | |]; [| done | done].
  rewrite !bind_Ret_l. cbn beta. apply _block_of_while_store.
Qed.

Lemma _block_of_store (b : Board) (st : list (list Z)) (seed : Z) :
  _block_of (set_store b st) seed = _block_of b seed.
Proof. unfold _block_of. by rewrite _block_of_trace_store. Qed.

Lemma _has_liberty_store (b : Board) (st : list (list Z))
    (block : list bool) :
  _has_liberty (set_store b st) block = _has_liberty b block.
Proof.
  unfold _has_liberty. induction (where1d block) as [| s rest IH]; [done |].
  simpl. rewrite neighbors_of_color_store.
  destruct (neighbors_of_color b s EMPTY) as [[| ? ?] | |]; try done.
Qed.

Lemma _is_surrounded_for_store (b : Board) (st : list (list Z)) (color : Z)
    (nbs : list Z) :
  _is_surrounded_for (set_store b st) color nbs
  = _is_surrounded_for b color nbs.
Proof.
  induction nbs as [| nb rest IH]; [done |].
  simpl. destruct (py_getitem (board b) nb) as [c | |]; [| done | done].
  rewrite !bind_Ret_l. cbn beta. by rewrite IH.
Qed.

Lemma is_eye_for_store (b : Board) (st : list (list Z)) (opp : Z)
    (ds : list Z) (n e : Z) :
  is_eye_for (set_store b st) opp ds n e = is_eye_for b opp ds n e.
Proof.
  revert n e. induction ds as [| d rest IH]; intros n e; [done |].
  simpl. destruct (py_getitem (board b) d) as [c | |]; [| done | done].
  rewrite !bind_Ret_l. cbn beta. by rewrite !IH.
Qed.

Lemma is_eye_store (b : Board) (st : list (list Z)) (p c : Z) :
  is_eye (set_store b st) p c = is_eye b p c.
Proof.
  unfold is_eye, _is_surrounded. rewrite _is_surrounded_for_store.
  cbn [NS set_store _neighbors _diag_neighbors].
  destruct (_is_surrounded_for b c _) as [[] | |]; [| done | done | done].
  rewrite !bind_Ret_l. cbn beta iota. simpl negb. cbn iota.
  by rewrite is_eye_for_store.
Qed.

Lemma _detect_and_process_capture_store (b : Board) (st : list (list Z))
    (q : Z) :
  _detect_and_process_capture (set_store b st) q
  = '(flag, b') ← _detect_and_process_capture b q;
    Ret (flag, set_store b' st).
Proof.
  unfold _detect_and_process_capture. rewrite _block_of_store.
  destruct (_block_of b q) as [marker | |]; [| done | done].
  rewrite !bind_Ret_l. cbn beta. rewrite _has_liberty_store.
  destruct (_has_liberty b marker) as [[] | |]; [| | done | done].
  - by rewrite !bind_Ret_l.
  - rewrite !bind_Ret_l. cbn beta iota. simpl negb. cbn iota.
    cbn [board set_store].
    destruct (py_setitems (board b) (where1d marker) EMPTY)
      as [cells | |]; [| done | done].
    by rewrite !bind_Ret_l.
Qed.

(** ** The grid: neighbours by row and column *)

Lemma on_board_coords (b : Board) (p : Z) :
  on_board b p = true ↔
  1 ≤ row_of b p ≤ size b ∧ 1 ≤ col_of b p ≤ size b.
Proof.
  unfold on_board, row_of, col_of.
  rewrite !andb_true_iff, !Z.leb_le. tauto.
Qed.

Lemma div_mod_unique (n a r a' r' : Z) :
  0 ≤ r < n → 0 ≤ r' < n → n * a + r = n * a' + r' → a = a' ∧ r = r'.
Proof. intros Hr Hr' Heq. assert (a = a') by nia. subst. lia. Qed.

(** The row and the column of [row * NS + col]. *)
Lemma coords_of_point (b : Board) (row col : Z) :
  0 ≤ col < NS b →
  row_of b (row * NS b + col) = row ∧ col_of b (row * NS b + col) = col.
Proof.
  intros Hcol. unfold row_of, col_of.
  pose proof (Z.div_mod (row * NS b + col) (NS b) ltac:(lia)) as Hdm.
  pose proof (Z.mod_pos_bound (row * NS b + col) (NS b) ltac:(lia)) as Hm.
  destruct (div_mod_unique (NS b) row col
              ((row * NS b + col) / NS b) ((row * NS b + col) mod NS b));
    [lia | lia | lia | done].
Qed.

Lemma point_of_coords (b : Board) (p : Z) :
  NS b ≠ 0 → p = row_of b p * NS b + col_of b p.
Proof.
  intros HNS. unfold row_of, col_of.
  pose proof (Z.div_mod p (NS b) HNS). lia.
Qed.

(** Between playable points, the neighbours that the code takes are the
    orthogonal neighbours on the grid. *)
Lemma orthogonal_neighbors (b : Board) (p q : Z) :
  NS b = size b + 1 → 0 ≤ size b →
  on_board b p = true → on_board b q = true →
  q ∈ _neighbors b p ↔ orthogonal b p q.
Proof.
  intros HNS Hsize [Hpr Hpc]%on_board_coords [Hqr Hqc]%on_board_coords.
  pose proof (point_of_coords b p ltac:(lia)) as Hp.
  pose proof (point_of_coords b q ltac:(lia)) as Hq.
  unfold _neighbors, orthogonal, orthogonal_steps.
  rewrite !elem_of_cons, elem_of_nil. split.
  - intros Hin.
    assert (Hcases :
      (row_of b q = row_of b p + 0 ∧ col_of b q = col_of b p + -1)
      ∨ (row_of b q = row_of b p + 0 ∧ col_of b q = col_of b p + 1)
      ∨ (row_of b q = row_of b p + -1 ∧ col_of b q = col_of b p + 0)
      ∨ (row_of b q = row_of b p + 1 ∧ col_of b q = col_of b p + 0)).
    { destruct Hin as [Hin | [Hin | [Hin | [Hin | []]]]].
      - left.
        destruct (div_mod_unique (NS b) (row_of b q) (col_of b q)
                    (row_of b p) (col_of b p - 1)); lia.
      - right; left.
        destruct (decide (col_of b p = size b)) as [Hlast | Hin'].
        + destruct (div_mod_unique (NS b) (row_of b q) (col_of b q)
                      (row_of b p + 1) 0); lia.
        + destruct (div_mod_unique (NS b) (row_of b q) (col_of b q)
                      (row_of b p) (col_of b p + 1)); lia.
      - right; right; left.
        destruct (div_mod_unique (NS b) (row_of b q) (col_of b q)
                    (row_of b p - 1) (col_of b p)); lia.
      - right; right; right.
        destruct (div_mod_unique (NS b) (row_of b q) (col_of b q)
                    (row_of b p + 1) (col_of b p)); lia. }
    destruct Hcases as [H | [H | [H | H]]].
    + exists (0, -1). rewrite !elem_of_cons. tauto.
    + exists (0, 1). rewrite !elem_of_cons. tauto.
    + exists (-1, 0). rewrite !elem_of_cons. tauto.
    + exists (1, 0). rewrite !elem_of_cons. tauto.
  - intros ([d1 d2] & Hd & Hr & Hc). cbn [fst snd] in Hr, Hc.
    rewrite !elem_of_cons, elem_of_nil in Hd.
    destruct Hd as [Hd | [Hd | [Hd | [Hd | []]]]];
      injection Hd as -> ->; nia.
Qed.

(** Over cells of a stone colour, being reached along the neighbours that
    the code takes is being reached by orthogonal steps on the grid. *)
Lemma connected_reachable (b : Board) (c seed q : Z) :
  WF b → is_black_white c = true →
  connected b c seed q ↔ reachable b c seed q.
Proof.
  intros Hwf Hc. pose proof (wf_size b Hwf). split.
  - induction 1 as [Hseed | q n Hq IH Hn Hcell]; [by constructor |].
    apply (reachable_step b c seed q n); [done | | done].
    apply orthogonal_neighbors;
      [apply (wf_NS b Hwf) | lia | | | done];
      eapply wf_stone_on_board; eauto using connected_cell.
  - induction 1 as [Hseed | q n Hq IH Hn Hcell]; [by constructor |].
    apply (connected_step b c seed q n); [done | | done].
    apply orthogonal_neighbors;
      [apply (wf_NS b Hwf) | lia | | | done];
      eapply wf_stone_on_board; eauto using connected_cell.
Qed.

Lemma has_liberty_liberty (b : Board) (c seed : Z) :
  WF b → is_black_white c = true →
  has_liberty b c seed ↔ liberty b c seed.
Proof.
  intros Hwf Hc. pose proof (wf_size b Hwf).
  unfold has_liberty, liberty. split.
  - intros (q & n & Hq & Hn & He). exists q, n.
    split_and!; [by apply connected_reachable | | done].
    apply orthogonal_neighbors;
      [apply (wf_NS b Hwf) | lia | | | done].
    + eapply wf_stone_on_board; eauto using connected_cell.
    + by eapply wf_empty_on_board.
  - intros (q & n & Hq & Hn & He). exists q, n.
    apply connected_reachable in Hq; [| done | done].
    split_and!; [done | | done].
    apply orthogonal_neighbors;
      [apply (wf_NS b Hwf) | lia | | | done].
    + eapply wf_stone_on_board; eauto using connected_cell.
    + by eapply wf_empty_on_board.
Qed.

(** Around a playable point the cell that the code reads at an offset of
    rows and columns holds the colour of the grid there: the content of a
    playable point, BORDER on the frame. *)
Lemma grid_color_offset (b : Board) (p dr dc : Z) :
  WF b → on_board b p = true → -1 ≤ dr ≤ 1 → -1 ≤ dc ≤ 1 →
  grid_color b (row_of b p + dr) (col_of b p + dc)
  = color_at b (p + dr * NS b + dc).
Proof.
  intros Hwf Hon Hdr Hdc.
  pose proof (wf_size b Hwf) as Hsize. pose proof (wf_NS b Hwf) as HNS.
  pose proof (wf_on_board_room b p Hwf Hon) as Hroom.
  pose proof Hon as [Hpr Hpc]%on_board_coords.
  pose proof (point_of_coords b p ltac:(lia)) as Hp.
  set (i := p + dr * NS b + dc).
  assert (Hi : i = (row_of b p + dr) * NS b + (col_of b p + dc))
    by (unfold i; lia).
  unfold grid_color.
  destruct ((1 <=? row_of b p + dr) && (row_of b p + dr <=? size b)
            && (1 <=? col_of b p + dc) && (col_of b p + dc <=? size b))
    eqn:Hgrid.
  - by rewrite Hi.
  - destruct (color_at_is_Some b i) as [c0 Hc0]; [unfold i; nia |].
    rewrite Hc0. f_equal.
    pose proof (wf_cells b Hwf i c0 Hc0) as Hok. unfold cell_ok in Hok.
    destruct (on_board b i) eqn:Hboard.
    + exfalso. apply on_board_coords in Hboard as [Hir Hic].
      destruct (decide (col_of b p + dc = NS b)) as [Hlast | Hin].
      * destruct (coords_of_point b (row_of b p + dr + 1) 0) as [_ Hcol];
          [lia |].
        replace ((row_of b p + dr + 1) * NS b + 0) with i in Hcol by lia.
        lia.
      * destruct (coords_of_point b (row_of b p + dr) (col_of b p + dc))
          as [Hrow Hcol]; [lia |].
        rewrite <- Hi in Hrow, Hcol.
        rewrite !andb_false_iff, !Z.leb_gt in Hgrid. lia.
    + apply Z.eqb_eq in Hok. by subst.
Qed.

Lemma neighbor_colors_orthogonal (b : Board) (p : Z) :
  WF b → on_board b p = true →
  neighbor_colors b orthogonal_steps p = color_at b <$> _neighbors b p.
Proof.
  intros Hwf Hon. unfold neighbor_colors, orthogonal_steps, _neighbors.
  cbn [map fmap list_fmap fst snd].
  rewrite !(grid_color_offset b p) by (done || lia).
  repeat (apply (f_equal2 cons); [apply (f_equal (color_at b)); lia |]).
  done.
Qed.

Lemma neighbor_colors_diagonal (b : Board) (p : Z) :
  WF b → on_board b p = true →
  neighbor_colors b diagonal_steps p = color_at b <$> _diag_neighbors b p.
Proof.
  intros Hwf Hon. unfold neighbor_colors, diagonal_steps, _diag_neighbors.
  cbn [map fmap list_fmap fst snd].
  rewrite !(grid_color_offset b p) by (done || lia).
  repeat (apply (f_equal2 cons); [apply (f_equal (color_at b)); lia |]).
  done.
Qed.

Lemma count_neighbors_fmap (b : Board) (c : Z) (ps : list Z) :
  count_neighbors c (color_at b <$> ps) = count_color b c ps.
Proof.
  unfold count_neighbors, count_color. f_equal. f_equal.
  induction ps as [| p rest IH]; [done |].
  rewrite fmap_cons, !filter_cons. unfold cell at 1.
  destruct (decide (color_at b p = Some c)); simpl; by rewrite IH.
Qed.

(** [is_eye] in the terms of the grid. *)
Lemma is_eye_grid (b : Board) (p c : Z) :
  WF b → on_board b p = true → is_black_white c = true →
  ∃ r, is_eye b p c = Ret r
       ∧ (r = true ↔
          Forall (λ x, x = Some BORDER ∨ x = Some c)
                 (neighbor_colors b orthogonal_steps p)
          ∧ count_neighbors (opponent c) (neighbor_colors b diagonal_steps p)
            ≤ if decide (Some BORDER ∈ neighbor_colors b diagonal_steps p)
              then 0 else 1).
Proof.
  intros Hwf Hon Hc.
  destruct (is_eye_correct b p c Hwf Hon Hc) as (r & Hrun & Hr).
  exists r. split; [done |]. rewrite Hr.
  rewrite neighbor_colors_orthogonal, neighbor_colors_diagonal by done.
  rewrite count_neighbors_fmap, Forall_fmap, Forall_forall.
  assert (Hedge :
    Exists (λ d, cell b d BORDER) (_diag_neighbors b p)
    ↔ Some BORDER ∈ color_at b <$> _diag_neighbors b p).
  { rewrite Exists_exists, list_elem_of_fmap. unfold cell.
    split; intros (d & H1 & H2); exists d; by split. }
  destruct (decide (Exists _ _)) as [He | He],
    (decide (Some BORDER ∈ _)) as [He' | He']; try tauto.
Qed.

(** ** The grid: the vocabulary does not read the lists *)

Lemma reachable_store (b : Board) (st : list (list Z)) (c seed q : Z) :
  reachable (set_store b st) c seed q ↔ reachable b c seed q.
Proof.
  split; (induction 1 as [Hseed | q n Hq IH Hn Hcell];
    [by apply reachable_seed
    | by apply (reachable_step _ c seed q n)]).
Qed.

Lemma liberty_store (b : Board) (st : list (list Z)) (c seed : Z) :
  liberty (set_store b st) c seed ↔ liberty b c seed.
Proof.
  unfold liberty. split; intros (q & n & Hq & Hn & He); exists q, n;
    (split_and!; [by apply reachable_store in Hq | done | done])
    || (split_and!; [by apply reachable_store | done | done]).
Qed.

Lemma reachable_cell (b : Board) (c seed q : Z) :
  reachable b c seed q → cell b q c.
Proof. by intros []. Qed.

(** The marks of [_block_of] on a grid, whatever the lists hold. *)
Lemma _block_of_trace_grid (b : Board) (seed c : Z) :
  WF (with_lists b) → cell b seed c → is_black_white c = true →
  ∃ marker popped,
    _block_of_trace b seed = Ret (marker, popped)
    ∧ length marker = length (board b)
    ∧ marked marker seed
    ∧ (∀ q, marked marker q ↔ reachable b c seed q)
    ∧ (∀ q n, marked marker q → orthogonal b q n → cell b n c →
              marked marker n)
    ∧ NoDup popped
    ∧ (∀ q, marked marker q ↔ q ∈ popped).
Proof.
  intros Hwf Hseed Hc. pose proof (wf_size _ Hwf) as Hsize.
  pose proof (wf_NS _ Hwf) as HNS.
  destruct (_block_of_trace_spec (with_lists b) seed c Hwf Hseed Hc)
    as (marker & popped & Htrace & Hlen & Hms & Hconn & Hclosed & Hnd & Hpop).
  unfold with_lists in Htrace. rewrite _block_of_trace_store in Htrace.
  destruct (_block_of_spec (with_lists b) seed c Hwf Hseed Hc)
    as (marker' & Hblock & _ & Hmk).
  unfold _block_of, with_lists in Hblock.
  rewrite _block_of_trace_store, Htrace in Hblock.
  injection Hblock as <-.
  assert (Hreach : ∀ q, marked marker q ↔ reachable b c seed q).
  { intros q. rewrite Hmk, (connected_reachable _ c seed q Hwf Hc).
    apply reachable_store. }
  exists marker, popped. split_and!; try done.
  intros q n Hq Hn Hcell. apply (Hclosed q n Hq); [| done].
  apply (orthogonal_neighbors (with_lists b)); [done | lia | | | done].
  - apply Hmk, connected_cell in Hq. by eapply wf_stone_on_board.
  - by eapply (wf_stone_on_board (with_lists b)).
Qed.

(** One stone in the block: the list of the marks has one element. *)
Lemma single_mark (marker : list bool) (q : Z) :
  marked marker q →
  length (where1d marker) = 1%nat ↔ ∀ x, marked marker x → x = q.
Proof.
  intros Hq. apply elem_of_where1d in Hq.
  pose proof (where1d_from_sorted 0 marker) as Hsorted.
  fold (where1d marker) in Hsorted. apply lt_sorted_NoDup in Hsorted.
  setoid_rewrite <- elem_of_where1d.
  destruct (where1d marker) as [| a [| a' rest]].
  - by apply elem_of_nil in Hq.
  - apply list_elem_of_singleton in Hq as ->. split; [| done].
    intros _ x Hx. by apply list_elem_of_singleton in Hx.
  - split; [done |]. intros Hall. exfalso.
    assert (a = q) as -> by (apply Hall; by left).
    assert (a' = q) as -> by (apply Hall; right; by left).
    apply NoDup_cons in Hsorted as [Hnotin _]. apply Hnotin. by left.
Qed.

(** What [_detect_and_process_capture] does on a grid, whatever the lists
    hold. *)
Lemma capture_grid (b : Board) (q c : Z) :
  WF (with_lists b) → cell b q c → is_black_white c = true →
  ∃ marker,
    _block_of b q = Ret marker
    ∧ (∀ x, marked marker x ↔ reachable b c q x)
    ∧ (∃ r, _has_liberty b marker = Ret r ∧ (r = true ↔ liberty b c q))
    ∧ (liberty b c q → _detect_and_process_capture b q = Ret (None, b))
    ∧ (¬ liberty b c q →
       ∃ cells,
         _detect_and_process_capture b q
         = Ret (if decide (length (where1d marker) = 1%nat)
                then Some q else None,
                set_board b cells)
         ∧ length cells = length (board b)
         ∧ (∀ x, reachable b c q x → cell (set_board b cells) x EMPTY)
         ∧ (∀ x, ¬ reachable b c q x →
                 color_at (set_board b cells) x = color_at b x)
         ∧ WF (with_lists (set_board b cells))).
Proof.
  intros Hwf Hq Hc.
  destruct (_block_of_spec (with_lists b) q c Hwf Hq Hc)
    as (marker & Hblock & Hlen & Hmk0).
  destruct (_has_liberty_block (with_lists b) q c marker Hwf Hc Hmk0)
    as (r & Hlib & Hr0).
  unfold with_lists in Hblock, Hlib.
  rewrite _block_of_store in Hblock. rewrite _has_liberty_store in Hlib.
  change (length (board (with_lists b))) with (length (board b)) in Hlen.
  assert (Hmk : ∀ x, marked marker x ↔ reachable b c q x).
  { intros x. rewrite Hmk0, (connected_reachable _ c q x Hwf Hc).
    apply reachable_store. }
  assert (Hr : r = true ↔ liberty b c q).
  { rewrite Hr0, (has_liberty_liberty _ c q Hwf Hc). apply liberty_store. }
  exists marker. split_and!; [done | done | by exists r | |].
  - intros Hl. unfold _detect_and_process_capture.
    rewrite Hblock, bind_Ret_l, Hlib, bind_Ret_l.
    apply Hr in Hl. by rewrite Hl.
  - intros Hl. unfold _detect_and_process_capture.
    rewrite Hblock, bind_Ret_l, Hlib, bind_Ret_l.
    destruct r; [exfalso; by apply Hl, Hr |]. cbn [negb].
    destruct (py_setitems_spec (where1d marker) EMPTY (board b))
      as (cells & -> & Hlen' & Hcells).
    { intros i Hi%elem_of_where1d%marked_lt. lia. }
    rewrite bind_Ret_l. exists cells.
    assert (Hin : ∀ x, reachable b c q x → cell (set_board b cells) x EMPTY).
    { intros x Hx%Hmk. pose proof (marked_lt _ _ Hx) as Hx'.
      apply color_at_Some. split; [lia |]. cbn [board set_board].
      rewrite Hcells by lia. rewrite decide_True; [done |].
      by apply elem_of_where1d. }
    assert (Hout : ∀ x, ¬ reachable b c q x →
                        color_at (set_board b cells) x = color_at b x).
    { intros x Hx. unfold color_at. destruct (Z.leb_spec 0 x); [| done].
      cbn [board set_board]. rewrite Hcells by lia.
      rewrite decide_False; [done |]. by rewrite elem_of_where1d, Hmk. }
    split_and!; [| done | done | done |].
    + do 2 f_equal.
      destruct (Z.eqb_spec (Z.of_nat (length (where1d marker))) 1);
        [rewrite decide_True by lia | rewrite decide_False by lia]; done.
    + pose proof Hwf as [H1 H2 H3 H4 H5 H6].
      split; [done | done | done | | | done].
      * cbn [board set_board with_lists set_store]. rewrite Hlen'.
        apply H4.
      * intros p c0 Hp.
        change (cell_ok (with_lists (set_board b cells)) p c0)
          with (cell_ok (with_lists b) p c0).
        destruct (decide (marked marker p)) as [Hm | Hm].
        -- apply Hmk in Hm. pose proof (Hin p Hm) as He.
           unfold cell in Hp, He.
           change (color_at (with_lists (set_board b cells)) p)
             with (color_at (set_board b cells) p) in Hp.
           rewrite He in Hp. injection Hp as <-.
           unfold cell_ok.
           by rewrite (wf_stone_on_board (with_lists b) p c Hwf
                         (reachable_cell b c q p Hm) Hc).
        -- apply H5. unfold cell in *.
           change (color_at (with_lists b) p) with (color_at b p).
           rewrite <- Hp. symmetry. apply Hout. by rewrite <- Hmk.
Qed.

Lemma neighbor_colors_store (b : Board) (st : list (list Z))
    (steps : list (Z * Z)) (p : Z) :
  neighbor_colors (set_store b st) steps p = neighbor_colors b steps p.
Proof. reflexivity. Qed.

Lemma no_empty_points (b : Board) :
  get_empty_points b = [] ↔ ∀ q, ¬ cell b q EMPTY.
Proof.
  change (get_empty_points b) with (stones b EMPTY). split.
  - intros Hnil q Hq%elem_of_stones. rewrite Hnil in Hq.
    by apply elem_of_nil in Hq.
  - intros Hnone. destruct (stones b EMPTY) as [| q rest] eqn:Hs; [done |].
    exfalso. apply (Hnone q), elem_of_stones. rewrite Hs. by left.
Qed.

(** ** The claims *)

(** C1: [is_legal(p, c)] is meant to leave the board it is called on
    unchanged, but the copy it plays on holds the same [store] object.  On
    a new board of size 2, [is_legal(4, BLACK)] answers [True] and leaves 4
    in the black list of the board itself, whose cell 4 is still EMPTY. *)
Theorem is_legal_updates_shared_store :
  ∃ self h h',
    new_SimpleGoBoard 2 [] = Ret (self, h)
    ∧ store_of h self = Some [[]; []; []]
    ∧ is_legal self 4 BLACK h = Ret (true, h')
    ∧ store_of h' self = Some [[]; [4]; []]
    ∧ board self !! 4%nat = Some EMPTY.
Proof.
  exists (MkBoard 2 3 1 None BLACK 13 [3; 3; 3; 3; 0; 0; 3; 0; 0; 3; 3; 3; 3]
                  0%nat),
    [[[]; []; []]], [[[]; [4]; []]; [[]; []; []]].
  split_and!; vm_compute; reflexivity.
Qed.

(** C2: on a well-formed board [checkWin(c)] for a stone colour [c] returns
    true exactly when five cells of colour [c] lie in a row in one of the
    four scan directions; it returns false when no run is longer than 4 and
    true when some run has length exactly 6. *)
Theorem checkWin_five_in_a_row (b : Board) (c : Z) :
  wf_board b = true → is_black_white c = true →
  ∃ r b',
    checkWin b c = Ret (r, b')
    ∧ (r = true ↔ five_in_a_row b c)
    ∧ ((∀ delta p n, delta ∈ directions b → maximal_run b c delta p n →
                     n ≤ 4) → r = false)
    ∧ ((∃ delta p, delta ∈ directions b ∧ maximal_run b c delta p 6) →
       r = true).
Proof.
  intros Hwf%wf_board_WF Hc.
  destruct (checkWin_correct b c Hwf Hc) as (r & Hrun & Hr).
  exists r, b. split_and!; [done | done | |].
  - intros Hshort. destruct r; [| done].
    destruct (five_in_a_row_maximal b c Hwf) as (delta & p & n & Hd & Hmax & Hn);
      [by apply Hr |].
    specialize (Hshort _ _ _ Hd Hmax). lia.
  - intros (delta & p & Hd & Hrun6 & _). apply Hr. exists delta, p.
    split; [done |]. intros k Hk. apply Hrun6. lia.
Qed.

Lemma checkWin_five_in_a_row_witness :
  ∃ r b',
    checkWin board_black_row BLACK = Ret (r, b')
    ∧ (r = true ↔ five_in_a_row board_black_row BLACK)
    ∧ ((∀ delta p n, delta ∈ directions board_black_row →
                     maximal_run board_black_row BLACK delta p n → n ≤ 4) →
       r = false)
    ∧ ((∃ delta p, delta ∈ directions board_black_row
                   ∧ maximal_run board_black_row BLACK delta p 6) →
       r = true).
Proof.
  apply (checkWin_five_in_a_row board_black_row BLACK);
    vm_compute; reflexivity.
Defined.

(** C3: on a well-formed board, after [checkWin(c)] and after
    [checkState()] the scratch list is empty, both colour lists hold their
    elements of before the call in the same ascending order, and no cell
    has changed. *)
Theorem checkWin_checkState_restore (b : Board) (c : Z) :
  wf_board b = true → is_black_white c = true →
  (∃ r b', checkWin b c = Ret (r, b') ∧ restored b b')
  ∧ (∃ s b', checkState b = Ret (s, b') ∧ restored b b').
Proof.
  intros Hwf%wf_board_WF Hc. split.
  - destruct (checkWin_correct b c Hwf Hc) as (r & Hrun & _).
    exists r, b. split; [done |]. by apply WF_restored.
  - destruct (checkState_correct b Hwf) as (s & Hs).
    exists s, b. split; [done |]. by apply WF_restored.
Qed.

Lemma checkWin_checkState_restore_witness :
  (∃ r b', checkWin board_open WHITE = Ret (r, b') ∧ restored board_open b')
  ∧ (∃ s b', checkState board_open = Ret (s, b') ∧ restored board_open b').
Proof.
  apply (checkWin_checkState_restore board_open WHITE);
    vm_compute; reflexivity.
Defined.

(** C4: on a well-formed board, for a valid point [p] and a stone colour
    [c], [play_move(p, c)] fails exactly when the game is decided, or no
    cell is EMPTY, or the cell at [p] is not EMPTY; otherwise it succeeds,
    sets the cell at [p] to [c] and puts [p] into the list of [c], which
    stays ascending without duplicates and holds [p] once.  The game is
    decided, [checkWin] holding for a colour, exactly when a colour has
    five in a row. *)
Theorem play_move_spec (b : Board) (p c : Z) :
  wf_board b = true → 0 ≤ p < maxpoint b → is_black_white c = true →
  ∃ ok b',
    play_move b p c = Ret (ok, b')
    ∧ (decided b ↔ five_in_a_row b WHITE ∨ five_in_a_row b BLACK)
    ∧ (ok = false ↔
       decided b ∨ (∀ q, ¬ cell b q EMPTY) ∨ ¬ cell b p EMPTY)
    ∧ (ok = true →
       board b' = <[Z.to_nat p := c]> (board b)
       ∧ cell b' p c
       ∧ wf_board b' = true
       ∧ ∃ l l',
           py_getitem (store b) c = Ret l
           ∧ py_getitem (store b') c = Ret l'
           ∧ l' ≡ₚ p :: l
           ∧ StronglySorted Z.lt l'
           ∧ NoDup l'
           ∧ length (filter (λ x, x = p) l') = 1%nat).
Proof.
  intros Hwf%wf_board_WF Hp Hc.
  pose proof (decided_five b Hwf) as Hfive.
  assert (Hdec : decided b ∨ ¬ decided b).
  { rewrite Hfive.
    destruct (five_in_a_row_dec b WHITE Hwf eq_refl),
      (five_in_a_row_dec b BLACK Hwf eq_refl); tauto. }
  destruct Hdec as [Hdec | Hopen];
    [| destruct (decide (cell b p EMPTY)) as [Hempty | Hfull]].
  - destruct (play_move_over_spec b Hwf) as (over & Hover & Hiff).
    assert (over = true) as -> by (apply Hiff; by left).
    exists false, b. unfold play_move. rewrite Hover.
    split_and!; [done | done | | done]. split; [by left | done].
  - exists true, (place b p c).
    pose proof (WF_place b p c Hwf Hc Hempty) as Hwf'.
    split_and!; [by apply play_move_success | done | |].
    + split; [done |]. intros [? | [Hnone | ?]]; [done | | done].
      by destruct (Hnone p).
    + intros _. pose proof (color_at_lt _ _ _ Hempty) as Hlt.
      assert (Hcell : cell (place b p c) p c).
      { unfold cell, place.
        change (color_at (set_store ?x _) p) with (color_at x p).
        rewrite color_at_insert by done. by rewrite decide_True. }
      split_and!; [done | done | by apply wf_board_WF |].
      exists (stones b c), (stones (place b p c) c).
      pose proof (stones_sorted (place b p c) c) as Hsorted.
      assert (Hin : p ∈ stones (place b p c) c) by by apply elem_of_stones.
      split_and!.
      * eapply store_get_colour, wf_store_is; done.
      * eapply store_get_colour, wf_store_is; done.
      * change (stones (place b p c) c)
          with (stones (set_board b (<[Z.to_nat p := c]> (board b))) c).
        rewrite <- stones_insert_same;
          [| done | apply is_black_white_cases in Hc as [-> | ->]; done].
        unfold py_sort. rewrite merge_sort_Permutation.
        symmetry. apply Permutation_cons_append.
      * done.
      * by apply lt_sorted_NoDup.
      * apply NoDup_count_one; [by apply lt_sorted_NoDup | done].
  - destruct (color_at_is_Some b p) as [c0 Hc0];
      [rewrite (wf_length b Hwf); lia |].
    assert (Hc0' : c0 ≠ EMPTY) by (intros ->; done).
    exists false, b. unfold play_move.
    destruct (play_move_over_spec b Hwf) as (over & -> & _).
    rewrite bind_Ret_l. cbn beta iota.
    split_and!; [| done | split; [intros _; by right; right | done] | done].
    destruct over; [done |].
    rewrite (get_color_at _ _ _ Hc0 : py_getitem (board b) p = _), bind_Ret_l.
    by destruct (Z.eqb_spec c0 EMPTY).
Qed.

Lemma play_move_spec_witness :
  ∃ ok b',
    play_move board_open 9 BLACK = Ret (ok, b')
    ∧ (decided board_open
       ↔ five_in_a_row board_open WHITE ∨ five_in_a_row board_open BLACK)
    ∧ (ok = false ↔
       decided board_open ∨ (∀ q, ¬ cell board_open q EMPTY)
       ∨ ¬ cell board_open 9 EMPTY)
    ∧ (ok = true →
       board b' = <[Z.to_nat 9 := BLACK]> (board board_open)
       ∧ cell b' 9 BLACK
       ∧ wf_board b' = true
       ∧ ∃ l l',
           py_getitem (store board_open) BLACK = Ret l
           ∧ py_getitem (store b') BLACK = Ret l'
           ∧ l' ≡ₚ 9 :: l
           ∧ StronglySorted Z.lt l'
           ∧ NoDup l'
           ∧ length (filter (λ x, x = 9) l') = 1%nat).
Proof.
  apply (play_move_spec board_open 9 BLACK);
    [vm_compute; reflexivity | simpl; lia | vm_compute; reflexivity].
Defined.

(** C5: on a well-formed board, when [play_move(p, c)] returns failure the
    cells and both colour lists are as before the call; when it returns
    success for a stone colour a cell has changed.  Rejection and mutation
    exclude each other. *)
Theorem play_move_failure_unchanged (b b' : Board) (p c : Z) (ok : bool) :
  wf_board b = true → play_move b p c = Ret (ok, b') →
  (ok = false →
   b' = b ∧ board b' = board b
   ∧ black_list b' = black_list b ∧ white_list b' = white_list b)
  ∧ (ok = true → is_black_white c = true → board b' ≠ board b).
Proof.
  intros Hwf%wf_board_WF Hplay. split.
  - intros ->. by rewrite (play_move_failure b b' p c Hwf Hplay).
  - intros -> Hc. apply (play_move_mutates b b' p c Hwf Hplay).
    apply is_black_white_cases in Hc as [-> | ->]; done.
Qed.

Lemma play_move_failure_unchanged_witness :
  (false = false →
   board_black_row = board_black_row
   ∧ board board_black_row = board board_black_row
   ∧ black_list board_black_row = black_list board_black_row
   ∧ white_list board_black_row = white_list board_black_row)
  ∧ (false = true → is_black_white WHITE = true →
     board board_black_row ≠ board board_black_row).
Proof.
  apply (play_move_failure_unchanged board_black_row board_black_row
           19 WHITE false); vm_compute; reflexivity.
Defined.

(** C6, as the code has it: on a board whose grid satisfies the invariants
    of the data model, whatever its lists hold, for a point [q] that holds
    a stone, [_detect_and_process_capture(q)] computes the group of [q],
    the points reached from [q] by orthogonal steps on the grid through
    cells of its colour; [_has_liberty] holds of it exactly when a point of
    the group has an EMPTY orthogonal neighbour.  With a liberty the call
    changes nothing and returns [None].  Without one it sets every cell of
    the group to EMPTY, leaves the other cells and [store] alone, and
    returns [q] when the group is the one stone at [q] and [None]
    otherwise; the grid still satisfies the invariants. *)
Theorem capture_spec (b : Board) (q c : Z) :
  wf_grid b = true → cell b q c → is_black_white c = true →
  ∃ marker,
    _block_of b q = Ret marker
    ∧ (∀ x, marked marker x ↔ reachable b c q x)
    ∧ (∃ r, _has_liberty b marker = Ret r ∧ (r = true ↔ liberty b c q))
    ∧ (liberty b c q → _detect_and_process_capture b q = Ret (None, b))
    ∧ (¬ liberty b c q →
       ∃ b',
         _detect_and_process_capture b q
         = Ret (if decide (length (where1d marker) = 1%nat)
                then Some q else None, b')
         ∧ (length (where1d marker) = 1%nat
            ↔ ∀ x, reachable b c q x → x = q)
         ∧ store b' = store b
         ∧ length (board b') = length (board b)
         ∧ (∀ x, reachable b c q x → cell b' x EMPTY)
         ∧ (∀ x, ¬ reachable b c q x → color_at b' x = color_at b x)
         ∧ wf_grid b' = true).
Proof.
  intros Hwf%wf_grid_WF Hq Hc.
  destruct (capture_grid b q c Hwf Hq Hc)
    as (marker & Hblock & Hmk & Hlib & Hfree & Hnolib).
  exists marker. split_and!; [done | done | done | done |].
  intros Hl. destruct (Hnolib Hl) as (cells & Hrun & Hlen & Hblk & Hrest & Hwf').
  exists (set_board b cells).
  split_and!; [done | | done | done | done | done | by apply wf_grid_WF].
  rewrite (single_mark marker q) by (apply Hmk; by constructor).
  by setoid_rewrite Hmk.
Qed.

Lemma capture_spec_witness :
  ∃ marker,
    _block_of board_one_captured 4 = Ret marker
    ∧ (∀ x, marked marker x ↔ reachable board_one_captured BLACK 4 x)
    ∧ (∃ r, _has_liberty board_one_captured marker = Ret r
            ∧ (r = true ↔ liberty board_one_captured BLACK 4))
    ∧ (liberty board_one_captured BLACK 4 →
       _detect_and_process_capture board_one_captured 4
       = Ret (None, board_one_captured))
    ∧ (¬ liberty board_one_captured BLACK 4 →
       ∃ b',
         _detect_and_process_capture board_one_captured 4
         = Ret (if decide (length (where1d marker) = 1%nat)
                then Some 4 else None, b')
         ∧ (length (where1d marker) = 1%nat
            ↔ ∀ x, reachable board_one_captured BLACK 4 x → x = 4)
         ∧ store b' = store board_one_captured
         ∧ length (board b') = length (board board_one_captured)
         ∧ (∀ x, reachable board_one_captured BLACK 4 x → cell b' x EMPTY)
         ∧ (∀ x, ¬ reachable board_one_captured BLACK 4 x →
                 color_at b' x = color_at board_one_captured x)
         ∧ wf_grid b' = true).
Proof.
  apply (capture_spec board_one_captured 4 BLACK); vm_compute; reflexivity.
Defined.

(** C6, as the claim has it, fails: the call returns [None] when it
    captures the two stones at 4 and 5, and [None] again when it captures
    nothing, so what it returns tells neither the number of stones captured
    nor that there was no capture. *)
Lemma capture_size_not_reported :
  (∃ b', _detect_and_process_capture board_two_captured 4 = Ret (None, b')
         ∧ changed_points board_two_captured b' = [4; 5])
  ∧ (∃ b', _detect_and_process_capture board_one_free 4 = Ret (None, b')
           ∧ changed_points board_one_free b' = []).
Proof.
  split.
  - exists (set_board board_two_captured
              [3; 3; 3; 3; 0; 0; 3; 2; 2; 3; 3; 3; 3]).
    split; vm_compute; reflexivity.
  - exists board_one_free. split; vm_compute; reflexivity.
Qed.

(** C7: for [2 <= size <= MAXSIZE] a new board has [size*size + 3*(size+1)]
    cells, of which the [size*size] playable ones are EMPTY and all others
    BORDER, and its three lists are empty. *)
Theorem fresh_board (n : Z) :
  2 ≤ n ≤ MAXSIZE →
  ∃ b,
    __init__ n = Ret b
    ∧ Z.of_nat (length (board b)) = n * n + 3 * (n + 1)
    ∧ (∀ q, 0 ≤ q < n * n + 3 * (n + 1) →
            cell b q (if on_board b q then EMPTY else BORDER))
    ∧ get_empty_points b = interior_points n
    ∧ Z.of_nat (length (get_empty_points b)) = n * n
    ∧ store b = [[]; []; []]
    ∧ wf_board b = true.
Proof.
  intros Hn.
  destruct (fresh_board_spec n Hn)
    as (b & Hinit & Hlen & Hcells & Hempty & Hstore & Hwf).
  exists b. split_and!; try done.
  - rewrite Hempty. apply length_interior_points. lia.
  - by apply wf_board_WF.
Qed.

Lemma fresh_board_witness :
  ∃ b,
    __init__ 2 = Ret b
    ∧ Z.of_nat (length (board b)) = 2 * 2 + 3 * (2 + 1)
    ∧ (∀ q, 0 ≤ q < 2 * 2 + 3 * (2 + 1) →
            cell b q (if on_board b q then EMPTY else BORDER))
    ∧ get_empty_points b = interior_points 2
    ∧ Z.of_nat (length (get_empty_points b)) = 2 * 2
    ∧ store b = [[]; []; []]
    ∧ wf_board b = true.
Proof. apply (fresh_board 2). unfold MAXSIZE. lia. Defined.

(** C8: on a board whose grid satisfies the invariants of the data model,
    whatever its lists hold, for a point [seed] that holds a stone,
    [_block_of(seed)] ends and returns marks that are connected (the marked
    points are the points reached from [seed] by orthogonal steps on the
    grid through cells of the colour of [seed]) and maximal (every
    orthogonal neighbour of that colour of a marked point is marked); no
    point is taken off the stack twice. *)
Theorem _block_of_connected_maximal (b : Board) (seed c : Z) :
  wf_grid b = true → cell b seed c → is_black_white c = true →
  ∃ marker popped,
    _block_of_trace b seed = Ret (marker, popped)
    ∧ _block_of b seed = Ret marker
    ∧ marked marker seed
    ∧ (∀ q, marked marker q ↔ reachable b c seed q)
    ∧ (∀ q n, marked marker q → orthogonal b q n → cell b n c →
              marked marker n)
    ∧ NoDup popped
    ∧ (∀ q, marked marker q ↔ q ∈ popped).
Proof.
  intros Hwf%wf_grid_WF Hseed Hc.
  destruct (_block_of_trace_grid b seed c Hwf Hseed Hc)
    as (marker & popped & Htrace & Hlen & Hms & Hconn & Hclosed & Hnd & Hpop).
  exists marker, popped. split_and!; try done.
  unfold _block_of. by rewrite Htrace.
Qed.

Lemma _block_of_connected_maximal_witness :
  ∃ marker popped,
    _block_of_trace board_open 7 = Ret (marker, popped)
    ∧ _block_of board_open 7 = Ret marker
    ∧ marked marker 7
    ∧ (∀ q, marked marker q ↔ reachable board_open BLACK 7 q)
    ∧ (∀ q n, marked marker q → orthogonal board_open q n →
              cell board_open n BLACK → marked marker n)
    ∧ NoDup popped
    ∧ (∀ q, marked marker q ↔ q ∈ popped).
Proof.
  apply (_block_of_connected_maximal board_open 7 BLACK);
    vm_compute; reflexivity.
Defined.

(** C9: on a board whose grid satisfies the invariants of the data model,
    whatever its lists hold, for a playable point [p] and a stone colour
    [c], [is_eye(p, c)] returns true exactly when each of the four
    orthogonal neighbours of [p] on the grid is BORDER or [c] and the
    neighbours of the other colour among the four diagonal ones number at
    most 1 when no diagonal neighbour is BORDER, and 0 when one is.  The
    other colour is the stone colour that is not [c]. *)
Theorem is_eye_spec (b : Board) (p c : Z) :
  wf_grid b = true → on_board b p = true → is_black_white c = true →
  ∃ r,
    is_eye b p c = Ret r
    ∧ (r = true ↔
       Forall (λ x, x = Some BORDER ∨ x = Some c)
              (neighbor_colors b orthogonal_steps p)
       ∧ count_neighbors (opponent c) (neighbor_colors b diagonal_steps p)
         ≤ if decide (Some BORDER ∈ neighbor_colors b diagonal_steps p)
           then 0 else 1)
    ∧ is_black_white (opponent c) = true ∧ opponent c ≠ c.
Proof.
  intros Hwf%wf_grid_WF Hon Hc.
  destruct (is_eye_grid (with_lists b) p c Hwf Hon Hc) as (r & Hrun & Hr).
  unfold with_lists in Hrun. rewrite is_eye_store in Hrun.
  exists r. split_and!; [done | done | |];
    apply is_black_white_cases in Hc as [-> | ->]; done.
Qed.

Lemma is_eye_spec_witness :
  ∃ r,
    is_eye board_one_captured 8 WHITE = Ret r
    ∧ (r = true ↔
       Forall (λ x, x = Some BORDER ∨ x = Some WHITE)
              (neighbor_colors board_one_captured orthogonal_steps 8)
       ∧ count_neighbors (opponent WHITE)
           (neighbor_colors board_one_captured diagonal_steps 8)
         ≤ if decide (Some BORDER
                      ∈ neighbor_colors board_one_captured diagonal_steps 8)
           then 0 else 1)
    ∧ is_black_white (opponent WHITE) = true ∧ opponent WHITE ≠ WHITE.
Proof.
  apply (is_eye_spec board_one_captured 8 WHITE); vm_compute; reflexivity.
Defined.

(** C10: for a point whose cell is EMPTY or BORDER, [_block_of] fails its
    [is_black_white] assertion, and so does
    [_detect_and_process_capture]. *)
Theorem _block_of_asserts_stone (b : Board) (p c : Z) :
  get_color b p = Ret c → c = EMPTY ∨ c = BORDER →
  _block_of b p = Exc AssertionError
  ∧ _detect_and_process_capture b p = Exc AssertionError.
Proof.
  intros Hget Hc.
  assert (Hblock : _block_of b p = Exc AssertionError).
  { unfold _block_of, _block_of_trace. rewrite Hget, bind_Ret_l.
    by destruct Hc as [-> | ->]. }
  split; [done |]. unfold _detect_and_process_capture. by rewrite Hblock.
Qed.

Lemma _block_of_asserts_stone_witness :
  _block_of board_open 9 = Exc AssertionError
  ∧ _detect_and_process_capture board_open 9 = Exc AssertionError.
Proof.
  apply (_block_of_asserts_stone board_open 9 EMPTY);
    [vm_compute; reflexivity | by left].
Defined.

(** ** The geometry of the padded array *)

(** From one playable point to the next along a scan direction, the row
    and the column move by the steps of the direction: the border column
    keeps a step from running on into the next row. *)
Lemma on_board_step (b : Board) (delta q : Z) :
  NS b = size b + 1 → 0 ≤ size b → delta ∈ directions b →
  on_board b q = true → on_board b (q + delta) = true →
  row_of b (q + delta) = row_of b q + row_step b delta
  ∧ col_of b (q + delta) = col_of b q + col_step b delta.
Proof.
  intros HNS Hsize Hdelta [Hr Hc]%on_board_coords [Hr' Hc']%on_board_coords.
  unfold row_of, col_of, row_step, col_step in *.
  pose proof (Z.div_mod q (NS b) ltac:(lia)) as Hq.
  pose proof (Z.div_mod (q + delta) (NS b) ltac:(lia)) as Hq'.
  set (r := q / NS b) in *. set (c := q mod NS b) in *.
  assert (Hcases : ∀ dr dc,
            q + delta = NS b * (r + dr) + (c + dc) → 0 ≤ c + dc ≤ NS b →
            (q + delta) / NS b = r + dr ∧ (q + delta) mod NS b = c + dc).
  { intros dr dc Heq Hrange.
    destruct (decide (c + dc = NS b)) as [Hfull | Hless].
    - exfalso.
      assert ((q + delta) mod NS b = 0); [| lia].
      symmetry. apply (Z.mod_unique _ _ (r + dr + 1)); lia.
    - split; symmetry.
      + apply (Z.div_unique _ _ _ (c + dc)); lia.
      + apply (Z.mod_unique _ _ (r + dr)); lia. }
  unfold directions in Hdelta.
  repeat (apply elem_of_cons in Hdelta as [-> | Hdelta]);
    [| | | | by apply elem_of_nil in Hdelta].
  - rewrite Z.eqb_refl. apply (Hcases 0 1); lia.
  - destruct (Z.eqb_spec (NS b) 1); [lia |]. rewrite Z.eqb_refl.
    apply (Hcases 1 0); lia.
  - destruct (Z.eqb_spec (NS b + 1) 1); [lia |].
    destruct (Z.eqb_spec (NS b + 1) (NS b)); [lia |]. rewrite Z.eqb_refl.
    apply (Hcases 1 1); lia.
  - destruct (Z.eqb_spec (NS b - 1) 1) as [H1 | H1].
    + (* size = 1: the direction is the horizontal one *)
      apply (Hcases 0 1); lia.
    + destruct (Z.eqb_spec (NS b - 1) (NS b)); [lia |].
      destruct (Z.eqb_spec (NS b - 1) (NS b + 1)); [lia |].
      destruct (decide (c = 1)) as [Hc1 | Hc1].
      * exfalso. assert ((q + (NS b - 1)) mod NS b = 0); [| lia].
        symmetry. apply (Z.mod_unique _ _ (r + 1)); lia.
      * apply (Hcases 1 (-1)); lia.
Qed.

Lemma wf_cell_on_board (b : Board) (p c : Z) :
  WF b → cell b p c → c ≠ BORDER → on_board b p = true.
Proof.
  intros Hwf Hc Hne. pose proof (wf_cells b Hwf p c Hc) as Hok.
  unfold cell_ok in Hok. destruct (on_board b p); [done |].
  by apply Z.eqb_eq in Hok.
Qed.

Lemma run_line (b : Board) (c delta p n : Z) :
  WF b → c ≠ BORDER → delta ∈ directions b → run b c delta p n →
  ∀ k, 0 ≤ k → k < n →
    row_of b (p + k * delta) = row_of b p + k * row_step b delta
    ∧ col_of b (p + k * delta) = col_of b p + k * col_step b delta.
Proof.
  intros Hwf Hc Hdelta Hrun k Hk. pattern k. revert k Hk.
  apply natlike_ind.
  - intros _. replace (p + 0 * delta) with p by lia. lia.
  - intros k Hk IH Hlt. destruct (IH ltac:(lia)) as [IHr IHc].
    destruct (on_board_step b delta (p + k * delta)) as [Hr Hcol].
    + apply (wf_NS b Hwf).
    + pose proof (wf_size b Hwf). lia.
    + done.
    + eapply wf_cell_on_board; [done | apply Hrun; lia | done].
    + replace (p + k * delta + delta) with (p + Z.succ k * delta) by lia.
      eapply wf_cell_on_board; [done | apply Hrun; lia | done].
    + replace (p + Z.succ k * delta) with (p + k * delta + delta) by lia.
      rewrite Hr, Hcol, IHr, IHc. lia.
Qed.

(** Five in a row needs a board of size five. *)
Lemma five_in_a_row_size (b : Board) (c : Z) :
  WF b → c ≠ BORDER → five_in_a_row b c → 5 ≤ size b.
Proof.
  intros Hwf Hc (delta & p & Hdelta & Hrun).
  destruct (run_line b c delta p 5 Hwf Hc Hdelta Hrun 4 ltac:(lia) ltac:(lia))
    as [Hr Hcol].
  assert (H0 : on_board b p = true).
  { eapply wf_cell_on_board; [done | | done].
    specialize (Hrun 0 ltac:(lia)).
    by replace (p + 0 * delta) with p in Hrun by lia. }
  assert (H4 : on_board b (p + 4 * delta) = true).
  { eapply wf_cell_on_board; [done | apply Hrun; lia | done]. }
  apply on_board_coords in H0 as [Hr0 Hc0], H4 as [Hr4 Hc4].
  pose proof (wf_NS b Hwf) as HNS. pose proof (wf_size b Hwf) as Hsize.
  unfold row_step, col_step in *. unfold directions in Hdelta.
  repeat (apply elem_of_cons in Hdelta as [-> | Hdelta]);
    [| | | | by apply elem_of_nil in Hdelta].
  - rewrite Z.eqb_refl in *. lia.
  - destruct (Z.eqb_spec (NS b) 1); lia.
  - destruct (Z.eqb_spec (NS b + 1) 1); lia.
  - destruct (Z.eqb_spec (NS b - 1) 1); lia.
Qed.

(** ** The state of the game *)

Lemma checkState_result (b : Board) :
  WF b →
  ∃ s, checkState b = Ret (s, b)
       ∧ (five_in_a_row b WHITE → s = Some WHITE)
       ∧ (¬ five_in_a_row b WHITE → five_in_a_row b BLACK → s = Some BLACK)
       ∧ (¬ five_in_a_row b WHITE → ¬ five_in_a_row b BLACK →
          get_empty_points b = [] → s = PASS)
       ∧ (¬ five_in_a_row b WHITE → ¬ five_in_a_row b BLACK →
          get_empty_points b ≠ [] → s = Some (-1)).
Proof.
  intros Hwf. unfold checkState.
  destruct (checkWin_correct b WHITE Hwf eq_refl) as (rw & -> & Hrw).
  rewrite bind_Ret_l. cbn beta iota. destruct rw.
  { eexists. split; [done |]. rewrite <- Hrw.
    split_and!; intros; first [done | exfalso; auto]. }
  destruct (checkWin_correct b BLACK Hwf eq_refl) as (rb & -> & Hrb).
  rewrite bind_Ret_l. cbn beta iota. destruct rb.
  { eexists. split; [done |]. rewrite <- Hrw, <- Hrb.
    split_and!; intros; first [done | exfalso; auto]. }
  destruct (get_empty_points b) as [| e es] eqn:He; cbn.
  - eexists. split; [done |]. rewrite <- Hrw, <- Hrb.
    split_and!; intros; first [done | discriminate].
  - eexists. split; [done |]. rewrite <- Hrw, <- Hrb.
    split_and!; intros; first [done | discriminate].
Qed.

(** ** Counting the points *)

Lemma wf_on_board_cell (b : Board) (p : Z) :
  WF b → on_board b p = true →
  cell b p EMPTY ∨ cell b p BLACK ∨ cell b p WHITE.
Proof.
  intros Hwf Hp. pose proof (wf_on_board_room b p Hwf Hp) as [Hlo Hhi].
  pose proof (wf_NS_pos b Hwf).
  destruct (color_at_is_Some b p ltac:(lia)) as [c Hc].
  pose proof (wf_cells b Hwf p c Hc) as Hok. unfold cell_ok in Hok.
  rewrite Hp, !orb_true_iff, !Z.eqb_eq in Hok. unfold cell.
  destruct Hok as [[-> | ->] | ->]; auto.
Qed.

Lemma wf_elem_of_interior (b : Board) (p : Z) :
  WF b → p ∈ interior_points (size b) ↔ on_board b p = true.
Proof.
  intros Hwf. pose proof (wf_size b Hwf). pose proof (wf_NS b Hwf) as HNS.
  rewrite elem_of_interior_points, (on_board_row b p) by lia.
  by rewrite HNS.
Qed.

(** Every playable point is in exactly one of the three lists of
    positions. *)
Lemma stones_partition (b : Board) :
  WF b →
  stones b EMPTY ++ stones b BLACK ++ stones b WHITE
  ≡ₚ interior_points (size b).
Proof.
  intros Hwf. pose proof (wf_size b Hwf).
  apply NoDup_Permutation.
  - rewrite !NoDup_app. split_and!; try (apply lt_sorted_NoDup, stones_sorted).
    + intros x Hx%elem_of_stones [Hx'%elem_of_stones | Hx'%elem_of_stones]%elem_of_app;
        unfold cell, EMPTY, BLACK, WHITE in *; congruence.
    + intros x Hx%elem_of_stones Hx'%elem_of_stones.
      unfold cell, BLACK, WHITE in *; congruence.
  - apply lt_sorted_NoDup, interior_points_sorted. lia.
  - intros x. rewrite (wf_elem_of_interior b x Hwf), !elem_of_app.
    rewrite !elem_of_stones. split.
    + intros [Hc | [Hc | Hc]]; eapply wf_cell_on_board; done.
    + by apply wf_on_board_cell.
Qed.

Lemma board_count (b : Board) :
  WF b →
  (length (stones b EMPTY) + length (stones b BLACK)
   + length (stones b WHITE))%nat
  = Z.to_nat (size b * size b).
Proof.
  intros Hwf. pose proof (wf_size b Hwf).
  pose proof (length_interior_points (size b) ltac:(lia)) as Hlen.
  rewrite <- (stones_partition b Hwf), !length_app in Hlen. lia.
Qed.

(** ** Moves *)

Lemma cell_place (b : Board) (p c x o : Z) :
  0 ≤ p < Z.of_nat (length (board b)) →
  cell (place b p c) x o ↔ (x = p ∧ o = c) ∨ (x ≠ p ∧ cell b x o).
Proof.
  intros Hp. unfold cell.
  change (color_at (place b p c) x)
    with (color_at (set_board b (<[Z.to_nat p := c]> (board b))) x).
  rewrite color_at_insert by done.
  destruct (decide (x = p)); split.
  - intros [= ->]. by left.
  - intros [[_ ->] | [? _]]; done.
  - by right.
  - intros [[? _] | [_ ?]]; done.
Qed.

(** What a move comes to, for a valid point and a stone colour. *)
Lemma play_move_cases (b : Board) (p c : Z) :
  WF b → 0 ≤ p < maxpoint b → is_black_white c = true →
  ((decided b ∨ ¬ cell b p EMPTY) ∧ play_move b p c = Ret (false, b))
  ∨ (¬ decided b ∧ cell b p EMPTY
     ∧ play_move b p c = Ret (true, place b p c)).
Proof.
  intros Hwf Hp Hc.
  assert (Hdec : decided b ∨ ¬ decided b).
  { rewrite (decided_five b Hwf).
    destruct (five_in_a_row_dec b WHITE Hwf eq_refl),
      (five_in_a_row_dec b BLACK Hwf eq_refl); tauto. }
  destruct Hdec as [Hdec | Hopen];
    [| destruct (decide (cell b p EMPTY)) as [Hempty | Hfull]].
  - left. split; [by left |].
    destruct (play_move_over_spec b Hwf) as (over & Hover & Hiff).
    assert (over = true) as -> by (apply Hiff; by left).
    unfold play_move. by rewrite Hover.
  - right. split_and!; [done | done |]. by apply play_move_success.
  - left. split; [by right |].
    destruct (color_at_is_Some b p) as [c0 Hc0];
      [rewrite (wf_length b Hwf); lia |].
    assert (Hc0' : c0 ≠ EMPTY) by (intros ->; done).
    unfold play_move.
    destruct (play_move_over_spec b Hwf) as (over & -> & _).
    rewrite bind_Ret_l. cbn beta iota. destruct over; [done |].
    rewrite (get_color_at _ _ _ Hc0 : py_getitem (board b) p = _), bind_Ret_l.
    by destruct (Z.eqb_spec c0 EMPTY).
Qed.

(** A run on the board after a move that does not pass through the new
    stone was there before the move. *)
Lemma run_place (b : Board) (p c o delta q : Z) :
  0 ≤ p < Z.of_nat (length (board b)) →
  run (place b p c) o delta q 5 →
  run b o delta q 5
  ∨ (o = c ∧ ∃ k, 0 ≤ k < 5 ∧ q + k * delta = p).
Proof.
  intros Hp Hrun.
  destruct (decide (Exists (λ k, q + k * delta = p) (seqZ 0 5)))
    as [Hex | Hnex].
  - right. apply Exists_exists in Hex as (k & Hk%elem_of_seqZ & Hkp).
    specialize (Hrun k ltac:(lia)). apply cell_place in Hrun; [| done].
    destruct Hrun as [[_ ->] | [? _]]; [| done].
    split; [done |]. exists k. split; [lia | done].
  - left. intros k Hk. specialize (Hrun k Hk).
    apply cell_place in Hrun as [[Heq _] | [_ ?]]; [| done | done].
    exfalso. apply Hnex, Exists_exists. exists k. split; [| done].
    apply elem_of_seqZ. lia.
Qed.

Lemma play_move_after (b : Board) (p c : Z) :
  WF b → 0 ≤ p < maxpoint b → is_black_white c = true →
  ¬ decided b → cell b p EMPTY →
  ¬ five_in_a_row (place b p c) (opponent c)
  ∧ (five_in_a_row (place b p c) c →
     ∃ delta q k,
       delta ∈ directions b ∧ run (place b p c) c delta q 5
       ∧ 0 ≤ k < 5 ∧ q + k * delta = p).
Proof.
  intros Hwf Hp Hc Hopen Hempty. pose proof (color_at_lt _ _ _ Hempty) as Hlt.
  rewrite (decided_five b Hwf) in Hopen. split.
  - intros (delta & q & Hdelta & Hrun).
    apply run_place in Hrun as [Hrun | [Heq _]]; [| | done].
    + apply Hopen.
      apply is_black_white_cases in Hc as [-> | ->]; [left | right];
        by exists delta, q.
    + apply is_black_white_cases in Hc as [-> | ->]; discriminate.
  - intros (delta & q & Hdelta & Hrun).
    destruct (run_place _ _ _ _ _ _ Hlt Hrun) as [Hold | [_ (k & Hk & Hkp)]].
    + exfalso. apply Hopen.
      apply is_black_white_cases in Hc as [-> | ->]; [right | left];
        by exists delta, q.
    + by exists delta, q, k.
Qed.

Lemma play_move_over_fails (b : Board) (p c : Z) :
  WF b → decided b ∨ get_empty_points b = [] →
  play_move b p c = Ret (false, b).
Proof.
  intros Hwf Hover. unfold play_move.
  destruct (play_move_over_spec b Hwf) as (over & -> & Hiff).
  apply Hiff in Hover as ->. done.
Qed.

Lemma py_index_negative {A} (l : list A) (i : Z) :
  - Z.of_nat (length l) ≤ i < 0 →
  py_index l i = Ret (Z.to_nat (i + Z.of_nat (length l))).
Proof.
  intros Hi. unfold py_index.
  destruct (Z.leb_spec 0 i); [lia |]. cbn [andb].
  destruct (Z.leb_spec (- Z.of_nat (length l)) i), (Z.ltb_spec i 0);
    first [done | lia].
Qed.

Lemma py_getitem_negative {A} (l : list A) (i : Z) (x : A) :
  - Z.of_nat (length l) ≤ i < 0 →
  l !! Z.to_nat (i + Z.of_nat (length l)) = Some x →
  py_getitem l i = Ret x.
Proof.
  intros Hi Hx. unfold py_getitem. rewrite py_index_negative by done.
  rewrite bind_Ret_l. by rewrite Hx.
Qed.

Lemma py_setitem_negative {A} (l : list A) (i : Z) (x : A) :
  - Z.of_nat (length l) ≤ i < 0 →
  py_setitem l i x = Ret (<[Z.to_nat (i + Z.of_nat (length l)) := x]> l).
Proof.
  intros Hi. unfold py_setitem. by rewrite py_index_negative by done.
Qed.

Lemma py_getitem_out {A} (l : list A) (i : Z) :
  Z.of_nat (length l) ≤ i ∨ i < - Z.of_nat (length l) →
  py_getitem l i = Exc IndexError.
Proof.
  intros Hi. unfold py_getitem, py_index.
  destruct (Z.leb_spec 0 i), (Z.ltb_spec i (Z.of_nat (length l)));
    cbn [andb]; try lia;
    destruct (Z.leb_spec (- Z.of_nat (length l)) i), (Z.ltb_spec i 0);
    cbn [andb]; first [done | lia].
Qed.

Lemma play_move_open (b : Board) :
  WF b → ¬ decided b → get_empty_points b ≠ [] →
  play_move_over b = Ret (false, b).
Proof.
  intros Hwf Hopen Hempty.
  destruct (play_move_over_spec b Hwf) as (over & -> & Hiff).
  destruct over; [| done]. destruct Hiff as [Hiff _].
  destruct (Hiff eq_refl) as [? | ?]; [by destruct Hopen | by destruct Hempty].
Qed.

Lemma play_move_index_error (b : Board) (p c : Z) :
  WF b → ¬ decided b → get_empty_points b ≠ [] →
  maxpoint b ≤ p ∨ p < - maxpoint b →
  play_move b p c = Exc IndexError.
Proof.
  intros Hwf Hopen Hempty Hp. unfold play_move.
  rewrite (play_move_open b Hwf Hopen Hempty), bind_Ret_l. cbn beta iota.
  rewrite (py_getitem_out (board b) p); [reflexivity |].
  by rewrite (wf_length b Hwf).
Qed.

(** A negative point counts from the end of the array, and goes into the
    colour list as it is. *)
Lemma play_move_negative (b : Board) (p c : Z) :
  WF b → ¬ decided b → - maxpoint b ≤ p < 0 →
  cell b (p + maxpoint b) EMPTY → is_black_white c = true →
  ∃ b',
    play_move b p c = Ret (true, b')
    ∧ board b' = <[Z.to_nat (p + maxpoint b) := c]> (board b)
    ∧ (∃ l, py_getitem (store b') c = Ret l ∧ l ≡ₚ p :: stones b c)
    ∧ wf_board b' = false.
Proof.
  intros Hwf Hopen Hp Hempty Hc. pose proof (wf_length b Hwf) as Hlen.
  assert (Hsome : get_empty_points b ≠ []).
  { intros Hnil.
    assert (Hin : p + maxpoint b ∈ get_empty_points b)
      by by apply elem_of_stones.
    rewrite Hnil in Hin. by apply elem_of_nil in Hin. }
  apply color_at_Some in Hempty as [_ Hlookup].
  pose proof (wf_store_is _ _ Hwf Hc) as Hst.
  destruct (store_set_colour _ _ _ _ _ (stones b c ++ [p]) Hst)
    as (st1 & Hset1 & Hst1).
  destruct (store_set_colour _ _ _ _ _ (py_sort (stones b c ++ [p])) Hst1)
    as (st2 & Hset2 & Hst2).
  assert (Hperm : py_sort (stones b c ++ [p]) ≡ₚ p :: stones b c).
  { unfold py_sort. rewrite merge_sort_Permutation.
    symmetry. apply Permutation_cons_append. }
  eexists. split_and!.
  - unfold play_move.
    rewrite (play_move_open b Hwf Hopen Hsome), bind_Ret_l. cbn beta iota.
    rewrite (py_getitem_negative (board b) p EMPTY)
      by (rewrite ?Hlen; done || lia).
    rewrite bind_Ret_l. change (negb (EMPTY =? EMPTY)) with false. cbn iota.
    rewrite (py_setitem_negative (board b) p c) by lia.
    rewrite bind_Ret_l, (store_get_colour _ _ _ _ _ Hst), bind_Ret_l.
    rewrite Hset1, bind_Ret_l, (store_get_colour _ _ _ _ _ Hst1), bind_Ret_l.
    rewrite Hset2, bind_Ret_l. done.
  - cbn [board set_store set_board]. by rewrite Hlen.
  - exists (py_sort (stones b c ++ [p])).
    split; [by eapply store_get_colour | done].
  - set (b' := set_store _ st2).
    destruct (wf_board b') eqn:Hwf'; [exfalso | done].
    apply wf_board_WF in Hwf'.
    pose proof (store_get_colour _ _ _ _ _ (wf_store_is _ _ Hwf' Hc)) as Hget.
    change (store b') with st2 in Hget.
    rewrite (store_get_colour _ _ _ _ _ Hst2) in Hget.
    injection Hget as Heq.
    assert (Hin : p ∈ stones b' c).
    { rewrite <- Heq, Hperm. by left. }
    apply elem_of_stones, color_at_Some in Hin as [? _]. lia.
Qed.

(** The empty points after a move. *)
Lemma empty_points_place (b : Board) (p c : Z) :
  WF b → is_black_white c = true → cell b p EMPTY →
  (∀ x, x ∈ get_empty_points (place b p c)
        ↔ x ∈ get_empty_points b ∧ x ≠ p)
  ∧ S (length (get_empty_points (place b p c)))
    = length (get_empty_points b).
Proof.
  intros Hwf Hc Hempty. pose proof (color_at_lt _ _ _ Hempty) as Hlt.
  pose proof (WF_place b p c Hwf Hc Hempty) as Hwf'.
  assert (Hc0 : c ≠ EMPTY)
    by (apply is_black_white_cases in Hc as [-> | ->]; done).
  split.
  - intros x. change (get_empty_points ?y) with (stones y EMPTY).
    rewrite !elem_of_stones, cell_place by done. split.
    + intros [[_ ?] | [? ?]]; done.
    + intros [? ?]. by right.
  - pose proof (board_count b Hwf) as Hn.
    pose proof (board_count _ Hwf') as Hn'.
    change (size (place b p c)) with (size b) in Hn'.
    change (get_empty_points ?y) with (stones y EMPTY).
    assert (Hsame : length (stones (place b p c) c)
                    = S (length (stones b c))).
    { change (stones (place b p c) c)
        with (stones (set_board b (<[Z.to_nat p := c]> (board b))) c).
      rewrite <- stones_insert_same by done. unfold py_sort.
      rewrite merge_sort_Permutation, length_app. simpl. lia. }
    assert (Hother : stones (place b p c) (opponent c)
                     = stones b (opponent c)).
    { apply (stones_insert_other b p c (opponent c)); [done | |];
        apply is_black_white_cases in Hc as [-> | ->]; done. }
    apply is_black_white_cases in Hc as [-> | ->];
      change (opponent BLACK) with WHITE in Hother;
      change (opponent WHITE) with BLACK in Hother;
      rewrite Hother, Hsame in Hn'; lia.
Qed.

(** ** Board objects *)

Lemma wf_object_inv (h : heap) (self : BoardObj) :
  wf_object h self = true →
  ∃ st, h !! store self = Some st ∧ WF (set_store self st)
        ∧ WE self = 1 ∧ size self ≤ MAXSIZE.
Proof.
  unfold wf_object. destruct (h !! store self) as [st |]; [| done].
  rewrite !andb_true_iff, Z.eqb_eq, Z.leb_le, wf_board_WF.
  intros [[? ?] ?]. by exists st.
Qed.

Lemma copy_self (self : BoardObj) (h : heap) :
  wf_object h self = true → copy self h = Ret (self, h ++ [[[]; []; []]]).
Proof.
  intros (st & _ & Hwf & HWE & Hmax)%wf_object_inv.
  pose proof (wf_size _ Hwf) as Hsize. pose proof (wf_NS _ Hwf) as HNS.
  pose proof (wf_maxpoint _ Hwf) as Hmp.
  change (size (set_store self st)) with (size self) in *.
  change (NS (set_store self st)) with (NS self) in *.
  change (maxpoint (set_store self st)) with (maxpoint self) in *.
  unfold copy, new_SimpleGoBoard, __init__.
  destruct (Z.leb_spec 2 (size self)); [| lia].
  destruct (Z.leb_spec (size self) MAXSIZE); [| lia].
  cbn [andb py_assert]. rewrite bind_Ret_l.
  destruct (reset_spec (size self) ltac:(lia))
    as (b & -> & Hsz & HNSb & HWEb & _ & _ & Hmpb & _ & Hstore & _).
  rewrite !bind_Ret_l. cbn beta iota.
  change (NS (set_store b (length h))) with (NS b).
  change (WE (set_store b (length h))) with (WE b).
  rewrite HNSb, HWEb, HNS, HWE, !Z.eqb_refl. cbn [py_assert].
  rewrite !bind_Ret_l. cbn [maxpoint set_store].
  rewrite Hmpb, Hmp, Z.eqb_refl. cbn [py_assert]. rewrite bind_Ret_l.
  rewrite Hstore. do 2 f_equal.
  destruct self. cbn in *. unfold setStore, set_store, set_board. cbn.
  f_equal; congruence.
Qed.

Lemma is_legal_play_move (self : BoardObj) (h : heap) (st : list (list Z))
    (p c : Z) :
  wf_object h self = true → store_of h self = Some st →
  is_legal self p c h
  = match play_move (set_store self st) p c with
    | Ret (legal, b') =>
        Ret (legal, <[store self := store b']> (h ++ [[[]; []; []]]))
    | Exc e => Exc e
    | Diverge => Diverge
    end.
Proof.
  intros Hobj Hst. unfold is_legal. rewrite (copy_self self h Hobj).
  rewrite bind_Ret_l. cbn beta iota. unfold call.
  unfold store_of in Hst. rewrite (lookup_app_l_Some _ _ _ _ Hst).
  by destruct (play_move (set_store self st) p c) as [[legal b'] | e |].
Qed.

Lemma lookup_heap_store (h : heap) (i : nat) (st st' : list (list Z)) :
  h !! i = Some st → (<[i := st']> (h ++ [[[]; []; []]])) !! i = Some st'.
Proof.
  intros Hi%lookup_lt_Some. apply list_lookup_insert_eq.
  rewrite length_app. lia.
Qed.

Lemma is_legal_effect (self : BoardObj) (h h' : heap) (p c : Z) (ok : bool) :
  wf_object h self = true → 0 ≤ p < maxpoint self →
  is_black_white c = true → is_legal self p c h = Ret (ok, h') →
  (ok = false → store_of h' self = store_of h self)
  ∧ (ok = true →
     board self !! Z.to_nat p = Some EMPTY
     ∧ (∃ st' l, store_of h' self = Some st' ∧ py_getitem st' c = Ret l
                 ∧ p ∈ l)
     ∧ wf_object h' self = false).
Proof.
  intros Hobj Hp Hc Hlegal.
  destruct (wf_object_inv h self Hobj) as (st & Hst & Hwf & _ & _).
  rewrite (is_legal_play_move self h st p c Hobj Hst) in Hlegal.
  set (b := set_store self st) in *.
  destruct (play_move_cases b p c Hwf Hp Hc)
    as [[_ Hplay] | (_ & Hempty & Hplay)];
    rewrite Hplay in Hlegal; injection Hlegal as <- <-.
  - split; [intros _ | done]. unfold store_of.
    by rewrite (lookup_heap_store h _ st), Hst.
  - split; [done | intros _].
    pose proof (color_at_lt _ _ _ Hempty) as Hlt.
    pose proof (WF_place b p c Hwf Hc Hempty) as Hwf'.
    pose proof (store_get_colour _ _ _ _ _ (wf_store_is _ _ Hwf' Hc)) as Hget.
    assert (Hin : p ∈ stones (place b p c) c).
    { apply elem_of_stones, cell_place; [done |]. by left. }
    assert (Hlook : store_of
                      (<[store self := store (place b p c)]>
                         (h ++ [[[]; []; []]])) self
                    = Some (store (place b p c))).
    { unfold store_of. by apply (lookup_heap_store h _ st). }
    split_and!.
    + by apply color_at_Some in Hempty as [_ ?].
    + by exists (store (place b p c)), (stones (place b p c) c).
    + unfold wf_object. erewrite lookup_heap_store by exact Hst.
      match goal with |- context [wf_board ?x] => set (b2 := x) end.
      destruct (wf_board b2) eqn:Hwf2; [exfalso | done].
      apply wf_board_WF in Hwf2.
      pose proof (store_get_colour _ _ _ _ _ (wf_store_is _ _ Hwf2 Hc))
        as Hget2.
      change (store b2) with (store (place b p c)) in Hget2.
      rewrite Hget in Hget2. injection Hget2 as Heq. rewrite Heq in Hin.
      apply elem_of_stones in Hin. unfold cell in Hin, Hempty.
      change (color_at b2 p) with (color_at b p) in Hin.
      rewrite Hempty in Hin.
      apply is_black_white_cases in Hc as [-> | ->]; discriminate.
Qed.

(** ** Blocks are classes *)

Lemma neighbors_sym (b : Board) (q n : Z) :
  n ∈ _neighbors b q → q ∈ _neighbors b n.
Proof.
  unfold _neighbors. intros Hn.
  repeat (apply elem_of_cons in Hn as [-> | Hn]);
    [| | | | by apply elem_of_nil in Hn].
  - replace q with (q - 1 + 1) at 1 by lia. elem_of_lit.
  - replace q with (q + 1 - 1) at 1 by lia. elem_of_lit.
  - replace q with (q - NS b + NS b) at 1 by lia. elem_of_lit.
  - replace q with (q + NS b - NS b) at 1 by lia. elem_of_lit.
Qed.

Lemma connected_trans (b : Board) (c s q r : Z) :
  connected b c s q → connected b c q r → connected b c s r.
Proof.
  intros Hsq. induction 1 as [| r n Hr IH Hn Hc]; [done |].
  by eapply connected_step.
Qed.

Lemma connected_sym (b : Board) (c s q : Z) :
  connected b c s q → connected b c q s.
Proof.
  induction 1 as [Hs | q n Hq IH Hn Hc]; [by constructor |].
  eapply connected_trans; [| exact IH].
  eapply connected_step; [by constructor | | by eapply connected_cell].
  by apply neighbors_sym.
Qed.

Lemma marker_ext (m1 m2 : list bool) :
  length m1 = length m2 → (∀ q, marked m1 q ↔ marked m2 q) → m1 = m2.
Proof.
  intros Hlen Hext. apply list_eq. intros i.
  specialize (Hext (Z.of_nat i)). unfold marked in Hext.
  rewrite Nat2Z.id in Hext.
  destruct (m1 !! i) as [b1 |] eqn:H1, (m2 !! i) as [b2 |] eqn:H2.
  - destruct b1, b2; try done.
    + destruct Hext as [Hext _]. by destruct (Hext ltac:(split; [lia | done])).
    + destruct Hext as [_ Hext]. by destruct (Hext ltac:(split; [lia | done])).
  - apply lookup_lt_Some in H1. apply lookup_ge_None in H2. lia.
  - apply lookup_ge_None in H1. apply lookup_lt_Some in H2. lia.
  - done.
Qed.

Lemma _block_of_same (b : Board) (seed q c : Z) (marker : list bool) :
  WF b → cell b seed c → is_black_white c = true →
  _block_of b seed = Ret marker → marked marker q →
  _block_of b q = Ret marker.
Proof.
  intros Hwf Hseed Hc Hblock Hq.
  destruct (_block_of_spec b seed c Hwf Hseed Hc) as (m1 & Hm1 & Hlen1 & Hmk1).
  rewrite Hblock in Hm1. injection Hm1 as <-.
  apply Hmk1 in Hq as Hconn.
  destruct (_block_of_spec b q c Hwf (connected_cell _ _ _ _ Hconn) Hc)
    as (m2 & -> & Hlen2 & Hmk2).
  f_equal. apply marker_ext; [congruence |]. intros x.
  rewrite Hmk1, Hmk2. split; intros Hx.
  - eapply connected_trans; [exact Hconn | exact Hx].
  - eapply connected_trans; [apply connected_sym, Hconn | exact Hx].
Qed.

(** ** A capture and the colour lists *)

Lemma capture_stale (b : Board) (q c : Z) (marker : list bool) :
  WF b → cell b q c → is_black_white c = true →
  _block_of b q = Ret marker → _has_liberty b marker = Ret false →
  ∃ flag b',
    _detect_and_process_capture b q = Ret (flag, b')
    ∧ cell b' q EMPTY
    ∧ (∃ l, py_getitem (store b') c = Ret l ∧ q ∈ l)
    ∧ wf_board b' = false
    ∧ _detect_and_process_capture b' q = Exc AssertionError.
Proof.
  intros Hwf Hq Hc Hblock Hlib.
  destruct (capture_correct b q c Hwf Hq Hc)
    as (m & Hm & Hmk & _ & Hnolib).
  rewrite Hblock in Hm. injection Hm as <-.
  destruct (_has_liberty_block b q c marker Hwf Hc Hmk) as (r & Hr & Hiff).
  rewrite Hlib in Hr. injection Hr as <-.
  destruct Hnolib as (cells & Hrun & Hlen & Hblk & Hrest).
  { intros Hl%Hiff. discriminate. }
  set (b' := set_board b cells) in *.
  assert (Hq' : cell b' q EMPTY) by (apply Hblk; by constructor).
  pose proof (store_get_colour _ _ _ _ _ (wf_store_is _ _ Hwf Hc)) as Hget.
  eexists _, b'. split_and!; [done | done | | |].
  - exists (stones b c). split; [done | by apply elem_of_stones].
  - destruct (wf_board b') eqn:Hwf'; [exfalso | done].
    apply wf_board_WF in Hwf'.
    pose proof (store_get_colour _ _ _ _ _ (wf_store_is _ _ Hwf' Hc)) as Hget'.
    change (store b') with (store b) in Hget'. rewrite Hget in Hget'.
    injection Hget' as Heq.
    assert (Hin : q ∈ stones b' c) by (rewrite <- Heq; by apply elem_of_stones).
    apply elem_of_stones in Hin. unfold cell in Hin, Hq'. rewrite Hq' in Hin.
    apply is_black_white_cases in Hc as [-> | ->]; discriminate.
  - unfold _detect_and_process_capture, _block_of, _block_of_trace.
    by rewrite (get_color_at _ _ _ Hq').
Qed.

(** ** Around a playable point *)

Lemma on_board_has_neighbor (b : Board) (p : Z) :
  WF b → on_board b p = true →
  on_board b (p + 1) = true ∨ on_board b (p - 1) = true.
Proof.
  intros Hwf [Hr Hc]%on_board_coords.
  pose proof (wf_size b Hwf) as Hsize. pose proof (wf_NS b Hwf) as HNS.
  unfold row_of, col_of in *.
  pose proof (Z.div_mod p (NS b) ltac:(lia)) as Hp.
  set (r := p / NS b) in *. set (c := p mod NS b) in *.
  destruct (decide (c < size b)).
  - left. apply on_board_coords. unfold row_of, col_of.
    rewrite <- (Z.div_unique (p + 1) (NS b) r (c + 1)) by lia.
    rewrite <- (Z.mod_unique (p + 1) (NS b) r (c + 1)) by lia. lia.
  - right. apply on_board_coords. unfold row_of, col_of.
    rewrite <- (Z.div_unique (p - 1) (NS b) r (c - 1)) by lia.
    rewrite <- (Z.mod_unique (p - 1) (NS b) r (c - 1)) by lia. lia.
Qed.

Lemma is_eye_other (b : Board) (p c : Z) :
  WF b → on_board b p = true → is_black_white c = true →
  is_eye b p c = Ret true → is_eye b p (opponent c) = Ret false.
Proof.
  intros Hwf Hp Hc Heye.
  destruct (is_eye_correct b p c Hwf Hp Hc) as (r & Hr & Hiff).
  rewrite Heye in Hr. injection Hr as <-.
  destruct Hiff as [Hiff _]. destruct (Hiff eq_refl) as [Hall _].
  assert (Hoc : is_black_white (opponent c) = true)
    by (apply is_black_white_cases in Hc as [-> | ->]; done).
  destruct (is_eye_correct b p (opponent c) Hwf Hp Hoc) as (r' & -> & Hiff').
  destruct r'; [exfalso | done].
  destruct Hiff' as [Hiff' _]. destruct (Hiff' eq_refl) as [Hall' _].
  assert (Hn : ∃ n, n ∈ _neighbors b p ∧ on_board b n = true).
  { destruct (on_board_has_neighbor b p Hwf Hp) as [Hn | Hn];
      [exists (p + 1) | exists (p - 1)]; (split; [| done]);
      unfold _neighbors; elem_of_lit. }
  destruct Hn as (n & Hn & Hon).
  specialize (Hall n Hn). specialize (Hall' n Hn).
  pose proof (wf_on_board_cell b n Hwf Hon) as Hcell.
  unfold cell in *.
  apply is_black_white_cases in Hc as [-> | ->];
    change (opponent BLACK) with WHITE in *;
    change (opponent WHITE) with BLACK in *;
    unfold EMPTY, BLACK, WHITE, BORDER in *;
    destruct Hall as [Ha | Ha], Hall' as [Ha' | Ha'],
      Hcell as [He | [He | He]]; congruence.
Qed.

Lemma neighbors_read (b : Board) (p n : Z) :
  WF b → on_board b p = true →
  n ∈ _neighbors b p ++ _diag_neighbors b p →
  ∃ c, get_color b n = Ret c ∧ cell b n c.
Proof.
  intros Hwf Hp Hn. pose proof (wf_on_board_room b p Hwf Hp) as [Hlo Hhi].
  pose proof (wf_NS_pos b Hwf) as HNS.
  assert (Hrange : 0 ≤ n < Z.of_nat (length (board b))).
  { unfold _neighbors, _diag_neighbors in Hn. cbn [app] in Hn.
    repeat (apply elem_of_cons in Hn as [-> | Hn]); [lia .. |].
    by apply elem_of_nil in Hn. }
  destruct (color_at_is_Some b n Hrange) as [c Hc].
  exists c. split; [by apply get_color_at | done].
Qed.

Lemma neighbors_of_color_on_board (b : Board) (p color : Z) :
  WF b → on_board b p = true →
  neighbors_of_color b p color
  = Ret (filter (λ n, cell b n color) (_neighbors b p)).
Proof.
  intros Hwf Hp. unfold neighbors_of_color.
  pose proof (wf_on_board_room b p Hwf Hp) as [Hlo Hhi].
  pose proof (wf_NS_pos b Hwf) as HNS.
  rewrite neighbors_of_color_for_spec; [done |].
  intros n Hn. apply (neighbors_in_range b p n); [lia | lia | lia | done].
Qed.

(** ** The rows *)

Lemma row_start_on_board (b : Board) (row : Z) :
  WF b → 1 ≤ row ≤ size b →
  row_start b row = Ret (row * NS b + 1)
  ∧ on_board b (row * NS b + 1) = true
  ∧ row_of b (row * NS b + 1) = row
  ∧ col_of b (row * NS b + 1) = 1
  ∧ cell b (row * NS b) BORDER.
Proof.
  intros Hwf Hrow. pose proof (wf_size b Hwf) as Hsize.
  pose proof (wf_NS b Hwf) as HNS.
  assert (Hdiv : (row * NS b + 1) / NS b = row).
  { symmetry. apply (Z.div_unique _ _ _ 1); lia. }
  assert (Hmod : (row * NS b + 1) mod NS b = 1).
  { symmetry. apply (Z.mod_unique _ _ row); lia. }
  split_and!.
  - unfold row_start. destruct (Z.leb_spec 1 row); [| lia].
    destruct (Z.leb_spec row (size b)); [| lia]. done.
  - apply on_board_coords. unfold row_of, col_of. rewrite Hdiv, Hmod. lia.
  - done.
  - done.
  - destruct (color_at_is_Some b (row * NS b)) as [c Hc].
    { rewrite (wf_length b Hwf), (wf_maxpoint b Hwf). nia. }
    pose proof (wf_cells b Hwf _ _ Hc) as Hok. unfold cell_ok in Hok.
    assert (Hoff : on_board b (row * NS b) = false).
    { destruct (on_board b (row * NS b)) eqn:Hon; [| done].
      apply on_board_coords in Hon as [_ Hcol]. unfold col_of in Hcol.
      rewrite Z.mod_mul in Hcol by lia. lia. }
    rewrite Hoff in Hok. apply Z.eqb_eq in Hok. by subst c.
Qed.

Lemma row_start_assert (b : Board) (row : Z) :
  row < 1 ∨ size b < row → row_start b row = Exc AssertionError.
Proof.
  intros Hrow. unfold row_start.
  destruct (Z.leb_spec 1 row); [| done].
  destruct (Z.leb_spec row (size b)); [lia | done].
Qed.

(** ** [checkout] *)

Lemma py_sort_sorted (l : list Z) : Sorted Z.le l → py_sort l = l.
Proof.
  intros Hl. unfold py_sort. apply (Sorted_unique Z.le); [| done |].
  - apply Sorted_merge_sort. apply _.
  - apply merge_sort_Permutation.
Qed.

Lemma checkout_sorts (b : Board) (c : Z) (Sc L O : list Z) :
  store_is (store b) c Sc L O →
  ∃ b' l,
    checkout b c = Ret b'
    ∧ board b' = board b
    ∧ store_is (store b') c [] l O
    ∧ l ≡ₚ L ++ Sc
    ∧ Sorted Z.le l
    ∧ checkout b' c = Ret b'.
Proof.
  intros Hst.
  destruct (checkout_spec b c O (store b) Sc L Hst) as (st' & Hrun & Hst').
  rewrite set_store_id in Hrun.
  assert (Hsorted : Sorted Z.le (py_sort (L ++ Sc))).
  { apply Sorted_merge_sort. apply _. }
  exists (set_store b st'), (py_sort (L ++ Sc)).
  split_and!; [done | done | done | apply merge_sort_Permutation | done |].
  destruct (checkout_spec b c O st' [] (py_sort (L ++ Sc)) Hst')
    as (st'' & -> & Hst'').
  rewrite app_nil_r, py_sort_sorted in Hst'' by done.
  do 2 f_equal. by eapply store_is_unique.
Qed.

Lemma checkState_open (b b' : Board) :
  WF b → checkState b = Ret (Some (-1), b') →
  ¬ decided b ∧ get_empty_points b ≠ [].
Proof.
  intros Hwf Hstate.
  destruct (checkState_result b Hwf) as (s & Hs & HW & HB & HP & _).
  rewrite Hstate in Hs. injection Hs as <- _.
  rewrite (decided_five b Hwf).
  destruct (five_in_a_row_dec b WHITE Hwf eq_refl) as [Hw | Hw];
    [specialize (HW Hw); discriminate |].
  destruct (five_in_a_row_dec b BLACK Hwf eq_refl) as [Hb | Hb];
    [specialize (HB Hw Hb); discriminate |].
  split; [tauto |]. intros Hnil. specialize (HP Hw Hb Hnil). discriminate.
Qed.

(** ** Games *)

Lemma play_move_WF (b b' : Board) (p c : Z) (ok : bool) :
  WF b → 0 ≤ p < maxpoint b → is_black_white c = true →
  play_move b p c = Ret (ok, b') → WF b' ∧ maxpoint b' = maxpoint b.
Proof.
  intros Hwf Hp Hc Hplay.
  destruct (play_move_cases b p c Hwf Hp Hc)
    as [[_ Hfail] | (_ & Hempty & Hok)].
  - rewrite Hfail in Hplay. by injection Hplay as <- <-.
  - rewrite Hok in Hplay. injection Hplay as <- <-.
    split; [by apply WF_place | done].
Qed.

Lemma play_moves_WF (mp : Z) (moves : list (Z * Z)) :
  ∀ b, WF b → maxpoint b = mp →
       forallb (λ m, (0 <=? m.1) && (m.1 <? mp) && is_black_white m.2) moves
       = true →
       ∃ b', play_moves b moves = Ret b' ∧ WF b'.
Proof.
  induction moves as [| [p c] rest IH]; intros b Hwf Hmp Hvalid.
  - by exists b.
  - cbn [forallb] in Hvalid. apply andb_true_iff in Hvalid as [Hpc Hrest].
    cbn [fst snd] in Hpc.
    rewrite !andb_true_iff, Z.leb_le, Z.ltb_lt in Hpc.
    destruct Hpc as [[Hp0 Hp1] Hc].
    assert (Hplay : ∃ ok b1, play_move b p c = Ret (ok, b1)).
    { destruct (play_move_cases b p c Hwf ltac:(lia) Hc)
        as [[_ ->] | (_ & _ & ->)]; by eexists _, _. }
    destruct Hplay as (ok & b1 & Hplay).
    destruct (play_move_WF b b1 p c ok Hwf ltac:(lia) Hc Hplay)
      as [Hwf1 Hmax].
    destruct (IH b1 Hwf1 ltac:(congruence) Hrest) as (b' & Hrun & Hwf').
    exists b'. cbn [play_moves]. by rewrite Hplay, bind_Ret_l.
Qed.

Lemma fresh_board_open (n : Z) (b : Board) :
  2 ≤ n → WF b → size b = n → store b = [[]; []; []] →
  ¬ decided b ∧ get_empty_points b ≠ [].
Proof.
  intros Hn Hwf Hsize Hstore.
  pose proof (wf_store b Hwf) as Hst. rewrite Hstore in Hst.
  injection Hst as HB HW.
  assert (Hnone : ∀ c, is_black_white c = true → ¬ five_in_a_row b c).
  { intros c Hc (delta & p & _ & Hrun). specialize (Hrun 0 ltac:(lia)).
    replace (p + 0 * delta) with p in Hrun by lia.
    apply elem_of_stones in Hrun.
    apply is_black_white_cases in Hc as [-> | ->];
      [rewrite <- HB in Hrun | rewrite <- HW in Hrun];
      by apply elem_of_nil in Hrun. }
  split.
  - rewrite (decided_five b Hwf).
    intros [Hw | Hb];
      [apply (Hnone WHITE eq_refl Hw) | apply (Hnone BLACK eq_refl Hb)].
  - intros Hnil. pose proof (board_count b Hwf) as Hcount.
    change (get_empty_points b) with (stones b EMPTY) in Hnil.
    rewrite Hnil, <- HB, <- HW, Hsize in Hcount. cbn [length] in Hcount. nia.
Qed.

(** ** Further properties of the code *)

(** X1: on a well-formed board [row_start(row)] for a row between 1 and
    [size] returns the playable point of that row in column 1, whose left
    neighbour is a BORDER cell; for any other row it fails its
    assertion. *)
Theorem row_start_spec (b : Board) (row : Z) :
  wf_board b = true →
  (1 ≤ row ≤ size b →
   row_start b row = Ret (row * NS b + 1)
   ∧ on_board b (row * NS b + 1) = true
   ∧ row_of b (row * NS b + 1) = row
   ∧ col_of b (row * NS b + 1) = 1
   ∧ cell b (row * NS b) BORDER)
  ∧ (row < 1 ∨ size b < row → row_start b row = Exc AssertionError).
Proof.
  intros Hwf%wf_board_WF. split.
  - by apply row_start_on_board.
  - apply row_start_assert.
Qed.

Lemma row_start_spec_witness :
  (1 ≤ 2 ≤ size board_open →
   row_start board_open 2 = Ret (2 * NS board_open + 1)
   ∧ on_board board_open (2 * NS board_open + 1) = true
   ∧ row_of board_open (2 * NS board_open + 1) = 2
   ∧ col_of board_open (2 * NS board_open + 1) = 1
   ∧ cell board_open (2 * NS board_open) BORDER)
  ∧ (2 < 1 ∨ size board_open < 2 →
     row_start board_open 2 = Exc AssertionError).
Proof. apply (row_start_spec board_open 2). vm_compute. reflexivity. Defined.

(** X2: on a well-formed board the cells of a run along a scan direction
    lie on a line of the grid: from one cell to the next the row and the
    column move by the step of the direction, (0, 1), (1, 0), (1, 1) or
    (1, -1).  The border column keeps a run from going on into the next
    row. *)
Theorem run_is_line (b : Board) (c delta p n k : Z) :
  wf_board b = true → c ≠ BORDER → delta ∈ directions b →
  run b c delta p n → 0 ≤ k < n →
  row_of b (p + k * delta) = row_of b p + k * row_step b delta
  ∧ col_of b (p + k * delta) = col_of b p + k * col_step b delta.
Proof.
  intros Hwf%wf_board_WF Hc Hdelta Hrun [Hk Hkn].
  by apply (run_line b c delta p n).
Qed.

Lemma run_is_line_witness :
  row_of board_black_row (7 + 4 * 1)
  = row_of board_black_row 7 + 4 * row_step board_black_row 1
  ∧ col_of board_black_row (7 + 4 * 1)
    = col_of board_black_row 7 + 4 * col_step board_black_row 1.
Proof.
  apply (run_is_line board_black_row BLACK 1 7 5 4).
  - vm_compute. reflexivity.
  - unfold BLACK, BORDER. lia.
  - apply list_elem_of_here.
  - intros k Hk.
    assert (Hcases : k = 0 ∨ k = 1 ∨ k = 2 ∨ k = 3 ∨ k = 4) by lia.
    destruct Hcases as [-> | [-> | [-> | [-> | ->]]]]; reflexivity.
  - lia.
Defined.

(** X3: on a well-formed board of size below 5 no colour has five in a
    row: [checkWin] returns false and [checkState] returns PASS or -1,
    never a colour. *)
Theorem no_win_below_five (b : Board) (c : Z) :
  wf_board b = true → size b < 5 → is_black_white c = true →
  checkWin b c = Ret (false, b)
  ∧ ∃ s, checkState b = Ret (s, b) ∧ (s = PASS ∨ s = Some (-1)).
Proof.
  intros Hwf%wf_board_WF Hsize Hc.
  assert (Hnone : ∀ o, is_black_white o = true → ¬ five_in_a_row b o).
  { intros o Ho Hfive.
    assert (o ≠ BORDER)
      by (apply is_black_white_cases in Ho as [-> | ->]; done).
    pose proof (five_in_a_row_size b o Hwf ltac:(done) Hfive). lia. }
  split.
  - destruct (checkWin_correct b c Hwf Hc) as ([] & Hrun & Hr); [| done].
    exfalso. apply (Hnone c Hc). by apply Hr.
  - destruct (checkState_result b Hwf) as (s & Hs & _ & _ & HP & HO).
    exists s. split; [done |].
    destruct (decide (get_empty_points b = [])) as [He | He];
      [left; apply HP | right; apply HO]; auto.
Qed.

Lemma no_win_below_five_witness :
  checkWin board_one_free BLACK = Ret (false, board_one_free)
  ∧ ∃ s, checkState board_one_free = Ret (s, board_one_free)
         ∧ (s = PASS ∨ s = Some (-1)).
Proof.
  apply (no_win_below_five board_one_free BLACK);
    [vm_compute; reflexivity | simpl; lia | vm_compute; reflexivity].
Defined.

(** X4: on a well-formed board [checkState()] returns WHITE when white has
    five in a row, whatever black has; BLACK when only black has; PASS when
    neither has and no point is empty; -1 otherwise.  It leaves the board
    as it was.  No point is empty when [get_empty_points] returns none,
    which is when no cell is EMPTY. *)
Theorem checkState_spec (b : Board) :
  wf_board b = true →
  ∃ s, checkState b = Ret (s, b)
       ∧ (five_in_a_row b WHITE → s = Some WHITE)
       ∧ (¬ five_in_a_row b WHITE → five_in_a_row b BLACK → s = Some BLACK)
       ∧ (¬ five_in_a_row b WHITE → ¬ five_in_a_row b BLACK →
          get_empty_points b = [] → s = PASS)
       ∧ (¬ five_in_a_row b WHITE → ¬ five_in_a_row b BLACK →
          get_empty_points b ≠ [] → s = Some (-1))
       ∧ (get_empty_points b = [] ↔ ∀ q, ¬ cell b q EMPTY).
Proof.
  intros Hwf%wf_board_WF.
  destruct (checkState_result b Hwf) as (s & Hs & HW & HB & HP & HO).
  exists s. split_and!; [done | done | done | done | done |].
  apply no_empty_points.
Qed.

Lemma checkState_spec_witness :
  ∃ s, checkState board_black_row = Ret (s, board_black_row)
       ∧ (five_in_a_row board_black_row WHITE → s = Some WHITE)
       ∧ (¬ five_in_a_row board_black_row WHITE →
          five_in_a_row board_black_row BLACK → s = Some BLACK)
       ∧ (¬ five_in_a_row board_black_row WHITE →
          ¬ five_in_a_row board_black_row BLACK →
          get_empty_points board_black_row = [] → s = PASS)
       ∧ (¬ five_in_a_row board_black_row WHITE →
          ¬ five_in_a_row board_black_row BLACK →
          get_empty_points board_black_row ≠ [] → s = Some (-1))
       ∧ (get_empty_points board_black_row = []
          ↔ ∀ q, ¬ cell board_black_row q EMPTY).
Proof. apply (checkState_spec board_black_row). vm_compute. reflexivity. Defined.

(** X5: on a well-formed board every playable point is in exactly one of
    the list of empty points, the black list and the white list, so their
    lengths add up to [size * size]. *)
Theorem points_partition (b : Board) :
  wf_board b = true →
  ∃ blacks whites,
    black_list b = Some blacks ∧ white_list b = Some whites
    ∧ get_empty_points b ++ blacks ++ whites ≡ₚ interior_points (size b)
    ∧ Z.of_nat (length (get_empty_points b) + length blacks + length whites)
      = size b * size b.
Proof.
  intros Hwf%wf_board_WF. exists (stones b BLACK), (stones b WHITE).
  unfold black_list, white_list. rewrite (wf_store b Hwf).
  split_and!; [done | done | by apply stones_partition |].
  pose proof (board_count b Hwf) as Hn. pose proof (wf_size b Hwf).
  change (get_empty_points b) with (stones b EMPTY). nia.
Qed.

Lemma points_partition_witness :
  ∃ blacks whites,
    black_list board_open = Some blacks ∧ white_list board_open = Some whites
    ∧ get_empty_points board_open ++ blacks ++ whites
      ≡ₚ interior_points (size board_open)
    ∧ Z.of_nat (length (get_empty_points board_open) + length blacks
                + length whites)
      = size board_open * size board_open.
Proof. apply (points_partition board_open). vm_compute. reflexivity. Defined.

(** X6: after an accepted move on a well-formed board the empty points are
    those of before without the point played, one fewer. *)
Theorem play_move_empty_points (b b' : Board) (p c : Z) :
  wf_board b = true → 0 ≤ p < maxpoint b → is_black_white c = true →
  play_move b p c = Ret (true, b') →
  (∀ x, x ∈ get_empty_points b' ↔ x ∈ get_empty_points b ∧ x ≠ p)
  ∧ S (length (get_empty_points b')) = length (get_empty_points b).
Proof.
  intros Hwf%wf_board_WF Hp Hc Hplay.
  destruct (play_move_cases b p c Hwf Hp Hc)
    as [[_ Hfail] | (_ & Hempty & Hok)]; [congruence |].
  rewrite Hok in Hplay. injection Hplay as <-.
  by apply empty_points_place.
Qed.

Lemma play_move_empty_points_witness :
  (∀ x, x ∈ get_empty_points (place board_open 9 BLACK)
        ↔ x ∈ get_empty_points board_open ∧ x ≠ 9)
  ∧ S (length (get_empty_points (place board_open 9 BLACK)))
    = length (get_empty_points board_open).
Proof.
  apply (play_move_empty_points board_open (place board_open 9 BLACK)
           9 BLACK);
    [vm_compute; reflexivity | simpl; lia | vm_compute; reflexivity
    | vm_compute; reflexivity].
Defined.

(** X7: an accepted move on a well-formed board never gives the other
    colour five in a row, and when it gives the mover five in a row, a run
    of five passes through the point played. *)
Theorem play_move_winner (b b' : Board) (p c : Z) :
  wf_board b = true → 0 ≤ p < maxpoint b → is_black_white c = true →
  play_move b p c = Ret (true, b') →
  checkWin b' (opponent c) = Ret (false, b')
  ∧ (checkWin b' c = Ret (true, b') →
     ∃ delta q k,
       delta ∈ directions b' ∧ run b' c delta q 5
       ∧ 0 ≤ k < 5 ∧ q + k * delta = p).
Proof.
  intros Hwf%wf_board_WF Hp Hc Hplay.
  destruct (play_move_cases b p c Hwf Hp Hc)
    as [[_ Hfail] | (Hopen & Hempty & Hok)]; [congruence |].
  rewrite Hok in Hplay. injection Hplay as <-.
  pose proof (WF_place b p c Hwf Hc Hempty) as Hwf'.
  destruct (play_move_after b p c Hwf Hp Hc Hopen Hempty) as [Hother Hown].
  assert (Hoc : is_black_white (opponent c) = true)
    by (apply is_black_white_cases in Hc as [-> | ->]; done).
  split.
  - destruct (checkWin_correct _ (opponent c) Hwf' Hoc) as ([] & Hrun & Hr);
      [| done].
    exfalso. by apply Hother, Hr.
  - intros Hwin.
    destruct (checkWin_correct _ c Hwf' Hc) as (r & Hrun & Hr).
    rewrite Hwin in Hrun. injection Hrun as <-. by apply Hown, Hr.
Qed.

Lemma play_move_winner_witness :
  checkWin (place board_open 9 BLACK) (opponent BLACK)
  = Ret (false, place board_open 9 BLACK)
  ∧ (checkWin (place board_open 9 BLACK) BLACK
     = Ret (true, place board_open 9 BLACK) →
     ∃ delta q k,
       delta ∈ directions (place board_open 9 BLACK)
       ∧ run (place board_open 9 BLACK) BLACK delta q 5
       ∧ 0 ≤ k < 5 ∧ q + k * delta = 9).
Proof.
  apply (play_move_winner board_open (place board_open 9 BLACK) 9 BLACK);
    [vm_compute; reflexivity | simpl; lia | vm_compute; reflexivity
    | vm_compute; reflexivity].
Defined.

(** X8: on a well-formed board on which a colour has won or no point is
    empty, [play_move] returns False and leaves the board as it is for
    every point and every colour, valid or not: it does not look at
    them. *)
Theorem play_move_game_over (b : Board) (p c : Z) :
  wf_board b = true → decided b ∨ get_empty_points b = [] →
  play_move b p c = Ret (false, b).
Proof. intros Hwf%wf_board_WF. by apply play_move_over_fails. Qed.

Lemma play_move_game_over_witness :
  play_move board_black_row 1000 7 = Ret (false, board_black_row).
Proof.
  apply (play_move_game_over board_black_row 1000 7).
  - vm_compute. reflexivity.
  - left. right. exists board_black_row. vm_compute. reflexivity.
Defined.

(** X9: on a well-formed board whose game is in progress ([checkState()]
    is -1), [play_move] on a point at or beyond [maxpoint], or below
    [-maxpoint], raises IndexError: the [except ValueError] does not catch
    it. *)
Theorem play_move_out_of_range (b b1 : Board) (p c : Z) :
  wf_board b = true → checkState b = Ret (Some (-1), b1) →
  maxpoint b ≤ p ∨ p < - maxpoint b →
  play_move b p c = Exc IndexError.
Proof.
  intros Hwf%wf_board_WF Hstate Hp.
  destruct (checkState_open b b1 Hwf Hstate) as [Hopen Hempty].
  by apply play_move_index_error.
Qed.

Lemma play_move_out_of_range_witness :
  play_move board_open 43 BLACK = Exc IndexError.
Proof.
  apply (play_move_out_of_range board_open board_open 43 BLACK);
    [vm_compute; reflexivity | vm_compute; reflexivity | left; simpl; lia].
Defined.

(** X10: on a well-formed board whose game is in progress, a negative
    point [p] from [-maxpoint] on is taken as counting from the end of the
    cells: when the cell at [p + maxpoint] is EMPTY, [play_move(p, c)]
    returns True, sets that cell, and puts the negative [p] itself into the
    list of [c], so that the lists no longer agree with the cells. *)
Theorem play_move_negative_point (b b1 : Board) (p c : Z) :
  wf_board b = true → checkState b = Ret (Some (-1), b1) →
  - maxpoint b ≤ p < 0 → cell b (p + maxpoint b) EMPTY →
  is_black_white c = true →
  ∃ b',
    play_move b p c = Ret (true, b')
    ∧ board b' = <[Z.to_nat (p + maxpoint b) := c]> (board b)
    ∧ (∃ l l', py_getitem (store b) c = Ret l
               ∧ py_getitem (store b') c = Ret l' ∧ l' ≡ₚ p :: l)
    ∧ wf_board b' = false.
Proof.
  intros Hwf%wf_board_WF Hstate Hp Hempty Hc.
  destruct (checkState_open b b1 Hwf Hstate) as [Hopen _].
  destruct (play_move_negative b p c Hwf Hopen Hp Hempty Hc)
    as (b' & Hplay & Hboard & (l' & Hget & Hperm) & Hwf').
  exists b'. split_and!; [done | done | | done].
  exists (stones b c), l'. split_and!; [| done | done].
  eapply store_get_colour, wf_store_is; done.
Qed.

Lemma play_move_negative_point_witness :
  ∃ b',
    play_move board_open (-34) BLACK = Ret (true, b')
    ∧ board b'
      = <[Z.to_nat (-34 + maxpoint board_open) := BLACK]> (board board_open)
    ∧ (∃ l l', py_getitem (store board_open) BLACK = Ret l
               ∧ py_getitem (store b') BLACK = Ret l' ∧ l' ≡ₚ -34 :: l)
    ∧ wf_board b' = false.
Proof.
  apply (play_move_negative_point board_open board_open (-34) BLACK);
    [vm_compute; reflexivity | vm_compute; reflexivity | simpl; lia
    | vm_compute; reflexivity | vm_compute; reflexivity].
Defined.

(** X11: [copy] of a well-formed board object returns a board with the
    attributes of the original, the reference to its [store] included, and
    leaves behind in the heap the empty lists that the constructor made
    for the copy. *)
Theorem copy_spec (self : BoardObj) (h : heap) :
  wf_object h self = true →
  copy self h = Ret (self, h ++ [[[]; []; []]]).
Proof. apply copy_self. Qed.

Lemma copy_spec_witness :
  copy object_open heap_open
  = Ret (object_open, heap_open ++ [[[]; []; []]]).
Proof. apply (copy_spec object_open heap_open). vm_compute. reflexivity. Defined.

(** X12: on a well-formed board object [is_legal(p, c)] returns what
    [play_move(p, c)] returns on the board, raises what it raises, and
    leaves the lists of the board as [play_move] leaves them. *)
Theorem is_legal_is_play_move (self : BoardObj) (h : heap)
    (st : list (list Z)) (p c : Z) :
  wf_object h self = true → store_of h self = Some st →
  is_legal self p c h
  = match play_move (set_store self st) p c with
    | Ret (legal, b') =>
        Ret (legal, <[store self := store b']> (h ++ [[[]; []; []]]))
    | Exc e => Exc e
    | Diverge => Diverge
    end.
Proof. apply is_legal_play_move. Qed.

Lemma is_legal_is_play_move_witness :
  is_legal object_open 9 BLACK heap_open
  = match play_move (set_store object_open (store board_open)) 9 BLACK with
    | Ret (legal, b') =>
        Ret (legal,
             <[store object_open := store b']> (heap_open ++ [[[]; []; []]]))
    | Exc e => Exc e
    | Diverge => Diverge
    end.
Proof.
  apply (is_legal_is_play_move object_open heap_open (store board_open)
           9 BLACK); vm_compute; reflexivity.
Defined.

(** X13: on a well-formed board object, for a valid point and a stone
    colour, [is_legal] that returns False leaves the lists of the board as
    they were; [is_legal] that returns True leaves the point in the list of
    the colour although its cell is still EMPTY, and the board is no longer
    well-formed. *)
Theorem is_legal_leaves_point (self : BoardObj) (h h' : heap) (p c : Z)
    (legal : bool) :
  wf_object h self = true → 0 ≤ p < maxpoint self →
  is_black_white c = true → is_legal self p c h = Ret (legal, h') →
  (legal = false → store_of h' self = store_of h self)
  ∧ (legal = true →
     board self !! Z.to_nat p = Some EMPTY
     ∧ (∃ st' l, store_of h' self = Some st' ∧ py_getitem st' c = Ret l
                 ∧ p ∈ l)
     ∧ wf_object h' self = false).
Proof. apply is_legal_effect. Qed.

Lemma is_legal_leaves_point_witness :
  (true = false →
   store_of [[[]; [7; 8; 9; 13]; [14; 21]]; [[]; []; []]] object_open
   = store_of heap_open object_open)
  ∧ (true = true →
     board object_open !! Z.to_nat 9 = Some EMPTY
     ∧ (∃ st' l,
          store_of [[[]; [7; 8; 9; 13]; [14; 21]]; [[]; []; []]] object_open
          = Some st'
          ∧ py_getitem st' BLACK = Ret l ∧ 9 ∈ l)
     ∧ wf_object [[[]; [7; 8; 9; 13]; [14; 21]]; [[]; []; []]] object_open
       = false).
Proof.
  apply (is_legal_leaves_point object_open heap_open
           [[[]; [7; 8; 9; 13]; [14; 21]]; [[]; []; []]] 9 BLACK true);
    [vm_compute; reflexivity | simpl; lia | vm_compute; reflexivity
    | vm_compute; reflexivity].
Defined.

(** X14: on a well-formed board the block does not depend on the stone it
    is computed from: [_block_of] of any point marked by [_block_of(seed)]
    returns the same marks. *)
Theorem _block_of_any_member (b : Board) (seed q c : Z)
    (marker : list bool) :
  wf_board b = true → cell b seed c → is_black_white c = true →
  _block_of b seed = Ret marker → marked marker q →
  _block_of b q = Ret marker.
Proof. intros Hwf%wf_board_WF. by apply _block_of_same. Qed.

Lemma _block_of_any_member_witness :
  _block_of board_two_captured 5 = Ret marker_two.
Proof.
  apply (_block_of_any_member board_two_captured 4 5 BLACK marker_two);
    vm_compute; first [reflexivity | split; [discriminate | reflexivity]].
Defined.

(** X15: on a well-formed board, when the block of the stone at [q] has no
    liberty, [_detect_and_process_capture(q)] empties the cell at [q] but
    leaves [q] in the list of its colour, so that the lists no longer agree
    with the cells; a second call on [q] fails the assertion of
    [_block_of]. *)
Theorem capture_leaves_lists (b : Board) (q c : Z) (marker : list bool) :
  wf_board b = true → cell b q c → is_black_white c = true →
  _block_of b q = Ret marker → _has_liberty b marker = Ret false →
  ∃ flag b',
    _detect_and_process_capture b q = Ret (flag, b')
    ∧ cell b' q EMPTY
    ∧ (∃ l, py_getitem (store b') c = Ret l ∧ q ∈ l)
    ∧ wf_board b' = false
    ∧ _detect_and_process_capture b' q = Exc AssertionError.
Proof. intros Hwf%wf_board_WF. by apply capture_stale. Qed.

Lemma capture_leaves_lists_witness :
  ∃ flag b',
    _detect_and_process_capture board_two_captured 4 = Ret (flag, b')
    ∧ cell b' 4 EMPTY
    ∧ (∃ l, py_getitem (store b') BLACK = Ret l ∧ 4 ∈ l)
    ∧ wf_board b' = false
    ∧ _detect_and_process_capture b' 4 = Exc AssertionError.
Proof.
  apply (capture_leaves_lists board_two_captured 4 BLACK marker_two);
    vm_compute; reflexivity.
Defined.

(** X16: on a well-formed board a playable point that is an eye for one
    stone colour is not an eye for the other. *)
Theorem is_eye_one_colour (b : Board) (p c : Z) :
  wf_board b = true → on_board b p = true → is_black_white c = true →
  is_eye b p c = Ret true → is_eye b p (opponent c) = Ret false.
Proof. intros Hwf%wf_board_WF. by apply is_eye_other. Qed.

Lemma is_eye_one_colour_witness :
  is_eye board_white_eye 8 (opponent WHITE) = Ret false.
Proof.
  apply (is_eye_one_colour board_white_eye 8 WHITE); vm_compute; reflexivity.
Defined.

(** X17: on a well-formed board the padding is enough: around a playable
    point each of the four orthogonal and the four diagonal neighbours is a
    cell of the array, read without an error and without counting from the
    end, and [neighbors_of_color] returns the orthogonal neighbours of the
    colour in the order left, right, up, down. *)
Theorem neighbors_on_board (b : Board) (p : Z) :
  wf_board b = true → on_board b p = true →
  (∀ n, n ∈ _neighbors b p ++ _diag_neighbors b p →
        ∃ c, get_color b n = Ret c ∧ cell b n c)
  ∧ ∀ color,
      neighbors_of_color b p color
      = Ret (filter (λ n, cell b n color)
                    [p - 1; p + 1; p - NS b; p + NS b]).
Proof.
  intros Hwf%wf_board_WF Hp. split.
  - intros n. by apply neighbors_read.
  - intros color. by apply neighbors_of_color_on_board.
Qed.

Lemma neighbors_on_board_witness :
  (∀ n, n ∈ _neighbors board_open 7 ++ _diag_neighbors board_open 7 →
        ∃ c, get_color board_open n = Ret c ∧ cell board_open n c)
  ∧ ∀ color,
      neighbors_of_color board_open 7 color
      = Ret (filter (λ n, cell board_open n color)
                    [7 - 1; 7 + 1; 7 - NS board_open; 7 + NS board_open]).
Proof. apply (neighbors_on_board board_open 7); vm_compute; reflexivity. Defined.

(** X18: for a stone colour and any content of the three lists,
    [checkout(colour)] moves the scratch list into the list of the colour:
    the scratch list is empty afterwards, the list of the colour holds its
    elements and those of the scratch list in ascending order, the other
    list and the cells are as before, and a second [checkout] changes
    nothing. *)
Theorem checkout_spec_sorted (b : Board) (c : Z) (Sc L O : list Z) :
  store_is (store b) c Sc L O →
  ∃ b' l,
    checkout b c = Ret b'
    ∧ board b' = board b
    ∧ store_is (store b') c [] l O
    ∧ l ≡ₚ L ++ Sc
    ∧ Sorted Z.le l
    ∧ checkout b' c = Ret b'.
Proof. apply checkout_sorts. Qed.

Lemma checkout_spec_sorted_witness :
  ∃ b' l,
    checkout board_scanning BLACK = Ret b'
    ∧ board b' = board board_scanning
    ∧ store_is (store b') BLACK [] l [14; 21]
    ∧ l ≡ₚ [7] ++ [13; 8]
    ∧ Sorted Z.le l
    ∧ checkout b' BLACK = Ret b'.
Proof.
  apply (checkout_spec_sorted board_scanning BLACK [13; 8] [7] [14; 21]).
  left. split; reflexivity.
Defined.


(** X19: [play_move] alone keeps the data model: from a well-formed board,
    after any sequence of calls with points of the array and stone colours,
    accepted or not, the board is well-formed. *)
Theorem play_moves_keep_invariants (b : Board) (moves : list (Z * Z)) :
  wf_board b = true → forallb (valid_move b) moves = true →
  ∃ b', play_moves b moves = Ret b' ∧ wf_board b' = true.
Proof.
  intros Hwf%wf_board_WF Hvalid.
  destruct (play_moves_WF (maxpoint b) moves b Hwf eq_refl Hvalid)
    as (b' & Hrun & Hwf').
  exists b'. split; [done | by apply wf_board_WF].
Qed.

Lemma play_moves_keep_invariants_witness :
  ∃ b', play_moves board_open [(9, BLACK); (9, WHITE); (0, BLACK); (15, WHITE)]
        = Ret b'
        ∧ wf_board b' = true.
Proof.
  apply (play_moves_keep_invariants board_open
           [(9, BLACK); (9, WHITE); (0, BLACK); (15, WHITE)]);
    vm_compute; reflexivity.
Defined.

(** X20: on a new board the game is in progress ([checkState()] is -1), and
    [play_move] of a stone colour on a point of the array is accepted
    exactly on the playable points. *)
Theorem fresh_board_moves (n p c : Z) :
  2 ≤ n ≤ MAXSIZE → 0 ≤ p < n * n + 3 * (n + 1) →
  is_black_white c = true →
  ∃ b,
    __init__ n = Ret b
    ∧ checkState b = Ret (Some (-1), b)
    ∧ ∃ ok b', play_move b p c = Ret (ok, b')
               ∧ (ok = true ↔ on_board b p = true).
Proof.
  intros Hn Hp Hc.
  destruct (fresh_board_spec n Hn)
    as (b & Hinit & Hlen & Hcells & _ & Hstore & Hwf).
  assert (Hsize : size b = n).
  { pose proof (wf_length b Hwf) as H1. pose proof (wf_maxpoint b Hwf) as H2.
    pose proof (wf_size b Hwf). nia. }
  assert (Hmax : maxpoint b = n * n + 3 * (n + 1)).
  { rewrite (wf_maxpoint b Hwf), Hsize. done. }
  destruct (fresh_board_open n b ltac:(lia) Hwf Hsize Hstore)
    as [Hopen Hempty].
  exists b. split_and!; [done | |].
  - destruct (checkState_result b Hwf) as (s & -> & _ & _ & _ & HO).
    rewrite (decided_five b Hwf) in Hopen. rewrite HO; [done | tauto ..].
  - specialize (Hcells p Hp).
    destruct (play_move_cases b p c Hwf ltac:(lia) Hc)
      as [[[? | Hfull] ->] | (_ & Hcell & ->)]; [done | |].
    + exists false, b. split; [done |]. split; [done |]. intros Hon.
      rewrite Hon in Hcells. done.
    + eexists true, _. split; [done |]. split; [intros _ | done].
      destruct (on_board b p); [done |]. unfold cell in *.
      rewrite Hcells in Hcell. discriminate.
Qed.

Lemma fresh_board_moves_witness :
  ∃ b,
    __init__ 2 = Ret b
    ∧ checkState b = Ret (Some (-1), b)
    ∧ ∃ ok b', play_move b 4 BLACK = Ret (ok, b')
               ∧ (ok = true ↔ on_board b 4 = true).
Proof.
  apply (fresh_board_moves 2 4 BLACK);
    [unfold MAXSIZE; lia | lia | vm_compute; reflexivity].
Defined.
